(** * BrowserOS web shell: tab registry, navigation history and agent actions

    A shallow embedding of [BrowserCore] (tabs, per-tab history, URL
    resolution) and of [Agent] (element resolution, action execution, batch
    execution) from [web-app/js], with the properties their specification
    states about them.

    JavaScript strings are modelled by [string] whose characters stand for
    the code units 0..255; [null] and [undefined] in a slot that otherwise
    holds a string are [None]. *)

From Stdlib Require Import ZArith Lia Bool Ascii String List.
From stdpp Require Import base tactics option list strings pretty gmap.

Local Open Scope string_scope.

(** ** JavaScript primitives used by the source *)

Module JS.

Definition code (c : ascii) : nat := nat_of_ascii c.

Definition between (lo hi : nat) (c : ascii) : bool :=
  (lo <=? code c)%nat && (code c <=? hi)%nat.

Definition isUpper : ascii -> bool := between 65 90.
Definition isLower : ascii -> bool := between 97 122.
Definition isDigit : ascii -> bool := between 48 57.
Definition isAlpha (c : ascii) : bool := isUpper c || isLower c.
Definition isAlnum (c : ascii) : bool := isAlpha c || isDigit c.

(** [WhiteSpace] and [LineTerminator] code units below 256: TAB, LF, VT,
    FF, CR, SP and NBSP. *)
Definition isWhiteSpace (c : ascii) : bool :=
  between 9 13 c || (code c =? 32)%nat || (code c =? 160)%nat.

(** Dropping the longest prefix, respectively suffix, of characters in a
    class. *)
Fixpoint stripStart (p : ascii -> bool) (s : string) : string :=
  match s with
  | String c s' => if p c then stripStart p s' else s
  | EmptyString => EmptyString
  end.

Fixpoint stripEnd (p : ascii -> bool) (s : string) : string :=
  match s with
  | EmptyString => EmptyString
  | String c s' =>
      match stripEnd p s' with
      | EmptyString => if p c then EmptyString else String c EmptyString
      | t => String c t
      end
  end.

(** [String.prototype.trim] *)
Definition trim (s : string) : string :=
  stripEnd isWhiteSpace (stripStart isWhiteSpace s).

Fixpoint allChars (p : ascii -> bool) (s : string) : bool :=
  match s with
  | EmptyString => true
  | String c s' => p c && allChars p s'
  end.

(** The longest prefix of characters in a class, and what follows it. *)
Fixpoint span (p : ascii -> bool) (s : string) : string * string :=
  match s with
  | String c s' =>
      if p c then let (a, b) := span p s' in (String c a, b)
      else (EmptyString, s)
  | EmptyString => (EmptyString, EmptyString)
  end.

(** [String.prototype.split] on a one-character separator. *)
Fixpoint split (sep : ascii) (s : string) : list string :=
  match s with
  | EmptyString => [EmptyString]
  | String c s' =>
      if Ascii.eqb c sep then EmptyString :: split sep s'
      else match split sep s' with
           | h :: t => String c h :: t
           | [] => [String c EmptyString]
           end
  end.

Fixpoint dropChars (n : nat) (s : string) : string :=
  match n, s with
  | S n', String _ s' => dropChars n' s'
  | _, _ => s
  end.

(** [String.prototype.toLowerCase]: A-Z and the Latin-1 capitals
    (0xC0..0xDE except the multiplication sign) move up by 32. *)
Definition lowerChar (c : ascii) : ascii :=
  if isUpper c || (between 192 222 c && negb (code c =? 215)%nat)
  then ascii_of_nat (code c + 32) else c.

Fixpoint toLowerCase (s : string) : string :=
  match s with
  | EmptyString => EmptyString
  | String c s' => String (lowerChar c) (toLowerCase s')
  end.

Fixpoint startsWith (p s : string) : bool :=
  match p, s with
  | EmptyString, _ => true
  | String a p', String b s' => Ascii.eqb a b && startsWith p' s'
  | String _ _, EmptyString => false
  end.

(** [String.prototype.includes] *)
Fixpoint includes (s t : string) : bool :=
  startsWith t s ||
  match s with
  | EmptyString => false
  | String _ s' => includes s' t
  end.

(** [Array.prototype.slice(0, e)]: a negative [e] counts from the end, and
    the bound is clamped to the array. *)
Definition slice0 {A} (l : list A) (e : Z) : list A :=
  let len := Z.of_nat (length l) in
  let final := if (e <? 0)%Z then Z.max (len + e) 0 else Z.min e len in
  take (Z.to_nat final) l.

(** Truthiness of a string-or-null slot: [null], [undefined] and the empty
    string are falsy. *)
Definition truthy (v : option string) : bool :=
  match v with
  | Some s => negb (String.eqb s EmptyString)
  | None => false
  end.

(** [v || ''] *)
Definition orEmpty (v : option string) : string := default EmptyString v.

Definition hexDigit (n : nat) : ascii :=
  match get n "0123456789ABCDEF" with
  | Some c => c
  | None => "0"%char
  end.

Definition percent (byte : nat) : string :=
  String "%" (String (hexDigit (byte / 16)) (String (hexDigit (byte mod 16)) EmptyString)).

Definition isUriUnreserved (c : ascii) : bool :=
  isAlnum c || includes "-_.!~*'()" (String c EmptyString).

(** One code unit under [encodeURIComponent]: unreserved characters are
    kept, the others are written as the percent-escaped bytes of their
    UTF-8 encoding (one byte below 128, two bytes from 128 to 255). *)
Definition encodeUnit (c : ascii) : string :=
  if isUriUnreserved c then String c EmptyString
  else if (code c <? 128)%nat then percent (code c)
  else percent (192 + code c / 64) +:+ percent (128 + code c mod 64).

Fixpoint encodeURIComponent (s : string) : string :=
  match s with
  | EmptyString => EmptyString
  | String c s' => encodeUnit c +:+ encodeURIComponent s'
  end.

End JS.

(** ** The platform's URL constructor

    [new URL(input)] either throws a [TypeError] or yields an object whose
    [href] is the serialised URL.  The browser supplies it, so the program
    is modelled over an arbitrary such function. *)

Inductive UrlResult :=
  | UrlOk (href : string)
  | UrlThrows.

(** A reference model of [new URL(input).href] after the WHATWG URL
    Standard, on the part of the input space described below; [None] means
    that the input lies outside that part.

    - An input that, once leading and trailing C0 controls and spaces are
      stripped and tabs and newlines removed, does not begin with
      [alpha (alnum | + | - | .)* :] has no scheme: without a base URL the
      parser fails.
    - [http://host path] and [https://host path] (scheme in any case), where
      [host] is made of non-empty labels over [a-z 0-9 -] separated by dots,
      no label begins with [xn--] and the last begins with a letter, and
      [path] is empty or begins with [/], uses only
      [A-Z a-z 0-9 - . _ ~ /] and has no [.] or [..] segment: the scheme is
      lower-cased and an empty path is serialised as [/]. *)
Module WhatwgURL.

Definition isC0OrSpace (c : ascii) : bool := (JS.code c <=? 32)%nat.

Definition isTabOrNewline (c : ascii) : bool :=
  (JS.code c =? 9)%nat || (JS.code c =? 10)%nat || (JS.code c =? 13)%nat.

Fixpoint removeTabNewline (s : string) : string :=
  match s with
  | EmptyString => EmptyString
  | String c s' =>
      if isTabOrNewline c then removeTabNewline s'
      else String c (removeTabNewline s')
  end.

Definition preprocess (s : string) : string :=
  removeTabNewline (JS.stripEnd isC0OrSpace (JS.stripStart isC0OrSpace s)).

Definition isSchemeChar (c : ascii) : bool :=
  JS.isAlnum c || JS.includes "+-." (String c EmptyString).

(** Scheme state: the lower-cased scheme and what follows its colon. *)
Fixpoint schemeState (s acc : string) : option (string * string) :=
  match s with
  | EmptyString => None
  | String c s' =>
      if isSchemeChar c then schemeState s' (acc +:+ String (JS.lowerChar c) EmptyString)
      else if Ascii.eqb c ":" then Some (acc, s')
      else None
  end.

(** Scheme start state. *)
Definition scheme (s : string) : option (string * string) :=
  match s with
  | String c _ => if JS.isAlpha c then schemeState s EmptyString else None
  | EmptyString => None
  end.

Definition isHostChar (c : ascii) : bool :=
  JS.isLower c || JS.isDigit c || JS.includes "-." (String c EmptyString).

Definition isPathChar (c : ascii) : bool :=
  JS.isAlnum c || JS.includes "-._~/" (String c EmptyString).

Definition plainLabel (l : string) : bool :=
  negb (String.eqb l EmptyString) && negb (JS.startsWith "xn--" l).

Definition plainHost (h : string) : bool :=
  let labels := JS.split "." h in
  forallb plainLabel labels &&
  match last labels with
  | Some (String c _) => JS.isLower c
  | _ => false
  end.

Definition dotSegment (seg : string) : bool :=
  String.eqb seg "." || String.eqb seg "..".

Definition plainPath (p : string) : bool :=
  String.eqb p EmptyString ||
  (JS.startsWith "/" p && JS.allChars isPathChar p &&
   forallb (fun seg => negb (dotSegment seg)) (JS.split "/" p)).

Definition parse (input : string) : option UrlResult :=
  let s := preprocess input in
  match scheme s with
  | None => Some UrlThrows
  | Some (sch, rest) =>
      if (String.eqb sch "http" || String.eqb sch "https") && JS.startsWith "//" rest then
        let (host, path) := JS.span isHostChar (JS.dropChars 2 rest) in
        if plainHost host && plainPath path then
          Some (UrlOk (sch +:+ "://" +:+ host +:+
                       (if String.eqb path EmptyString then "/" else path)))
        else None
      else None
  end.

(** A URL constructor agrees with the standard wherever the reference
    model speaks. *)
Definition conforms (URL : string -> UrlResult) : Prop :=
  forall input r, parse input = Some r -> URL input = r.

(** The reference model completed by a throw outside its domain. *)
Definition orThrow (input : string) : UrlResult := default UrlThrows (parse input).

End WhatwgURL.

(** ** Data model of [BrowserCore] *)

(** A tab object.  Its [favicon] slot is always [null] and never read. *)
Module Tab.
Record t := mk { id : string; title : string; url : option string; isHome : bool }.
Definition set_url (u : option string) (x : t) : t := mk (id x) (title x) u (isHome x).
Definition set_title (s : string) (x : t) : t := mk (id x) s (url x) (isHome x).
Definition set_isHome (b : bool) (x : t) : t := mk (id x) (title x) (url x) b.
End Tab.

(** An entry of [this.history]: the visited URLs and the current position. *)
Module History.
Record t := mk { stack : list string; index : Z }.
Definition empty : t := mk [] (-1).
End History.

(** The elements of the host page that [BrowserCore] writes: the address
    bar, the welcome page, the frame container with its two overlays, the
    frame's [src], the number of armed load timeouts and the two history
    buttons.  The elements are taken to be present in the host page. *)
Module Chrome.
Record t := mk {
  urlInput : string;
  welcomePage : bool;
  iframeContainer : bool;
  loadingOverlay : bool;
  errorOverlay : bool;
  frameSrc : option string;
  armedTimeouts : nat;
  backDisabled : bool;
  forwardDisabled : bool }.
End Chrome.

Record BrowserCore := mkCore {
  tabs : list Tab.t;
  activeTabId : option string;
  history : gmap string History.t;
  tabIdCounter : nat;
  page : Chrome.t }.

Definition with_tabs (f : list Tab.t -> list Tab.t) (s : BrowserCore) : BrowserCore :=
  mkCore (f (tabs s)) (activeTabId s) (history s) (tabIdCounter s) (page s).
Definition with_active (a : option string) (s : BrowserCore) : BrowserCore :=
  mkCore (tabs s) a (history s) (tabIdCounter s) (page s).
Definition with_history (f : gmap string History.t -> gmap string History.t)
    (s : BrowserCore) : BrowserCore :=
  mkCore (tabs s) (activeTabId s) (f (history s)) (tabIdCounter s) (page s).
Definition with_counter (n : nat) (s : BrowserCore) : BrowserCore :=
  mkCore (tabs s) (activeTabId s) (history s) n (page s).
Definition with_page (f : Chrome.t -> Chrome.t) (s : BrowserCore) : BrowserCore :=
  mkCore (tabs s) (activeTabId s) (history s) (tabIdCounter s) (f (page s)).

(** The state built by the constructor, over the host page as it stands. *)
Definition newBrowserCore (p : Chrome.t) : BrowserCore := mkCore [] None ∅ 0 p.

(** [`tab-${n}`] *)
Definition tabName (n : nat) : string := "tab-" +:+ pretty n.

(** [xs[i]] for a JavaScript number [i]: [undefined] outside the array. *)
Definition at_index {A} (xs : list A) (i : Z) : option A :=
  if (i <? 0)%Z then None else xs !! Z.to_nat i.

(** [this.tabs.find(t => t.id === tabId)] together with its position. *)
Definition findTab (tabId : string) (ts : list Tab.t) : option (nat * Tab.t) :=
  list_find (fun x => Tab.id x = tabId) ts.

Definition getActiveTab (s : BrowserCore) : option (nat * Tab.t) :=
  match activeTabId s with
  | Some a => findTab a (tabs s)
  | None => None
  end.

(** ** UrlResolver *)

Definition isTokenChar (c : ascii) : bool :=
  JS.isAlnum c || Ascii.eqb c "_" || Ascii.eqb c "-".

(** [input.match(/^[\w-]+(\.[\w-]+)+/)]: the pattern is anchored at the start
    only.  The first run of token characters is maximal because a token
    character is never a dot, and one dot followed by one token character
    already completes a match. *)
Definition looksLikeDomain (input : string) : bool :=
  match JS.span isTokenChar input with
  | (String _ _, String dot (String c _)) => Ascii.eqb dot "." && isTokenChar c
  | _ => false
  end.

Section Core.

(** [new URL(input)], as the browser provides it. *)
Variable URL : string -> UrlResult.

Definition parseUrl (input : string) : string :=
  match URL input with
  | UrlOk href => href
  | UrlThrows =>
      if looksLikeDomain input then "https://" +:+ input
      else "https://www.google.com/search?q=" +:+ JS.encodeURIComponent input
  end.

(** *** Host page updates *)

Definition updateAddressBar (url : option string) (s : BrowserCore) : BrowserCore :=
  with_page (fun p =>
    Chrome.mk (JS.orEmpty url) (Chrome.welcomePage p) (Chrome.iframeContainer p)
      (Chrome.loadingOverlay p) (Chrome.errorOverlay p) (Chrome.frameSrc p)
      (Chrome.armedTimeouts p) (Chrome.backDisabled p) (Chrome.forwardDisabled p)) s.

(** [this.corsProxy] is the empty string, so the frame receives the URL
    itself; an [undefined] URL is assigned as the text "undefined".  Every
    call arms one more timeout. *)
Definition loadUrl (url : option string) (s : BrowserCore) : BrowserCore :=
  with_page (fun p =>
    Chrome.mk (Chrome.urlInput p) false true true false
      (Some (default "undefined" url))
      (S (Chrome.armedTimeouts p)) (Chrome.backDisabled p) (Chrome.forwardDisabled p)) s.

Definition showWelcomePage (s : BrowserCore) : BrowserCore :=
  with_page (fun p =>
    Chrome.mk (Chrome.urlInput p) true false
      (Chrome.loadingOverlay p) (Chrome.errorOverlay p) (Chrome.frameSrc p)
      (Chrome.armedTimeouts p) (Chrome.backDisabled p) (Chrome.forwardDisabled p)) s.

Definition updateNavigationButtons (s : BrowserCore) : BrowserCore :=
  let h := match getActiveTab s with
           | Some (_, activeTab) => history s !! Tab.id activeTab
           | None => None
           end in
  let back := match h with
              | Some h => (History.index h <=? 0)%Z
              | None => true
              end in
  let forward := match h with
                 | Some h => (History.index h >=? Z.of_nat (length (History.stack h)) - 1)%Z
                 | None => true
                 end in
  with_page (fun p =>
    Chrome.mk (Chrome.urlInput p) (Chrome.welcomePage p) (Chrome.iframeContainer p)
      (Chrome.loadingOverlay p) (Chrome.errorOverlay p) (Chrome.frameSrc p)
      (Chrome.armedTimeouts p) back forward) s.

(** *** TabRegistry operations

    [renderTabs] redraws the tab strip from [tabs] and [activeTabId] and
    keeps no state of its own, so it does not appear below. *)

Definition switchToTab (tabId : string) (s : BrowserCore) : BrowserCore :=
  match findTab tabId (tabs s) with
  | None => s
  | Some (_, tab) =>
      let s := with_active (Some tabId) s in
      let s := updateAddressBar (Some (JS.orEmpty (Tab.url tab))) s in
      let s := updateNavigationButtons s in
      if Tab.isHome tab || negb (JS.truthy (Tab.url tab)) then showWelcomePage s
      else loadUrl (Tab.url tab) s
  end.

(** The history push of [navigate]. *)
Definition pushUrl (url : string) (h : History.t) : History.t :=
  let stack := (JS.slice0 (History.stack h) (History.index h + 1) ++ [url])%list in
  History.mk stack (Z.of_nat (length stack) - 1).

Definition navigate (input : string) (s : BrowserCore) : BrowserCore :=
  if String.eqb input EmptyString || String.eqb (JS.trim input) EmptyString then s
  else
    let url := parseUrl (JS.trim input) in
    match getActiveTab s with
    | None => s
    | Some (i, activeTab) =>
        let s := with_tabs (alter (fun x =>
                   Tab.set_title "Loading..." (Tab.set_isHome false (Tab.set_url (Some url) x))) i) s in
        let s := match history s !! Tab.id activeTab with
                 | Some h => with_history (insert (Tab.id activeTab) (pushUrl url h)) s
                 | None => s
                 end in
        let s := updateAddressBar (Some url) s in
        let s := loadUrl (Some url) s in
        updateNavigationButtons s
    end.

Definition createNewTab (url : option string) (s : BrowserCore) : string * BrowserCore :=
  let n := S (tabIdCounter s) in
  let tabId := tabName n in
  let tab := Tab.mk tabId "New Tab" url (negb (JS.truthy url)) in
  let s := with_counter n s in
  let s := with_tabs (fun ts => (ts ++ [tab])%list) s in
  let s := with_history (insert tabId History.empty) s in
  let s := switchToTab tabId s in
  let s := if JS.truthy url then navigate (JS.orEmpty url) s else s in
  (tabId, s).

Definition closeTab (tabId : string) (s : BrowserCore) : BrowserCore :=
  match findTab tabId (tabs s) with
  | None => s
  | Some (index, _) =>
      let wasActive := bool_decide (activeTabId s = Some tabId) in
      let s := with_tabs (delete index) s in
      let s := with_history (delete tabId) s in
      match tabs s with
      | [] => snd (createNewTab None s)
      | _ :: _ =>
          if wasActive then
            let newIndex := Nat.min index (length (tabs s) - 1) in
            match tabs s !! newIndex with
            | Some x => switchToTab (Tab.id x) s
            | None => s
            end
          else s
      end
  end.

(** The shared body of [goBack] and [goForward] once the index has moved. *)
Definition moveTo (i : nat) (activeTab : Tab.t) (h : History.t) (index : Z)
    (s : BrowserCore) : BrowserCore :=
  let s := with_history (insert (Tab.id activeTab) (History.mk (History.stack h) index)) s in
  let url := at_index (History.stack h) index in
  let s := with_tabs (alter (Tab.set_url url) i) s in
  let s := updateAddressBar url s in
  let s := loadUrl url s in
  updateNavigationButtons s.

Definition goBack (s : BrowserCore) : BrowserCore :=
  match getActiveTab s with
  | None => s
  | Some (i, activeTab) =>
      match history s !! Tab.id activeTab with
      | Some h =>
          if (0 <? History.index h)%Z then moveTo i activeTab h (History.index h - 1) s
          else s
      | None => s
      end
  end.

Definition goForward (s : BrowserCore) : BrowserCore :=
  match getActiveTab s with
  | None => s
  | Some (i, activeTab) =>
      match history s !! Tab.id activeTab with
      | Some h =>
          if (History.index h <? Z.of_nat (length (History.stack h)) - 1)%Z
          then moveTo i activeTab h (History.index h + 1) s
          else s
      | None => s
      end
  end.

Definition reload (s : BrowserCore) : BrowserCore :=
  match getActiveTab s with
  | Some (_, activeTab) =>
      if JS.truthy (Tab.url activeTab) then loadUrl (Tab.url activeTab) s else s
  | None => s
  end.

Definition goHome (s : BrowserCore) : BrowserCore :=
  match getActiveTab s with
  | Some (i, _) =>
      let s := with_tabs (alter (fun x =>
                 Tab.set_title "New Tab" (Tab.set_isHome true (Tab.set_url None x))) i) s in
      showWelcomePage (updateAddressBar None s)
  | None => s
  end.

(** [init]: the event wiring aside, it opens the first tab. *)
Definition init (s : BrowserCore) : BrowserCore := snd (createNewTab None s).

(** The requests a user can make of the registry, and runs of them.  The
    load and error events of the frame write titles and overlays only and
    are left out. *)
Inductive Request :=
  | NewTab (url : option string)
  | CloseTab (tabId : string)
  | SwitchToTab (tabId : string)
  | Navigate (input : string)
  | GoBack
  | GoForward
  | Reload
  | GoHome.

Definition serve (s : BrowserCore) (r : Request) : BrowserCore :=
  match r with
  | NewTab url => snd (createNewTab url s)
  | CloseTab tabId => closeTab tabId s
  | SwitchToTab tabId => switchToTab tabId s
  | Navigate input => navigate input s
  | GoBack => goBack s
  | GoForward => goForward s
  | Reload => reload s
  | GoHome => goHome s
  end.

Definition serveAll (rs : list Request) (s : BrowserCore) : BrowserCore :=
  fold_left serve rs s.

End Core.

(** The tab that [createNewTab()] opens. *)
Definition homeTab (s : BrowserCore) : Tab.t :=
  Tab.mk (tabName (S (tabIdCounter s))) "New Tab" None true.

(** ** NavigationHistory: the index invariant *)


(** The invariant of the data model: the index lies in
    [-1 .. length - 1] and is [-1] exactly when the stack is empty. *)
Definition history_ok (h : History.t) : Prop :=
  (-1 <= History.index h <= Z.of_nat (length (History.stack h)) - 1)%Z /\
  (History.index h = (-1)%Z <-> History.stack h = []).

Definition histories_ok (s : BrowserCore) : Prop :=
  forall tabId h, history s !! tabId = Some h -> history_ok h.

(** The position that [n] calls of [goBack] reach from [index]: a step back
    is taken only from a positive position. *)
Definition backBy (n : nat) (index : Z) : Z :=
  Z.max (Z.min index 0) (index - Z.of_nat n).

(** ** The bare-domain shape in the words of the specification

    A token is a non-empty run of word characters and hyphens; the shape
    [token(.token)+] is a token followed by one or more groups of a dot and
    a token.  The pattern of [parseUrl] asks for it at the start of the
    input. *)

Definition isToken (t : string) : Prop :=
  t <> EmptyString /\ JS.allChars isTokenChar t = true.

Fixpoint dotted (ts : list string) : string :=
  match ts with
  | [] => EmptyString
  | t :: ts => "." +:+ t +:+ dotted ts
  end.

Definition bareDomain (p : string) : Prop :=
  exists t ts, isToken t /\ ts <> [] /\ Forall isToken ts /\ p = t +:+ dotted ts.

Definition beginsWithBareDomain (input : string) : Prop :=
  exists p rest, bareDomain p /\ input = p +:+ rest.

(** ** The framed document as the agent reads it

    An element is the bundle of DOM properties that [Agent] consults.  The
    document lists its elements in document order; the elements nested
    inside one are the [descendants] entries that follow it.  A property a
    kind of element does not have is [None]; properties that a script of
    the page adds to an element are not considered.  The [value] of a list
    item, of a progress bar and of a meter is a number and no string,
    whatever the record holds there (see [numericValue] below). *)

Module SelectOption.
Record t := mk { text : string; value : string }.
End SelectOption.

Module Element.
Record t := mk {
  tagName : string;
  id : string;
  textContent : string;
  value : option string;
  placeholder : option string;
  onclick : bool;
  htmlFor : string;
  options : list SelectOption.t;
  descendants : nat }.
Definition set_value (v : option string) (e : t) : t :=
  mk (tagName e) (id e) (textContent e) v (placeholder e) (onclick e) (htmlFor e)
     (options e) (descendants e).
End Element.

(** An event dispatched on the element at a position of the document. *)
Record DomEvent := mkEvent { eventTarget : nat; eventType : string }.

(** ** What the elements make of the agent's calls

    Whether [element.click()] and [element.focus()] do anything, and what
    [element.value = v] leaves behind, lies with the kind and the state of
    the element and not with the agent: a disabled button takes no click,
    an element that cannot be focused takes no focus, a [select] keeps only
    a value that one of its options has, a number field keeps only a
    number, and a file field refuses a value by throwing.  A call of a
    method that the element does not have throws as well. *)

(** What [element.click()] comes to. *)
Inductive Call :=
  | Acts
  | Ignored
  | Throws.

(** What [element.focus()] comes to.  An element that takes the focus is
    scrolled into view, which leaves the page at the given offset. *)
Inductive Focusing :=
  | Focused (scrollY : Z)
  | Unfocused
  | FocusThrows.

(** What an assignment to [element.value] comes to: the elements of the
    document as they read afterwards, or an exception. *)
Inductive Assignment :=
  | Stored (elements : list Element.t)
  | Refused.

(** The answers of the elements of a page.  An element is named by its
    position in the document; [focus] is also given the scroll offset of
    the page, and [setValue] the [value] slot of the action, which is
    [None] when the action has none. *)
Module Platform.
Record t := mk {
  click : list Element.t -> nat -> Call;
  focus : list Element.t -> nat -> Z -> Focusing;
  setValue : list Element.t -> nat -> option string -> Assignment }.
End Platform.

(** The content of the frame: its elements, the events that the agent's
    calls dispatched so far, the focused element, the vertical scroll offset
    with its maximum, and the answers of its elements to the agent's
    calls. *)
Module Page.
Record t := mk {
  elements : list Element.t;
  events : list DomEvent;
  focused : option nat;
  scrollY : Z;
  scrollLimit : Z;
  dom : Platform.t }.
Definition dispatch (i : nat) (type : string) (p : t) : t :=
  mk (elements p) (events p ++ [mkEvent i type])%list (focused p) (scrollY p) (scrollLimit p)
     (dom p).
Definition focus (i : nat) (y : Z) (p : t) : t :=
  mk (elements p) (events p) (Some i) y (scrollLimit p) (dom p).
Definition set_value (i : nat) (v : option string) (p : t) : t :=
  mk (alter (Element.set_value v) i (elements p)) (events p) (focused p)
     (scrollY p) (scrollLimit p) (dom p).
Definition set_elements (doc : list Element.t) (p : t) : t :=
  mk doc (events p) (focused p) (scrollY p) (scrollLimit p) (dom p).
Definition scrollTo (y : Z) (p : t) : t :=
  mk (elements p) (events p) (focused p) (Z.max 0 (Z.min y (scrollLimit p))) (scrollLimit p)
     (dom p).
End Page.

(** The frame element: its document and window are reachable only when the
    framed page has the origin of the host page. *)
Inductive Frame :=
  | SameOrigin (p : Page.t)
  | CrossOrigin.

(** An action object, with the slots the parser fills. *)
Module Action.
Record t := mk {
  type : string;
  target : option string;
  value : option string;
  direction : option string;
  url : option string }.
Definition click (target : string) : t := mk "click" (Some target) None None None.
Definition typeInto (value target : string) : t := mk "type" (Some target) (Some value) None None.
Definition scroll (direction : string) : t := mk "scroll" None None (Some direction) None.
Definition navigate (url : string) : t := mk "navigate" None None None (Some url).
Definition select (value target : string) : t := mk "select" (Some target) (Some value) None None.
End Action.

Module ActionResult.
Record t := mk { action : Action.t; success : bool; error : option string }.
End ActionResult.

(** What a call of an [async] method comes to. *)
Inductive Outcome :=
  | Returned (result : bool)
  | Thrown (message : string).

(** What the agent can reach: [window.browserCore], the [page-frame] element
    of the host page, its own [isRunning] flag and the status line. *)
Record World := mkWorld {
  browserCore : option BrowserCore;
  pageFrame : option Frame;
  isRunning : bool;
  status : string * string }.

Definition with_core (c : option BrowserCore) (w : World) : World :=
  mkWorld c (pageFrame w) (isRunning w) (status w).
Definition with_frame (f : option Frame) (w : World) : World :=
  mkWorld (browserCore w) f (isRunning w) (status w).
Definition with_running (b : bool) (w : World) : World :=
  mkWorld (browserCore w) (pageFrame w) b (status w).
Definition updateStatus (st text : string) (w : World) : World :=
  mkWorld (browserCore w) (pageFrame w) (isRunning w) (st, text).

(** ** The platform's selector engine *)

Inductive SelectorResult :=
  | Matched (position : nat)
  | NoMatch
  | SyntaxError.

(** A reference model of [document.querySelector] on type selectors: a
    selector made of a lower-case letter followed by lower-case letters and
    digits selects the first element with that tag name.  [None] means that
    the selector is outside this part. *)
Module Selectors.

Definition isTypeSelector (sel : string) : bool :=
  match sel with
  | String c rest => JS.isLower c && JS.allChars (fun c => JS.isLower c || JS.isDigit c) rest
  | EmptyString => false
  end.

Definition query (doc : list Element.t) (sel : string) : option SelectorResult :=
  if isTypeSelector sel then
    Some match list_find (fun e => JS.toLowerCase (Element.tagName e) = sel) doc with
         | Some (i, _) => Matched i
         | None => NoMatch
         end
  else None.

Definition conforms (querySelector : list Element.t -> string -> SelectorResult) : Prop :=
  forall doc sel r, query doc sel = Some r -> querySelector doc sel = r.

(** The reference model completed by "no match" outside its domain. *)
Definition orNoMatch (doc : list Element.t) (sel : string) : SelectorResult :=
  default NoMatch (query doc sel).

End Selectors.

(** ** ElementResolver *)

(** Containment of one string in another, as a statement. *)
Definition contains (s t : string) : Prop :=
  exists before after, s = before +:+ t +:+ after.

Definition hasTag (names : list string) (e : Element.t) : bool :=
  bool_decide (Element.tagName e ∈ names).

(** ['a, button, input, [onclick]'] *)
Definition textCandidate (e : Element.t) : bool :=
  hasTag ["A"; "BUTTON"; "INPUT"] e || Element.onclick e.

(** ['input, textarea, select'] *)
Definition formControl (e : Element.t) : bool :=
  hasTag ["INPUT"; "TEXTAREA"; "SELECT"] e.

(** [s?.toLowerCase().includes(target)] *)
Definition lowerIncludes (s : option string) (target : string) : bool :=
  match s with
  | Some s => JS.includes (JS.toLowerCase s) target
  | None => false
  end.

(** The three places where the text strategy looks for the target. *)
Definition textMatches (target : string) (e : Element.t) : bool :=
  lowerIncludes (Some (Element.textContent e)) target
  || lowerIncludes (Element.value e) target
  || lowerIncludes (Element.placeholder e) target.

(** The elements whose [value] is a number: [li], [progress] and [meter].
    On a number [el.value?.toLowerCase()] calls what is no function, and
    the call throws. *)
Definition numericValue (e : Element.t) : bool :=
  hasTag ["LI"; "PROGRESS"; "METER"] e.

(** What the callback of the text strategy comes to on one element.  The
    text is looked at first; the value is read only when the text does not
    contain the target, and the placeholder only when the value does not
    either. *)
Inductive Probe :=
  | Hit
  | Miss
  | Raises.

Definition probe (target : string) (e : Element.t) : Probe :=
  if lowerIncludes (Some (Element.textContent e)) target then Hit
  else if numericValue e then Raises
  else if lowerIncludes (Element.value e) target
          || lowerIncludes (Element.placeholder e) target then Hit
  else Miss.

(** What a search comes to. *)
Inductive Search :=
  | Found (position : nat)
  | Missing
  | Raised.

(** [Array.from(doc.querySelectorAll('a, button, input, [onclick]')).find(...)]:
    the candidates are visited in document order up to the first hit, and
    a callback that throws ends the search. *)
Fixpoint textSearch (target : string) (doc : list Element.t) (position : nat) : Search :=
  match doc with
  | [] => Missing
  | e :: rest =>
      if textCandidate e then
        match probe target e with
        | Hit => Found position
        | Raises => Raised
        | Miss => textSearch target rest (S position)
        end
      else textSearch target rest (S position)
  end.

(** [doc.getElementById]: the empty string names no element. *)
Definition getElementById (doc : list Element.t) (id : string) : option nat :=
  if String.eqb id EmptyString then None
  else fst <$> list_find (fun e => Element.id e = id) doc.

Definition orElse {A} (x : option A) (y : option A) : option A :=
  match x with
  | Some _ => x
  | None => y
  end.

Section Resolver.

(** [doc.querySelector], as the browser provides it. *)
Variable querySelector : list Element.t -> string -> SelectorResult.

Definition byId (doc : list Element.t) (target : string) : option nat :=
  getElementById doc target.

(** A selector that does not parse throws, and the throw is swallowed. *)
Definition bySelector (doc : list Element.t) (target : string) : option nat :=
  match querySelector doc target with
  | Matched i => if decide (i < length doc) then Some i else None
  | NoMatch | SyntaxError => None
  end.

(** The element that the text strategy finds; [None] when it finds none or
    throws. *)
Definition byText (doc : list Element.t) (target : string) : option nat :=
  match textSearch target doc 0 with
  | Found i => Some i
  | Missing | Raised => None
  end.

(** The first label whose text contains the target decides: its [htmlFor]
    element if there is one, else the first form control inside it. *)
Definition byLabel (doc : list Element.t) (target : string) : option nat :=
  match list_find (fun e => hasTag ["LABEL"] e
                            && lowerIncludes (Some (Element.textContent e)) target = true) doc with
  | Some (i, label) =>
      orElse (getElementById doc (Element.htmlFor label))
             ((fun k => S i + fst k) <$>
                list_find (fun e => formControl e = true)
                          (take (Element.descendants label) (drop (S i) doc)))
  | None => None
  end.

(** The element search of [executeIframeAction], on the lower-cased
    target: each strategy runs only when those before it found nothing, and
    an exception of the text strategy leaves the search before the labels
    are looked at. *)
Definition resolve (doc : list Element.t) (actionTarget : string) : Search :=
  let target := JS.toLowerCase actionTarget in
  match byId doc target with
  | Some i => Found i
  | None =>
      match bySelector doc target with
      | Some i => Found i
      | None =>
          match textSearch target doc 0 with
          | Found i => Found i
          | Raised => Raised
          | Missing =>
              match byLabel doc target with
              | Some i => Found i
              | None => Missing
              end
          end
      end
  end.

(** The element that the search finds, if it finds one. *)
Definition findElement (doc : list Element.t) (actionTarget : string) : option nat :=
  match resolve doc actionTarget with
  | Found i => Some i
  | Missing | Raised => None
  end.

(** ** ActionExecutor *)

Definition optionMatches (needle : string) (opt : SelectOption.t) : bool :=
  JS.includes (JS.toLowerCase (SelectOption.text opt)) needle
  || JS.includes (JS.toLowerCase (SelectOption.value opt)) needle.

(** The [select] case on a resolved element.  With no value in the action
    the first option visited makes the callback throw, and the throw ends
    the action with [false]. *)
Definition selectOption (i : nat) (element : Element.t) (action : Action.t)
    (p : Page.t) : bool * Page.t :=
  if String.eqb (Element.tagName element) "SELECT" then
    match Action.value action with
    | Some v =>
        match find (optionMatches (JS.toLowerCase v)) (Element.options element) with
        | Some opt =>
            (true, Page.dispatch i "change"
                     (Page.set_value i (Some (SelectOption.value opt)) p))
        | None => (true, p)
        end
    | None =>
        match Element.options element with
        | [] => (true, p)
        | _ :: _ => (false, p)
        end
    end
  else (true, p).

(** The [click] case on a resolved element. *)
Definition clickElement (i : nat) (p : Page.t) : bool * Page.t :=
  match Platform.click (Page.dom p) (Page.elements p) i with
  | Acts => (true, Page.dispatch i "click" p)
  | Ignored => (true, p)
  | Throws => (false, p)
  end.

(** The [type] case on a resolved element: the focus, the assignment, then
    the two events.  An exception ends the action with [false] and leaves
    what was done before it. *)
Definition typeValue (i : nat) (action : Action.t) (p : Page.t) : bool * Page.t :=
  let assign (p : Page.t) :=
    match Platform.setValue (Page.dom p) (Page.elements p) i (Action.value action) with
    | Stored doc =>
        let p := Page.set_elements doc p in
        let p := Page.dispatch i "input" p in
        (true, Page.dispatch i "change" p)
    | Refused => (false, p)
    end in
  match Platform.focus (Page.dom p) (Page.elements p) i (Page.scrollY p) with
  | Focused y => assign (Page.focus i y p)
  | Unfocused => assign p
  | FocusThrows => (false, p)
  end.

Definition executeIframeAction (iframe : option Frame) (action : Action.t)
    : bool * option Frame :=
  match iframe with
  | None => (false, iframe)
  | Some CrossOrigin => (false, iframe)
  | Some (SameOrigin p) =>
      let doc := Page.elements p in
      let element :=
        if JS.truthy (Action.target action)
        then resolve doc (JS.orEmpty (Action.target action))
        else Missing in
      match element with
      | Raised => (false, iframe)
      | Missing => (false, iframe)
      | Found i =>
          match doc !! i with
          | None => (false, iframe)
          | Some el =>
              if String.eqb (Action.type action) "click" then
                let (ok, p) := clickElement i p in (ok, Some (SameOrigin p))
              else if String.eqb (Action.type action) "type" then
                let (ok, p) := typeValue i action p in (ok, Some (SameOrigin p))
              else if String.eqb (Action.type action) "select" then
                let (ok, p) := selectOption i el action p in (ok, Some (SameOrigin p))
              else (false, iframe)
          end
      end
  end.

(** The four directions that [executeScroll] acts on; any other value
    leaves the window untouched. *)
Definition scrolls (direction : option string) : bool :=
  match direction with
  | Some d => bool_decide (d ∈ ["up"; "down"; "top"; "bottom"])
  | None => false
  end.

(** Touching the window of a cross-origin frame throws, and the throw is
    swallowed with [false]; a direction that is none of the four touches
    nothing. *)
Definition executeScroll (direction : option string) (iframe : option Frame)
    : bool * option Frame :=
  match iframe with
  | None => (false, iframe)
  | Some CrossOrigin => (negb (scrolls direction), iframe)
  | Some (SameOrigin p) =>
      let p :=
        match direction with
        | Some "up" => Page.scrollTo (Page.scrollY p - 300) p
        | Some "down" => Page.scrollTo (Page.scrollY p + 300) p
        | Some "top" => Page.scrollTo 0 p
        | Some "bottom" => Page.scrollTo (Page.scrollLimit p) p
        | _ => p
        end in
      (true, Some (SameOrigin p))
  end.

(** [new URL(input)], for the navigation an action can ask for. *)
Variable URL : string -> UrlResult.

Definition executeNavigate (url : option string) (w : World) : bool * World :=
  match browserCore w with
  | Some core =>
      (true, with_core (Some (if JS.truthy url then navigate URL (JS.orEmpty url) core
                              else core)) w)
  | None => (false, w)
  end.

Definition executeAction (action : Action.t) (w : World) : Outcome * World :=
  let type := Action.type action in
  if String.eqb type "scroll" then
    let (ok, f) := executeScroll (Action.direction action) (pageFrame w) in
    (Returned ok, with_frame f w)
  else if String.eqb type "navigate" then
    let (ok, w) := executeNavigate (Action.url action) w in (Returned ok, w)
  else if String.eqb type "click" || String.eqb type "type" || String.eqb type "select" then
    let (ok, f) := executeIframeAction (pageFrame w) action in
    (Returned ok, with_frame f w)
  else (Returned false, w).

End Resolver.

(** ** Batch execution *)

Section Batch.

(** The executor of one action; awaiting it may raise. *)
Variable exec : Action.t -> World -> Outcome * World.

(** What the page, the browser and the user make of the world while the
    agent pauses for the given number of milliseconds. *)
Variable during : Z -> World -> World.

Definition delay (ms : Z) (w : World) : World := during ms w.

Definition resultOf (action : Action.t) (o : Outcome) : ActionResult.t :=
  match o with
  | Returned result => ActionResult.mk action result None
  | Thrown message => ActionResult.mk action false (Some message)
  end.

(** The pause follows a returned action only: a throw leaves the [try]
    block before the pause is reached. *)
Definition pauseAfter (o : Outcome) (w : World) : World :=
  match o with
  | Returned _ => delay 500 w
  | Thrown _ => w
  end.

(** The [for ... of] loop. *)
Fixpoint runQueue (actions : list Action.t) (w : World) : list ActionResult.t * World :=
  match actions with
  | [] => ([], w)
  | action :: rest =>
      let (o, w) := exec action w in
      let (results, w) := runQueue rest (pauseAfter o w) in
      (resultOf action o :: results, w)
  end.

(** [None] is the [undefined] returned to a caller who finds the agent
    busy. *)
Definition executeActionsWith (actions : list Action.t) (w : World)
    : option (list ActionResult.t) * World :=
  if isRunning w then (None, w)
  else
    let w := with_running true w in
    let w := updateStatus "running" "Executing actions..." w in
    let (results, w) := runQueue actions w in
    let w := with_running false w in
    let w := updateStatus "idle" "Agent Ready" w in
    (Some results, w).

End Batch.

Definition executeActions (querySelector : list Element.t -> string -> SelectorResult)
    (URL : string -> UrlResult) (during : Z -> World -> World)
    : list Action.t -> World -> option (list ActionResult.t) * World :=
  executeActionsWith (executeAction querySelector URL) during.

(** ** TabRegistry: well-formed registries *)

Definition tabIds (s : BrowserCore) : list string := Tab.id <$> tabs s.

(** The ids are distinct and were issued by the counter, the histories are
    keyed by exactly the ids of the tabs, and the active id names a tab
    unless there is no tab at all. *)
Definition registry_ok (s : BrowserCore) : Prop :=
  NoDup (tabIds s) /\
  (forall tabId, tabId ∈ tabIds s ->
     exists n, tabId = tabName n /\ 1 <= n <= tabIdCounter s) /\
  dom (history s) = list_to_set (tabIds s) /\
  match tabIds s with
  | [] => activeTabId s = None
  | _ :: _ => exists a, activeTabId s = Some a /\ a ∈ tabIds s
  end.

(** The part of [registry_ok] that does not mention the active id. *)
Definition ids_ok (s : BrowserCore) : Prop :=
  NoDup (tabIds s) /\
  (forall tabId, tabId ∈ tabIds s ->
     exists n, tabId = tabName n /\ 1 <= n <= tabIdCounter s) /\
  dom (history s) = list_to_set (tabIds s).

(** What well-formedness depends on. *)
Definition shape (s : BrowserCore) : list string * gset string * option string * nat :=
  (tabIds s, dom (history s), activeTabId s, tabIdCounter s).

(** The history that [goBack], [goForward] and [updateNavigationButtons]
    look at. *)
Definition activeHistory (s : BrowserCore) : option History.t :=
  match getActiveTab s with
  | Some (_, activeTab) => history s !! Tab.id activeTab
  | None => None
  end.

(** The guards of [goBack] and [goForward]. *)
Definition canGoBack (s : BrowserCore) : bool :=
  match activeHistory s with
  | Some h => (0 <? History.index h)%Z
  | None => false
  end.

Definition canGoForward (s : BrowserCore) : bool :=
  match activeHistory s with
  | Some h => (History.index h <? Z.of_nat (length (History.stack h)) - 1)%Z
  | None => false
  end.

(** The two history buttons show what the guards say. *)
Definition buttons_ok (s : BrowserCore) : Prop :=
  Chrome.backDisabled (page s) = negb (canGoBack s) /\
  Chrome.forwardDisabled (page s) = negb (canGoForward s).

(** Two states agree on everything but the tab at one position, of which
    they keep the id, and the history under one id. *)
Definition sameElsewhere (i : nat) (tabId : string) (s s' : BrowserCore) : Prop :=
  length (tabs s') = length (tabs s) /\
  (forall j, j <> i -> tabs s' !! j = tabs s !! j) /\
  Tab.id <$> tabs s' !! i = Tab.id <$> tabs s !! i /\
  (forall k, k <> tabId -> history s' !! k = history s !! k) /\
  activeTabId s' = activeTabId s /\
  tabIdCounter s' = tabIdCounter s.

(** The tab that [goHome] leaves at the place of a tab. *)
Definition atHome (x : Tab.t) : Tab.t := Tab.mk (Tab.id x) "New Tab" None true.

(** ** CommandParser

    The patterns of [parseCommand] use literals compared without regard to
    case (flag [i]), alternatives, optional parts, greedy and lazy
    repetitions of a character class, and capturing groups.  The matcher
    follows the order in which a backtracking engine explores them: the
    left alternative before the right one, an optional part present before
    absent, a greedy repetition longest first and a lazy one shortest
    first; the first way that lets the rest of the pattern match wins. *)
Module Regex.

Inductive t :=
  | Lit (text : string)
  | Class (cls : ascii -> bool)
  | Alt (a b : t)
  | Seq (a b : t)
  | Opt (a : t)
  | Many1 (cls : ascii -> bool)
  | Lazy1 (cls : ascii -> bool)
  | Group (n : nat) (a : t).

(** The captures made so far, the latest first. *)
Definition Captures : Type := list (nat * string).

Definition Cont : Type := string -> Captures -> option Captures.

(** A literal at the start of the input, compared letter by letter after
    lower-casing; the result is what follows it. *)
Fixpoint stripLiteral (text s : string) : option string :=
  match text, s with
  | EmptyString, _ => Some s
  | String a text', String b s' =>
      if Ascii.eqb (JS.lowerChar a) (JS.lowerChar b) then stripLiteral text' s' else None
  | String _ _, EmptyString => None
  end.

Fixpoint many1 (cls : ascii -> bool) (s : string) (caps : Captures) (k : Cont)
    : option Captures :=
  match s with
  | String x s' =>
      if cls x then
        match many1 cls s' caps k with
        | Some r => Some r
        | None => k s' caps
        end
      else None
  | EmptyString => None
  end.

Fixpoint lazy1 (cls : ascii -> bool) (s : string) (caps : Captures) (k : Cont)
    : option Captures :=
  match s with
  | String x s' =>
      if cls x then
        match k s' caps with
        | Some r => Some r
        | None => lazy1 cls s' caps k
        end
      else None
  | EmptyString => None
  end.

(** What a group has consumed when the input went from [s] to its suffix
    [s']. *)
Definition consumed (s s' : string) : string :=
  String.substring 0 (String.length s - String.length s') s.

Fixpoint run (r : t) (s : string) (caps : Captures) (k : Cont) : option Captures :=
  match r with
  | Lit text =>
      match stripLiteral text s with
      | Some s' => k s' caps
      | None => None
      end
  | Class cls =>
      match s with
      | String x s' => if cls x then k s' caps else None
      | EmptyString => None
      end
  | Alt a b =>
      match run a s caps k with
      | Some r => Some r
      | None => run b s caps k
      end
  | Seq a b => run a s caps (fun s' caps' => run b s' caps' k)
  | Opt a =>
      match run a s caps k with
      | Some r => Some r
      | None => k s caps
      end
  | Many1 cls => many1 cls s caps k
  | Lazy1 cls => lazy1 cls s caps k
  | Group n a => run a s caps (fun s' caps' => k s' ((n, consumed s s') :: caps'))
  end.

(** The match at the start of the input. *)
Definition matchHere (r : t) (s : string) : option Captures :=
  run r s [] (fun _ caps => Some caps).

(** [String.prototype.match] with a pattern that is not global: the
    leftmost position at which the pattern matches. *)
Fixpoint search (r : t) (s : string) : option Captures :=
  match matchHere r s with
  | Some caps => Some caps
  | None =>
      match s with
      | String _ s' => search r s'
      | EmptyString => None
      end
  end.

(** [match[n]] *)
Fixpoint group (n : nat) (caps : Captures) : string :=
  match caps with
  | (m, x) :: rest => if Nat.eqb m n then x else group n rest
  | [] => EmptyString
  end.

(** [\s], [.] and the quote class of the patterns. *)
Definition space : ascii -> bool := JS.isWhiteSpace.
Definition dot (c : ascii) : bool :=
  negb ((JS.code c =? 10)%nat || (JS.code c =? 13)%nat).
Definition quote (c : ascii) : bool := (JS.code c =? 34)%nat || (JS.code c =? 39)%nat.

Definition optThe : t := Opt (Seq (Lit "the") (Many1 space)).

End Regex.

(** [/click\s+(?:on\s+)?(?:the\s+)?(.+)/i] *)
Definition clickPattern : Regex.t :=
  Regex.Seq (Regex.Lit "click")
    (Regex.Seq (Regex.Many1 Regex.space)
       (Regex.Seq (Regex.Opt (Regex.Seq (Regex.Lit "on") (Regex.Many1 Regex.space)))
          (Regex.Seq Regex.optThe (Regex.Group 1 (Regex.Many1 Regex.dot))))).

(** The tail shared by the type and select patterns:
    [\s+["']?(.+?)["']?\s+(?:a|b)\s+(?:the\s+)?(.+)] *)
Definition valueThenTarget (a b : string) : Regex.t :=
  Regex.Seq (Regex.Many1 Regex.space)
    (Regex.Seq (Regex.Opt (Regex.Class Regex.quote))
       (Regex.Seq (Regex.Group 1 (Regex.Lazy1 Regex.dot))
          (Regex.Seq (Regex.Opt (Regex.Class Regex.quote))
             (Regex.Seq (Regex.Many1 Regex.space)
                (Regex.Seq (Regex.Alt (Regex.Lit a) (Regex.Lit b))
                   (Regex.Seq (Regex.Many1 Regex.space)
                      (Regex.Seq Regex.optThe (Regex.Group 2 (Regex.Many1 Regex.dot))))))))).

(** [/(?:type|fill|enter)\s+["']?(.+?)["']?\s+(?:in|into)\s+(?:the\s+)?(.+)/i] *)
Definition typePattern : Regex.t :=
  Regex.Seq (Regex.Alt (Regex.Lit "type") (Regex.Alt (Regex.Lit "fill") (Regex.Lit "enter")))
    (valueThenTarget "in" "into").

(** [/(?:go to|navigate to|open)\s+(.+)/i] *)
Definition navigatePattern : Regex.t :=
  Regex.Seq (Regex.Alt (Regex.Lit "go to") (Regex.Alt (Regex.Lit "navigate to") (Regex.Lit "open")))
    (Regex.Seq (Regex.Many1 Regex.space) (Regex.Group 1 (Regex.Many1 Regex.dot))).

(** [/select\s+["']?(.+?)["']?\s+(?:from|in)\s+(?:the\s+)?(.+)/i] *)
Definition selectPattern : Regex.t :=
  Regex.Seq (Regex.Lit "select") (valueThenTarget "from" "in").

(** The direction of a scroll command: the first of the four words that
    occurs anywhere in the command, and down when none does. *)
Definition scrollDirection (lowerCommand : string) : string :=
  if JS.includes lowerCommand "up" then "up"
  else if JS.includes lowerCommand "down" then "down"
  else if JS.includes lowerCommand "top" then "top"
  else if JS.includes lowerCommand "bottom" then "bottom"
  else "down".

(** One rule of [parseCommand]: when the guard holds and the pattern
    matches, one action built from the captures. *)
Definition rule (guard : bool) (pattern : Regex.t) (command : string)
    (build : Regex.Captures -> Action.t) : list Action.t :=
  if guard then
    match Regex.search pattern command with
    | Some caps => [build caps]
    | None => []
    end
  else [].

Definition parseCommand (command : string) : list Action.t :=
  let lowerCommand := JS.toLowerCase command in
  let has := JS.includes lowerCommand in
  (rule (has "click") clickPattern command
     (fun m => Action.click (JS.trim (Regex.group 1 m)))
   ++ rule (has "type" || has "fill" || has "enter") typePattern command
        (fun m => Action.typeInto (JS.trim (Regex.group 1 m)) (JS.trim (Regex.group 2 m)))
   ++ (if has "scroll" then [Action.scroll (scrollDirection lowerCommand)] else [])
   ++ rule (has "go to" || has "navigate to" || has "open") navigatePattern command
        (fun m => Action.navigate (JS.trim (Regex.group 1 m)))
   ++ rule (has "select") selectPattern command
        (fun m => Action.select (JS.trim (Regex.group 1 m)) (JS.trim (Regex.group 2 m))))%list.

(** One string ends with another. *)
Definition isSuffix (s' s : string) : Prop := exists before, s = before +:+ s'.

(** Every capture is a piece of the text. *)
Definition capturedFrom (text : string) (caps : Regex.Captures) : Prop :=
  forall n x, (n, x) ∈ caps -> contains text x.

(** A field that comes from the command: a trimmed piece of it. *)
Definition fromCommand (command x : string) : Prop :=
  JS.trim x = x /\ contains command x.

(** The actions that [parseCommand] can build from a command. *)
Inductive parsedFrom (command : string) : Action.t -> Prop :=
  | parsed_click target :
      fromCommand command target -> parsedFrom command (Action.click target)
  | parsed_type value target :
      fromCommand command value -> fromCommand command target ->
      parsedFrom command (Action.typeInto value target)
  | parsed_scroll direction :
      direction ∈ ["up"; "down"; "top"; "bottom"] ->
      parsedFrom command (Action.scroll direction)
  | parsed_navigate url :
      fromCommand command url -> parsedFrom command (Action.navigate url)
  | parsed_select value target :
      fromCommand command value -> fromCommand command target ->
      parsedFrom command (Action.select value target).

(** The word that lets each kind of action through. *)
Definition keywordsOf (type : string) : list string :=
  if String.eqb type "click" then ["click"]
  else if String.eqb type "type" then ["type"; "fill"; "enter"]
  else if String.eqb type "scroll" then ["scroll"]
  else if String.eqb type "navigate" then ["go to"; "navigate to"; "open"]
  else if String.eqb type "select" then ["select"]
  else [].

(** All the words that [parseCommand] looks for. *)
Definition keywords : list string :=
  ["click"; "type"; "fill"; "enter"; "scroll"; "go to"; "navigate to"; "open"; "select"].

(** The text begins with a word, in any case, followed by white space. *)
Definition beginsWithWord (word text : string) : bool :=
  match Regex.stripLiteral word text with
  | Some (String c _) => Regex.space c
  | _ => false
  end.

(** A name to click on: one line of text that begins with a character other
    than white space. *)
Definition clickable (name : string) : Prop :=
  JS.allChars Regex.dot name = true /\
  match name with
  | String c _ => Regex.space c = false
  | EmptyString => False
  end.

(** A command in which no keyword but "click" occurs. *)
Definition onlyClick (command : string) : Prop :=
  forall word, word ∈ keywords -> word <> "click" ->
    JS.includes (JS.toLowerCase command) word = false.

(** ** SettingsStore

    [localStorage] holds strings under string keys; [getItem] answers
    [null] for a key that is not there, and [setItem] turns a boolean into
    ["true"] or ["false"]. *)
Module Storage.
Definition getItem (key : string) (store : gmap string string) : option string :=
  store !! key.
Definition setItem (key value : string) (store : gmap string string)
    : gmap string string :=
  <[key := value]> store.
Definition ofBool (b : bool) : string := if b then "true" else "false".
End Storage.

(** [v || d] *)
Definition orDefault (v : option string) (d : string) : string :=
  if JS.truthy v then JS.orEmpty v else d.

(** The fields of the settings dialog, and the provider selector of the
    side panel.  A field that the document lacks is [None]; a field that is
    there shows the value last assigned to it. *)
Module Form.
Record t := mk {
  geminiKey : option string;
  geminiModel : option string;
  openaiKey : option string;
  openaiModel : option string;
  claudeKey : option string;
  claudeModel : option string;
  ollamaEndpoint : option string;
  ollamaModel : option string;
  darkMode : option bool;
  autoSummarize : option bool;
  defaultProvider : option string;
  modelSelect : option string }.

(** [if (field) field.value = v] *)
Definition assign {A} (field : option A) (v : A) : option A := (fun _ => v) <$> field.

Definition set_modelSelect (v : option string) (f : t) : t :=
  mk (geminiKey f) (geminiModel f) (openaiKey f) (openaiModel f) (claudeKey f)
     (claudeModel f) (ollamaEndpoint f) (ollamaModel f) (darkMode f) (autoSummarize f)
     (defaultProvider f) v.
End Form.

Module SettingsManager.

(** [modalDisplay] is the [display] style of the element [settings-modal],
    if the document has one; [modal] says that [this.modal] is bound to
    it; [toasts] counts the confirmations shown.  The listeners that
    [bindEvents] registers call the functions below and are not part of
    the state. *)
Record t := mk {
  storage : gmap string string;
  form : Form.t;
  modalDisplay : option string;
  modal : bool;
  initialized : bool;
  toasts : nat }.

Definition with_storage (st : gmap string string) (s : t) : t :=
  mk st (form s) (modalDisplay s) (modal s) (initialized s) (toasts s).
Definition with_form (f : Form.t) (s : t) : t :=
  mk (storage s) f (modalDisplay s) (modal s) (initialized s) (toasts s).
Definition with_display (d : string) (s : t) : t :=
  mk (storage s) (form s) (Form.assign (modalDisplay s) d) (modal s) (initialized s) (toasts s).

Definition shown (store : gmap string string) (f : Form.t) : Form.t :=
  let item key := Storage.getItem key store in
  Form.mk
    (Form.assign (Form.geminiKey f) (orDefault (item "gemini_api_key") EmptyString))
    (Form.assign (Form.geminiModel f) (orDefault (item "gemini_model") "gemini-2.0-flash"))
    (Form.assign (Form.openaiKey f) (orDefault (item "openai_api_key") EmptyString))
    (Form.assign (Form.openaiModel f) (orDefault (item "openai_model") "gpt-4.1"))
    (Form.assign (Form.claudeKey f) (orDefault (item "claude_api_key") EmptyString))
    (Form.assign (Form.claudeModel f)
       (orDefault (item "claude_model") "claude-sonnet-4-20250514"))
    (Form.assign (Form.ollamaEndpoint f)
       (orDefault (item "ollama_endpoint") "http://localhost:11434"))
    (Form.assign (Form.ollamaModel f) (orDefault (item "ollama_model") "llama3.2"))
    (Form.assign (Form.darkMode f)
       (negb (bool_decide (item "dark_mode" = Some "false"))))
    (Form.assign (Form.autoSummarize f) (bool_decide (item "auto_summarize" = Some "true")))
    (Form.assign (Form.defaultProvider f) (orDefault (item "default_provider") "gemini"))
    (Form.modelSelect f).

Definition loadSettings (s : t) : t := with_form (shown (storage s) (form s)) s.

Definition init (s : t) : t :=
  if initialized s then s
  else
    let s1 := mk (storage s) (form s) (modalDisplay s)
                 (bool_decide (is_Some (modalDisplay s))) (initialized s) (toasts s) in
    let s2 := loadSettings s1 in
    mk (storage s2) (form s2) (modalDisplay s2) (modal s2) true (toasts s2).

Definition open (s : t) : t :=
  if modal s then loadSettings (with_display "flex" s) else s.

Definition close (s : t) : t :=
  if modal s then with_display "none" s else s.

Definition showSaveConfirmation (s : t) : t :=
  mk (storage s) (form s) (modalDisplay s) (modal s) (initialized s) (S (toasts s)).

Definition save (s : t) : t :=
  let f := form s in
  let store := storage s in
  let geminiKey := JS.orEmpty (Form.geminiKey f) in
  let geminiModel := JS.orEmpty (Form.geminiModel f) in
  let store := Storage.setItem "gemini_api_key" geminiKey store in
  let store := Storage.setItem "gemini_model" geminiModel store in
  let openaiKey := JS.orEmpty (Form.openaiKey f) in
  let openaiModel := JS.orEmpty (Form.openaiModel f) in
  let store := Storage.setItem "openai_api_key" openaiKey store in
  let store := Storage.setItem "openai_model" openaiModel store in
  let claudeKey := JS.orEmpty (Form.claudeKey f) in
  let claudeModel := JS.orEmpty (Form.claudeModel f) in
  let store := Storage.setItem "claude_api_key" claudeKey store in
  let store := Storage.setItem "claude_model" claudeModel store in
  let ollamaEndpoint := JS.orEmpty (Form.ollamaEndpoint f) in
  let ollamaModel := JS.orEmpty (Form.ollamaModel f) in
  let store := Storage.setItem "ollama_endpoint" ollamaEndpoint store in
  let store := Storage.setItem "ollama_model" ollamaModel store in
  let darkMode := default true (Form.darkMode f) in
  let autoSummarize := default false (Form.autoSummarize f) in
  let defaultProvider := orDefault (Form.defaultProvider f) "gemini" in
  let store := Storage.setItem "dark_mode" (Storage.ofBool darkMode) store in
  let store := Storage.setItem "auto_summarize" (Storage.ofBool autoSummarize) store in
  let store := Storage.setItem "default_provider" defaultProvider store in
  let f := Form.set_modelSelect (Form.assign (Form.modelSelect f) defaultProvider) f in
  close (showSaveConfirmation (with_form f (with_storage store s))).

(** The keys that [save] writes. *)
Definition savedKeys : list string :=
  ["gemini_api_key"; "gemini_model"; "openai_api_key"; "openai_model";
   "claude_api_key"; "claude_model"; "ollama_endpoint"; "ollama_model";
   "dark_mode"; "auto_summarize"; "default_provider"].

Definition getDefaultProvider (store : gmap string string) : string :=
  orDefault (Storage.getItem "default_provider" store) "gemini".

Definition isProviderConfigured (providerName : string) (store : gmap string string) : bool :=
  if String.eqb providerName "ollama" then true
  else JS.truthy (Storage.getItem (providerName +:+ "_api_key") store).

End SettingsManager.

(** ** LLM providers: what they read from the store *)
Module Provider.

Inductive t := gemini | openai | claude | ollama.

Definition name (p : t) : string :=
  match p with
  | gemini => "gemini"
  | openai => "openai"
  | claude => "claude"
  | ollama => "ollama"
  end.

Definition defaultModel (p : t) : string :=
  match p with
  | gemini => "gemini-2.0-flash"
  | openai => "gpt-4.1"
  | claude => "claude-sonnet-4-20250514"
  | ollama => "llama3.2"
  end.

Definition getApiKey (p : t) (store : gmap string string) : string :=
  orDefault (Storage.getItem (name p +:+ "_api_key") store) EmptyString.

Definition getModel (p : t) (store : gmap string string) : string :=
  orDefault (Storage.getItem (name p +:+ "_model") store) (defaultModel p).

Definition isConfigured (p : t) (store : gmap string string) : bool :=
  negb (String.eqb (getApiKey p store) EmptyString).

Definition getEndpoint (store : gmap string string) : string :=
  orDefault (Storage.getItem "ollama_endpoint" store) "http://localhost:11434".

(** The part of a request that comes from the store: where it goes, the
    model it names and the header that carries the key. *)
Record Fetch := mkFetch {
  url : string;
  model : string;
  credential : option (string * string) }.

(** [sendMessage] up to the request: the three hosted providers throw when
    the key is missing, which is [None] here; Ollama has no key to check. *)
Definition sendMessage (p : t) (store : gmap string string) : option Fetch :=
  match p with
  | gemini =>
      let apiKey := getApiKey p store in
      if String.eqb apiKey EmptyString then None
      else
        let model := getModel p store in
        Some (mkFetch ("https://generativelanguage.googleapis.com/v1beta/models" +:+ "/"
                        +:+ model +:+ ":generateContent?key=" +:+ apiKey)
                      model None)
  | openai =>
      let apiKey := getApiKey p store in
      if String.eqb apiKey EmptyString then None
      else Some (mkFetch "https://api.openai.com/v1/chat/completions" (getModel p store)
                         (Some ("Authorization", "Bearer " +:+ apiKey)))
  | claude =>
      let apiKey := getApiKey p store in
      if String.eqb apiKey EmptyString then None
      else Some (mkFetch "https://api.anthropic.com/v1/messages" (getModel p store)
                         (Some ("x-api-key", apiKey)))
  | ollama =>
      let endpoint := getEndpoint store in
      Some (mkFetch (endpoint +:+ "/api/chat") (getModel p store) None)
  end.

End Provider.

(** The fields of the dialog that belong to a provider. *)
Definition keyField (p : Provider.t) (f : Form.t) : option string :=
  match p with
  | Provider.gemini => Form.geminiKey f
  | Provider.openai => Form.openaiKey f
  | Provider.claude => Form.claudeKey f
  | Provider.ollama => None
  end.

Definition modelField (p : Provider.t) (f : Form.t) : option string :=
  match p with
  | Provider.gemini => Form.geminiModel f
  | Provider.openai => Form.openaiModel f
  | Provider.claude => Form.claudeModel f
  | Provider.ollama => Form.ollamaModel f
  end.

(** What reaches the side panel instead of an answer. *)
Inductive SendError :=
  | NotConfigured (provider : string)
  | KeyMissing (p : Provider.t)
  | NotAProvider (name : string).

Module LLMProviders.

(** [this.providers[name]]: the registry is an object literal, so a name
    that it does not hold itself is looked up in [Object.prototype], whose
    properties are all truthy. *)
Inductive Lookup :=
  | Own (p : Provider.t)
  | Inherited (name : string)
  | Undefined.

Definition objectPrototype : list string :=
  ["constructor"; "hasOwnProperty"; "isPrototypeOf"; "propertyIsEnumerable";
   "toLocaleString"; "toString"; "valueOf"; "__proto__";
   "__defineGetter__"; "__defineSetter__"; "__lookupGetter__"; "__lookupSetter__"].

Definition providers (name : string) : Lookup :=
  if String.eqb name "gemini" then Own Provider.gemini
  else if String.eqb name "openai" then Own Provider.openai
  else if String.eqb name "claude" then Own Provider.claude
  else if String.eqb name "ollama" then Own Provider.ollama
  else if bool_decide (name ∈ objectPrototype) then Inherited name
  else Undefined.

(** [this.providers[name] || this.providers.gemini] *)
Definition getProvider (name : string) : Lookup :=
  match providers name with
  | Undefined => Own Provider.gemini
  | found => found
  end.

(** What is inherited from [Object.prototype] has no [sendMessage]. *)
Definition sendMessage (providerName : string) (store : gmap string string)
    : SendError + Provider.Fetch :=
  match getProvider providerName with
  | Own p =>
      match Provider.sendMessage p store with
      | Some request => inr request
      | None => inl (KeyMissing p)
      end
  | Inherited name => inl (NotAProvider name)
  | Undefined => inl (NotAProvider providerName)
  end.

End LLMProviders.

Module SidePanel.

(** [sendMessage] from the choice of the provider to the request: the
    value of the selector, or Gemini; the check by the settings manager,
    which an absent manager fails; then the provider.  The messages that
    are added to the panel on the way are left out. *)
Definition sendMessage (modelSelect : option string) (settingsManager : bool)
    (store : gmap string string) : SendError + Provider.Fetch :=
  let provider := orDefault modelSelect "gemini" in
  if negb (settingsManager && SettingsManager.isProviderConfigured provider store)
  then inl (NotConfigured provider)
  else LLMProviders.sendMessage provider store.

End SidePanel.

(** ** Start-up (app.js) *)
Module App.

(** What [applySettings] leaves behind: the class [light-mode] on the
    body, the provider selector, and the timers armed for the
    configuration hint. *)
Record t := mk {
  lightMode : bool;
  modelSelect : option string;
  hintTimers : nat }.

Definition hasKey (store : gmap string string) : bool :=
  existsb (fun p => JS.truthy (Storage.getItem (p +:+ "_api_key") store))
          ["gemini"; "openai"; "claude"].

Definition checkProviderConfiguration (store : gmap string string) (a : t) : t :=
  if negb (hasKey store) then mk (lightMode a) (modelSelect a) (S (hintTimers a)) else a.

Definition applySettings (store : gmap string string) (a : t) : t :=
  let darkMode := negb (bool_decide (Storage.getItem "dark_mode" store = Some "false")) in
  let a := if negb darkMode then mk true (modelSelect a) (hintTimers a) else a in
  let defaultProvider := orDefault (Storage.getItem "default_provider" store) "gemini" in
  let a := mk (lightMode a) (Form.assign (modelSelect a) defaultProvider) (hintTimers a) in
  checkProviderConfiguration store a.

End App.

(** ** Teach mode: recording and workflows

    The part of [SidePanel] that records actions and keeps workflows.  The
    entry [workflows] of the store holds JSON text; it is modelled by the
    list that the text stands for, and is [None] while there is no
    entry. *)
Module Recorded.
Record t := mk {
  type : string;
  target : string;
  value : option string;
  timestamp : Z }.
End Recorded.

Module Workflow.
Record t := mk {
  id : Z;
  name : string;
  actions : list Recorded.t;
  createdAt : string }.
End Workflow.

(** The target of a click or input event, with the answer of
    [closest('#page-frame')]. *)
Module Target.
Record t := mk {
  inPageFrame : bool;
  id : string;
  className : string;
  tagName : string;
  value : option string }.
End Target.

(** The messages that the recorder leaves in the teach panel. *)
Inductive Note :=
  | RecordingStarted
  | WorkflowSaved (count : nat)
  | Playing (name : string) (count : nat).

(** [Array.prototype.join] *)
Fixpoint join (sep : string) (parts : list string) : string :=
  match parts with
  | [] => EmptyString
  | [x] => x
  | x :: rest => x +:+ sep +:+ join sep rest
  end.

Module Recorder.

(** [listeners] are the capturing listeners that the recorder has on the
    document, each with the identity of its function; [bound] counts the
    functions that [bind] has made, every one of them a new function.
    [recordBtn] tells whether the record button, if there is one, is in its
    recording dress; [teachMessages] and [savedWorkflows] are the two
    containers, if the document has them, the latter with the name and the
    id of every workflow shown.  [ticks] counts the readings of the
    clock. *)
Record t := mk {
  isRecording : bool;
  recordedActions : list Recorded.t;
  listeners : list (string * nat);
  bound : nat;
  stored : option (list Workflow.t);
  recordBtn : option bool;
  teachMessages : option (list Note);
  savedWorkflows : option (list (string * Z));
  ticks : nat }.

Definition with_recording (b : bool) (s : t) : t :=
  mk b (recordedActions s) (listeners s) (bound s) (stored s) (recordBtn s)
     (teachMessages s) (savedWorkflows s) (ticks s).
Definition with_actions (a : list Recorded.t) (s : t) : t :=
  mk (isRecording s) a (listeners s) (bound s) (stored s) (recordBtn s)
     (teachMessages s) (savedWorkflows s) (ticks s).
Definition with_listeners (l : list (string * nat)) (s : t) : t :=
  mk (isRecording s) (recordedActions s) l (bound s) (stored s) (recordBtn s)
     (teachMessages s) (savedWorkflows s) (ticks s).
Definition with_stored (w : list Workflow.t) (s : t) : t :=
  mk (isRecording s) (recordedActions s) (listeners s) (bound s) (Some w) (recordBtn s)
     (teachMessages s) (savedWorkflows s) (ticks s).
Definition with_button (b : bool) (s : t) : t :=
  mk (isRecording s) (recordedActions s) (listeners s) (bound s) (stored s)
     (Form.assign (recordBtn s) b) (teachMessages s) (savedWorkflows s) (ticks s).
Definition with_messages (m : option (list Note)) (s : t) : t :=
  mk (isRecording s) (recordedActions s) (listeners s) (bound s) (stored s) (recordBtn s)
     m (savedWorkflows s) (ticks s).
Definition with_saved (shown : option (list (string * Z))) (s : t) : t :=
  mk (isRecording s) (recordedActions s) (listeners s) (bound s) (stored s) (recordBtn s)
     (teachMessages s) shown (ticks s).

(** [container?.appendChild(notification)] *)
Definition notify (n : Note) (s : t) : t :=
  with_messages ((fun notes => notes ++ [n])%list <$> teachMessages s) s.

(** [f.bind(this)]: a function that did not exist before. *)
Definition bind (s : t) : nat * t :=
  (bound s,
   mk (isRecording s) (recordedActions s) (listeners s) (S (bound s)) (stored s)
      (recordBtn s) (teachMessages s) (savedWorkflows s) (ticks s)).

(** [document.addEventListener(type, f, true)]: a listener that is
    registered already is not registered again. *)
Definition addEventListener (type : string) (f : nat) (s : t) : t :=
  if bool_decide ((type, f) ∈ listeners s) then s
  else with_listeners (listeners s ++ [(type, f)])%list s.

(** [document.removeEventListener(type, f, true)] *)
Definition removeEventListener (type : string) (f : nat) (s : t) : t :=
  with_listeners (filter (fun l => l <> (type, f)) (listeners s)) s.

(** [JSON.parse(localStorage.getItem('workflows') || '[]')] *)
Definition workflows (s : t) : list Workflow.t := default [] (stored s).

Definition getElementSelector (element : Target.t) : string :=
  if negb (String.eqb (Target.id element) EmptyString) then "#" +:+ Target.id element
  else if negb (String.eqb (Target.className element) EmptyString)
       then "." +:+ join "." (JS.split " " (Target.className element))
       else JS.toLowerCase (Target.tagName element).

Definition renderWorkflows (s : t) : t :=
  match savedWorkflows s with
  | None => s
  | Some _ =>
      with_saved (Some ((fun w => (Workflow.name w, Workflow.id w)) <$> workflows s)) s
  end.

Definition playWorkflow (id : Z) (s : t) : t :=
  match find (fun w => bool_decide (Workflow.id w = id)) (workflows s) with
  | None => s
  | Some workflow =>
      notify (Playing (Workflow.name workflow) (length (Workflow.actions workflow))) s
  end.

Definition deleteWorkflow (id : Z) (s : t) : t :=
  renderWorkflows
    (with_stored (filter (fun w => Workflow.id w <> id) (workflows s)) s).

Section Clock.

(** [Date.now()] at its n-th reading, and [toISOString]. *)
Variable now : nat -> Z.
Variable toISOString : Z -> string.

Definition tick (s : t) : Z * t :=
  (now (ticks s),
   mk (isRecording s) (recordedActions s) (listeners s) (bound s) (stored s)
      (recordBtn s) (teachMessages s) (savedWorkflows s) (S (ticks s))).

Definition recordClick (e : Target.t) (s : t) : t :=
  if Target.inPageFrame e then
    let (timestamp, s) := tick s in
    with_actions
      (recordedActions s ++ [Recorded.mk "click" (getElementSelector e) None timestamp])%list
      s
  else s.

Definition recordInput (e : Target.t) (s : t) : t :=
  if Target.inPageFrame e then
    let (timestamp, s) := tick s in
    with_actions
      (recordedActions s
         ++ [Recorded.mk "input" (getElementSelector e) (Target.value e) timestamp])%list
      s
  else s.

Definition saveWorkflow (s : t) : t :=
  let workflows := workflows s in
  let (id, s) := tick s in
  let (created, s) := tick s in
  let workflow :=
    Workflow.mk id ("Workflow " +:+ pretty (length workflows + 1)) (recordedActions s)
                (toISOString created) in
  let s := with_stored (workflows ++ [workflow])%list s in
  let s := renderWorkflows s in
  notify (WorkflowSaved (length (recordedActions s))) s.

Definition startRecording (s : t) : t :=
  let s := with_actions [] s in
  let (f, s) := bind s in
  let s := addEventListener "click" f s in
  let (g, s) := bind s in
  let s := addEventListener "input" g s in
  notify RecordingStarted s.

(** [document.getElementById('recording-notification')?.remove()] *)
Fixpoint removeFirst (notes : list Note) : list Note :=
  match notes with
  | [] => []
  | RecordingStarted :: rest => rest
  | n :: rest => n :: removeFirst rest
  end.

Definition stopRecording (s : t) : t :=
  let (f, s) := bind s in
  let s := removeEventListener "click" f s in
  let (g, s) := bind s in
  let s := removeEventListener "input" g s in
  let s := with_messages (removeFirst <$> teachMessages s) s in
  if (0 <? length (recordedActions s))%nat then saveWorkflow s else s.

Definition toggleRecording (s : t) : t :=
  let s' :=
    if isRecording s then with_button false (stopRecording s)
    else with_button true (startRecording s) in
  with_recording (negb (isRecording s)) s'.

(** An event of a type on the document: the listeners of that type run in
    the order in which they were registered.  Every click listener of the
    recorder is a bound [recordClick], every input listener a bound
    [recordInput]. *)
Definition handle (type : string) (e : Target.t) (s : t) : t :=
  if String.eqb type "click" then recordClick e s
  else if String.eqb type "input" then recordInput e s
  else s.

Definition dispatchEvent (type : string) (e : Target.t) (s : t) : t :=
  fold_left (fun s l => if String.eqb (fst l) type then handle type e s else s)
            (listeners s) s.

(** What a user can do to the recorder, and runs of it. *)
Inductive Request :=
  | Toggle
  | Event (type : string) (e : Target.t)
  | Delete (id : Z)
  | Play (id : Z).

Definition serve (s : t) (r : Request) : t :=
  match r with
  | Toggle => toggleRecording s
  | Event type e => dispatchEvent type e s
  | Delete id => deleteWorkflow id s
  | Play id => playWorkflow id s
  end.

Definition run (rs : list Request) (s : t) : t := fold_left serve rs s.

End Clock.

(** A side panel as its constructor leaves it, in a document and with a
    store, once [renderWorkflows] has run. *)
Definition fresh (stored : option (list Workflow.t)) (recordBtn : option bool)
    (teachMessages : option (list Note)) (container : bool) (ticks : nat) : t :=
  renderWorkflows
    (mk false [] [] 0 stored recordBtn teachMessages
        (if container then Some [] else None) ticks).

End Recorder.

(** The number of listeners that the recorder has for a type of event. *)
Definition listening (type : string) (s : Recorder.t) : nat :=
  length (filter (fun l => l.1 = type) (Recorder.listeners s)).

(** The number of times the record button was pressed. *)
Fixpoint toggles (rs : list Recorder.Request) : nat :=
  match rs with
  | [] => 0
  | Recorder.Toggle :: rest => S (toggles rest)
  | _ :: rest => toggles rest
  end.

(** A recorded action without its time stamp. *)
Definition outline (a : Recorded.t) : string * string * option string :=
  (Recorded.type a, Recorded.target a, Recorded.value a).

(** What [k] listeners of each type make of an event. *)
Definition recordedBy (k : nat) (type : string) (e : Target.t)
    : list (string * string * option string) :=
  if Target.inPageFrame e then
    if String.eqb type "click"
    then replicate k ("click", Recorder.getElementSelector e, None)
    else if String.eqb type "input"
         then replicate k ("input", Recorder.getElementSelector e, Target.value e)
         else []
  else [].

(** The listeners are bound functions of the recorder. *)
Definition listeners_ok (s : Recorder.t) : Prop :=
  forall type f, (type, f) ∈ Recorder.listeners s ->
    f < Recorder.bound s /\ (type = "click" \/ type = "input").

(** The container of the saved workflows shows what is stored. *)
Definition shown_ok (s : Recorder.t) : Prop :=
  forall shown, Recorder.savedWorkflows s = Some shown ->
    shown = (fun w => (Workflow.name w, Workflow.id w)) <$> Recorder.workflows s.

(** Two states of the recorder differ in the recorded actions and in the
    clock at most. *)
Definition recordsOnly (s s' : Recorder.t) : Prop :=
  Recorder.isRecording s' = Recorder.isRecording s /\
  Recorder.listeners s' = Recorder.listeners s /\
  Recorder.bound s' = Recorder.bound s /\
  Recorder.stored s' = Recorder.stored s /\
  Recorder.recordBtn s' = Recorder.recordBtn s /\
  Recorder.teachMessages s' = Recorder.teachMessages s /\
  Recorder.savedWorkflows s' = Recorder.savedWorkflows s.

(** The names [Workflow 1], ..., [Workflow n]. *)
Definition numbered (n : nat) : list string :=
  (fun i => "Workflow " +:+ pretty i) <$> seq 1 n.

(** A run in which no workflow is deleted. *)
Definition keepsAll (rs : list Recorder.Request) : Prop :=
  forall id, Recorder.Delete id ∉ rs.

(** What holds of the recorder once the record button has been pressed [n]
    times: its listeners are bound functions of its own, there is one
    click listener and one input listener for every recording started, and
    it is recording after an odd number of presses. *)
Definition recorder_ok (n : nat) (s : Recorder.t) : Prop :=
  listeners_ok s /\
  listening "click" s = Nat.div2 (S n) /\
  listening "input" s = Nat.div2 (S n) /\
  Recorder.isRecording s = Nat.odd n.

(** The workflows are named after their places. *)
Definition names_ok (s : Recorder.t) : Prop :=
  Workflow.name <$> Recorder.workflows s = numbered (length (Recorder.workflows s)).

(** A string with every occurrence of one character replaced by another. *)
Fixpoint replaceChar (a b : ascii) (s : string) : string :=
  match s with
  | EmptyString => EmptyString
  | String c s' => String (if Ascii.eqb c a then b else c) (replaceChar a b s')
  end.

(** ** Keyboard shortcuts (app.js) *)
Module KeyEvent.
Record t := mk {
  key : string;
  ctrlKey : bool;
  metaKey : bool;
  shiftKey : bool;
  altKey : bool }.
End KeyEvent.

(** The side panel as [toggle], [open] and [close] see it: [panel] says
    that [this.panel] is bound to an element, [openClass] that the element
    bears the class [open]. *)
Module PanelView.
Record t := mk {
  panel : bool;
  isOpen : bool;
  openClass : bool }.
End PanelView.

Module Desk.

(** What the shortcuts act on: [window.browserCore] and
    [window.sidePanel], if they are there, the element that has the focus,
    if it is one of the address bar (which may be missing) and the chat
    input (likewise), and whether the text of the address bar is
    selected. *)
Inductive Focus := AddressBar | ChatInput | Elsewhere.

Record t := mk {
  browserCore : option BrowserCore;
  sidePanel : option PanelView.t;
  urlInput : bool;
  chatInput : bool;
  focus : Focus;
  urlSelected : bool }.

Definition with_core (c : option BrowserCore) (d : t) : t :=
  mk c (sidePanel d) (urlInput d) (chatInput d) (focus d) (urlSelected d).
Definition with_panel (p : option PanelView.t) (d : t) : t :=
  mk (browserCore d) p (urlInput d) (chatInput d) (focus d) (urlSelected d).
Definition with_focus (f : Focus) (d : t) : t :=
  mk (browserCore d) (sidePanel d) (urlInput d) (chatInput d) f (urlSelected d).
Definition with_selected (b : bool) (d : t) : t :=
  mk (browserCore d) (sidePanel d) (urlInput d) (chatInput d) (focus d) b.

(** [SidePanel.open]: [document.getElementById('chat-input')?.focus()] *)
Definition openPanel (v : PanelView.t) (d : t) : t :=
  if PanelView.panel v then
    let d := with_panel (Some (PanelView.mk (PanelView.panel v) true true)) d in
    if chatInput d then with_focus ChatInput d else d
  else d.

(** [SidePanel.close] *)
Definition closePanel (v : PanelView.t) (d : t) : t :=
  if PanelView.panel v then
    with_panel (Some (PanelView.mk (PanelView.panel v) false false)) d
  else d.

(** [SidePanel.toggle] *)
Definition toggle (v : PanelView.t) (d : t) : t :=
  if PanelView.isOpen v then closePanel v d else openPanel v d.

Section Keys.

Variable URL : string -> UrlResult.

(** [window.browserCore?.f()] *)
Definition onCore (f : BrowserCore -> BrowserCore) (d : t) : t :=
  match browserCore d with
  | Some core => with_core (Some (f core)) d
  | None => d
  end.

(** The listener for [keydown]: seven tests, one after the other, each
    with [preventDefault] when it passes.  The result tells whether the
    default was prevented. *)
Definition keydown (e : KeyEvent.t) (d : t) : bool * t :=
  let ctrl := KeyEvent.ctrlKey e || KeyEvent.metaKey e in
  let key := KeyEvent.key e in
  let prevented := false in
  let (prevented, d) :=
    if ctrl && String.eqb key "l" then
      (true, if urlInput d then with_selected true (with_focus AddressBar d) else d)
    else (prevented, d) in
  let (prevented, d) :=
    if ctrl && String.eqb key "t" then
      (true, onCore (fun core => snd (createNewTab URL None core)) d)
    else (prevented, d) in
  let (prevented, d) :=
    if ctrl && String.eqb key "w" then
      (true,
       onCore (fun core =>
                 match getActiveTab core with
                 | Some (_, activeTab) => closeTab URL (Tab.id activeTab) core
                 | None => core
                 end) d)
    else (prevented, d) in
  let (prevented, d) :=
    if ctrl && KeyEvent.shiftKey e && String.eqb key "A" then
      (true, match sidePanel d with Some v => toggle v d | None => d end)
    else (prevented, d) in
  let (prevented, d) :=
    if String.eqb key "F5" || (ctrl && String.eqb key "r") then (true, onCore reload d)
    else (prevented, d) in
  let (prevented, d) :=
    if KeyEvent.altKey e && String.eqb key "ArrowLeft" then (true, onCore goBack d)
    else (prevented, d) in
  let (prevented, d) :=
    if KeyEvent.altKey e && String.eqb key "ArrowRight" then (true, onCore goForward d)
    else (prevented, d) in
  (prevented, d).

Definition keydowns (es : list KeyEvent.t) (d : t) : t :=
  fold_left (fun d e => snd (keydown e d)) es d.

End Keys.

End Desk.

(** The shortcuts, as a table. *)
Inductive Shortcut :=
  | FocusAddressBar
  | NewTabKey
  | CloseTabKey
  | TogglePanel
  | ReloadKey
  | BackKey
  | ForwardKey.

Definition shortcutOf (e : KeyEvent.t) : option Shortcut :=
  let ctrl := KeyEvent.ctrlKey e || KeyEvent.metaKey e in
  let key := KeyEvent.key e in
  if String.eqb key "F5" then Some ReloadKey
  else if ctrl && String.eqb key "l" then Some FocusAddressBar
  else if ctrl && String.eqb key "t" then Some NewTabKey
  else if ctrl && String.eqb key "w" then Some CloseTabKey
  else if ctrl && String.eqb key "r" then Some ReloadKey
  else if ctrl && KeyEvent.shiftKey e && String.eqb key "A" then Some TogglePanel
  else if KeyEvent.altKey e && String.eqb key "ArrowLeft" then Some BackKey
  else if KeyEvent.altKey e && String.eqb key "ArrowRight" then Some ForwardKey
  else None.

(** The request that a shortcut makes of the tab registry. *)
Definition requestOf (c : Shortcut) (core : BrowserCore) : option Request :=
  match c with
  | NewTabKey => Some (NewTab None)
  | CloseTabKey =>
      match getActiveTab core with
      | Some (_, activeTab) => Some (CloseTab (Tab.id activeTab))
      | None => None
      end
  | ReloadKey => Some Reload
  | BackKey => Some GoBack
  | ForwardKey => Some GoForward
  | FocusAddressBar | TogglePanel => None
  end.

(** What a key event does to the tab registry. *)
Definition keyed (URL : string -> UrlResult) (e : KeyEvent.t) (core : BrowserCore)
    : BrowserCore :=
  match shortcutOf e with
  | Some c =>
      match requestOf c core with
      | Some r => serve URL core r
      | None => core
      end
  | None => core
  end.

(** ** The elements offered to the assistant *)

(** An element with the attributes that [getClickableElements] reads
    beyond those of the resolver: [role], the [type] property, which only
    form controls and a few others have, and the class name. *)
Module Node.
Record t := mk {
  element : Element.t;
  role : option string;
  type : option string;
  className : string }.
End Node.

(** The frame as [getClickableElements] meets it: the [contentDocument] of
    a frame of another origin is [null]. *)
Inductive FrameDocument :=
  | NoFrame
  | Foreign
  | Document (nodes : list Node.t).

Module Clickable.
Record t := mk {
  index : nat;
  tag : string;
  text : string;
  type : option string;
  id : string;
  class : string }.
End Clickable.

(** ['a, button, input, select, textarea, [onclick], [role="button"]'] *)
Definition clickableNode (n : Node.t) : bool :=
  hasTag ["A"; "BUTTON"; "INPUT"; "SELECT"; "TEXTAREA"] (Node.element n)
  || Element.onclick (Node.element n)
  || bool_decide (Node.role n = Some "button").

Definition describeNode (index : nat) (el : Node.t) : Clickable.t :=
  Clickable.mk index
    (JS.toLowerCase (Element.tagName (Node.element el)))
    (String.substring 0 50 (JS.trim (Element.textContent (Node.element el))))
    (Node.type el)
    (Element.id (Node.element el))
    (Node.className el).

Definition getClickableElements (iframe : FrameDocument) : list Clickable.t :=
  match iframe with
  | Document nodes => imap describeNode (filter (fun n => clickableNode n = true) nodes)
  | NoFrame | Foreign => []
  end.

(** ** Sample states

    Concrete registries, documents and batches on which the properties
    below are exercised. *)

Definition blankPage : Chrome.t :=
  Chrome.mk EmptyString true false false false None 0 true true.

(** A registry after [init]. *)
Definition freshCore : BrowserCore := init WhatwgURL.orThrow (newBrowserCore blankPage).

(** One tab that visited three pages. *)
Definition browsedCore : BrowserCore :=
  serveAll WhatwgURL.orThrow
    [Navigate "example.com"; Navigate "hello world"; Navigate "http://x.com/a"] freshCore.

(** Two tabs, the second one active. *)
Definition twoTabs : BrowserCore :=
  serveAll WhatwgURL.orThrow [Navigate "example.com"; NewTab None] freshCore.

(** A form whose text field has the id [Submit] and whose button reads
    "Submit form". *)
Definition submitField : Element.t :=
  Element.mk "INPUT" "Submit" EmptyString (Some EmptyString) (Some EmptyString)
             false EmptyString [] 0.
Definition submitButton : Element.t :=
  Element.mk "BUTTON" EmptyString "Submit form" (Some EmptyString) None
             false EmptyString [] 0.
Definition signupForm : list Element.t := [submitField; submitButton].

(** A text area announced by its placeholder. *)
Definition commentBox : Element.t :=
  Element.mk "TEXTAREA" EmptyString EmptyString (Some EmptyString)
             (Some "Leave a comment") false EmptyString [] 0.

(** A labelled choice of country. *)
Definition countryLabel : Element.t :=
  Element.mk "LABEL" EmptyString "Country" None None false "country" [] 0.
Definition countryChoice : Element.t :=
  Element.mk "SELECT" "country" "FranceSpain" (Some "fr") None false EmptyString
             [SelectOption.mk "France" "fr"; SelectOption.mk "Spain" "es"] 0.
Definition countryForm : list Element.t := [countryLabel; countryChoice].

(** Elements in view that take every click and every focus and keep what
    is assigned to their value as a string, as enabled buttons and text
    fields do. *)
Definition plainControls : Platform.t :=
  Platform.mk (fun _ _ => Acts) (fun _ _ y => Focused y)
    (fun doc i v => Stored (alter (Element.set_value (Some (default "undefined" v))) i doc)).

Definition pageOf (doc : list Element.t) : Page.t :=
  Page.mk doc [] None 0 1000 plainControls.

Definition worldOf (doc : list Element.t) : World :=
  mkWorld (Some freshCore) (Some (SameOrigin (pageOf doc))) false ("idle", "Agent Ready").

(** An executor in whose hands every navigation throws. *)
Definition brittleExec (action : Action.t) (w : World) : Outcome * World :=
  if String.eqb (Action.type action) "navigate" then (Thrown "navigation failed", w)
  else executeAction Selectors.orNoMatch WhatwgURL.orThrow action w.

(** Nothing else happens while the agent pauses. *)
Definition quiet (ms : Z) (w : World) : World := w.



(** A menu entry with a click handler, in front of the button of the
    sign-up form. *)
Definition menuEntry : Element.t :=
  Element.mk "LI" EmptyString "Open" None None true EmptyString [] 0.
Definition menuPage : list Element.t := [menuEntry; submitButton].


(** A registry with three tabs opened and the first one closed. *)
Definition busyCore : BrowserCore :=
  serveAll WhatwgURL.orThrow
    [NewTab None; NewTab (Some "example.com"); CloseTab "tab-1"; NewTab None]
    (newBrowserCore blankPage).

(** One tab that went to two pages and one step back. *)
Definition steppedBack : BrowserCore :=
  serveAll WhatwgURL.orThrow
    [NewTab None; Navigate "example.com"; Navigate "hello world"; GoBack]
    (newBrowserCore blankPage).

(** An agent in the middle of a batch. *)
Definition busyWorld : World :=
  mkWorld (Some freshCore) (Some (SameOrigin (pageOf signupForm))) true
          ("running", "Executing 1/2").

(** The settings dialog with a Gemini key entered, the Gemini model left
    blank, the dark mode box unchecked and no fields for Claude. *)
Definition filledForm : Form.t :=
  Form.mk (Some "AIza-demo") (Some EmptyString) (Some EmptyString) (Some "gpt-4.1-mini")
          None None (Some EmptyString) (Some "mistral")
          (Some false) (Some true) (Some "gemini") (Some "openai").

Definition filledDialog : SettingsManager.t :=
  SettingsManager.mk {["workflows" := "[]"]} filledForm (Some "flex") true true 0.

(** A store that holds a key for a provider that does not exist. *)
Definition strayStore : gmap string string := {["mistral_api_key" := "secret"]}.

(** A clock that advances by one millisecond at every reading, and a
    stand-in for the date format. *)
Definition steadyClock (n : nat) : Z := (1700000000000 + Z.of_nat n)%Z.
Definition isoOf (t : Z) : string := "T" +:+ pretty t.

(** The page frame, and a button outside it. *)
Definition frameTarget : Target.t := Target.mk true "page-frame" EmptyString "IFRAME" None.
Definition sendButton : Target.t := Target.mk false EmptyString "btn  primary" "BUTTON" None.

(** A side panel in a document with both containers, over an empty
    store. *)
Definition idlePanel : Recorder.t := Recorder.fresh None (Some false) (Some []) true 0.

(** Two workflows in the store, and an action waiting to be saved. *)
Definition firstWorkflow : Workflow.t :=
  Workflow.mk 1700000000000 "Workflow 1" [] "T1700000000001".
Definition secondWorkflow : Workflow.t :=
  Workflow.mk 1700000000050 "Workflow 2" [] "T1700000000051".
Definition twoWorkflows : Recorder.t :=
  Recorder.mk false [Recorded.mk "click" "#page-frame" None 1700000000090] [] 0
              (Some [firstWorkflow; secondWorkflow]) None None None 4.

(** Key events. *)
Definition ctrlW : KeyEvent.t := KeyEvent.mk "w" true false false false.
Definition plainW : KeyEvent.t := KeyEvent.mk "w" false false false false.

(** The host page after start-up, without a side panel. *)
Definition desk : Desk.t :=
  Desk.mk (Some (init WhatwgURL.orThrow (newBrowserCore blankPage))) None true true
          Desk.Elsewhere false.

(** A document with a button and a text area. *)
Definition buttonNode : Node.t := Node.mk submitButton None (Some "submit") "btn primary".
Definition commentNode : Node.t := Node.mk commentBox None (Some "textarea") EmptyString.
Definition commentPage : list Node.t := [buttonNode; commentNode].
(** * Properties *)

(** ** Sample evaluations *)

Example trim_sample : JS.trim "  example.com " = "example.com".
Proof. reflexivity. Qed.

Example encode_sample : JS.encodeURIComponent "hello world" = "hello%20world".
Proof. reflexivity. Qed.

Example slice0_sample : JS.slice0 [1; 2; 3] (-2) = [1] /\ JS.slice0 [1; 2; 3] 5 = [1; 2; 3].
Proof. split; reflexivity. Qed.

Example whatwg_samples :
  WhatwgURL.parse "example.com" = Some UrlThrows /\
  WhatwgURL.parse "hello world" = Some UrlThrows /\
  WhatwgURL.parse "http://x.com/a" = Some (UrlOk "http://x.com/a") /\
  WhatwgURL.parse "http://x.com" = Some (UrlOk "http://x.com/") /\
  WhatwgURL.parse "HTTPS://example.com/a/b.html" = Some (UrlOk "https://example.com/a/b.html") /\
  WhatwgURL.parse "http://x.com/a/../b" = None /\
  WhatwgURL.parse "mailto:someone" = None.
Proof. repeat split; reflexivity. Qed.

(** ** NavigationHistory: the index invariant *)

Lemma slice0_take {A} (l : list A) (e : Z) :
  (0 <= e)%Z -> JS.slice0 l e = take (Z.to_nat e) l.
Proof.
  intros He. unfold JS.slice0.
  destruct (e <? 0)%Z eqn:Hneg; [lia|].
  destruct (Z.min_spec e (Z.of_nat (length l))) as [[Hlt ->]|[Hge ->]]; [done|].
  rewrite Nat2Z.id, firstn_all.
  symmetry. apply take_ge. lia.
Qed.

Lemma history_ok_empty : history_ok History.empty.
Proof. split; simpl; [lia | done]. Qed.

(** A push leaves a well-formed history whatever it started from. *)
Lemma history_ok_pushUrl url h : history_ok (pushUrl url h).
Proof.
  unfold pushUrl, history_ok; simpl.
  rewrite length_app; simpl. split; [lia|].
  split; [lia | intros H; by destruct (app_cons_not_nil _ _ _ (eq_sym H))].
Qed.

Lemma history_ok_back h :
  history_ok h -> (0 < History.index h)%Z ->
  history_ok (History.mk (History.stack h) (History.index h - 1)).
Proof.
  intros [Hr Hi] Hpos. split; simpl; [lia|].
  split; [lia | intros Hnil; apply Hi in Hnil; lia].
Qed.

Lemma history_ok_forward h :
  history_ok h -> (History.index h < Z.of_nat (length (History.stack h)) - 1)%Z ->
  history_ok (History.mk (History.stack h) (History.index h + 1)).
Proof.
  intros [Hr Hi] Hlt. split; simpl; [lia|].
  split; [lia | intros Hnil; rewrite Hnil in Hlt; simpl in Hlt; lia].
Qed.

Lemma histories_ok_insert s tabId h :
  histories_ok s -> history_ok h -> histories_ok (with_history (insert tabId h) s).
Proof.
  intros Hs Hh k h'. simpl. rewrite lookup_insert.
  case_decide; [by intros [= <-] | apply Hs].
Qed.

Lemma histories_ok_delete s tabId :
  histories_ok s -> histories_ok (with_history (delete tabId) s).
Proof.
  intros Hs k h'. simpl. rewrite lookup_delete.
  case_decide; [done | apply Hs].
Qed.

Lemma histories_ok_same s s' : history s' = history s -> histories_ok s -> histories_ok s'.
Proof. unfold histories_ok. by intros ->. Qed.

Section CoreFacts.

Variable URL : string -> UrlResult.

Lemma switchToTab_history tabId s : history (switchToTab tabId s) = history s.
Proof.
  unfold switchToTab. destruct (findTab tabId (tabs s)) as [[? tab]|]; [|done].
  by destruct (Tab.isHome tab || negb (JS.truthy (Tab.url tab))).
Qed.

Lemma switchToTab_tabs tabId s : tabs (switchToTab tabId s) = tabs s.
Proof.
  unfold switchToTab. destruct (findTab tabId (tabs s)) as [[? tab]|]; [|done].
  by destruct (Tab.isHome tab || negb (JS.truthy (Tab.url tab))).
Qed.

Lemma switchToTab_active tabId s :
  is_Some (findTab tabId (tabs s)) -> activeTabId (switchToTab tabId s) = Some tabId.
Proof.
  intros [[? tab] Hf]. unfold switchToTab. rewrite Hf.
  by destruct (Tab.isHome tab || negb (JS.truthy (Tab.url tab))).
Qed.

Lemma histories_ok_navigate input s :
  histories_ok s -> histories_ok (navigate URL input s).
Proof.
  intros Hs. unfold navigate.
  destruct (String.eqb input EmptyString || String.eqb (JS.trim input) EmptyString); [done|].
  destruct (getActiveTab s) as [[i activeTab]|]; [|done].
  simpl. destruct (history s !! Tab.id activeTab) as [h|] eqn:Hh.
  - apply (histories_ok_same (with_history (insert (Tab.id activeTab)
      (pushUrl (parseUrl URL (JS.trim input)) h)) s)); [done|].
    apply histories_ok_insert; [done | apply history_ok_pushUrl].
  - by apply (histories_ok_same s).
Qed.

Lemma histories_ok_createNewTab url s :
  histories_ok s -> histories_ok (snd (createNewTab URL url s)).
Proof.
  intros Hs. unfold createNewTab; simpl.
  set (s1 := switchToTab _ _).
  assert (histories_ok s1) as H1.
  { intros k h'. unfold s1. rewrite switchToTab_history. simpl.
    rewrite lookup_insert. case_decide; [intros [= <-]; apply history_ok_empty | apply Hs]. }
  destruct (JS.truthy url); [by apply histories_ok_navigate | done].
Qed.

Lemma histories_ok_closeTab tabId s :
  histories_ok s -> histories_ok (closeTab URL tabId s).
Proof.
  intros Hs. unfold closeTab.
  destruct (findTab tabId (tabs s)) as [[index ?]|]; [|done].
  set (s1 := with_history (delete tabId) (with_tabs (delete index) s)).
  assert (histories_ok s1) as H1.
  { intros k h'. unfold s1; simpl. rewrite lookup_delete.
    case_decide; [done | apply Hs]. }
  destruct (tabs s1) as [|x xs] eqn:Hts.
  - by apply histories_ok_createNewTab.
  - destruct (bool_decide _); [|done].
    destruct (_ !! _) as [y|]; [|done].
    eapply histories_ok_same; [apply switchToTab_history | done].
Qed.

Lemma histories_ok_moveTo i activeTab h index s :
  histories_ok s -> history_ok (History.mk (History.stack h) index) ->
  histories_ok (moveTo i activeTab h index s).
Proof.
  intros Hs Hh k h'. unfold moveTo; simpl. rewrite lookup_insert.
  case_decide; [by intros [= <-] | apply Hs].
Qed.

Lemma histories_ok_goBack s : histories_ok s -> histories_ok (goBack s).
Proof.
  intros Hs. unfold goBack.
  destruct (getActiveTab s) as [[i activeTab]|]; [|done].
  destruct (history s !! Tab.id activeTab) as [h|] eqn:Hh; [|done].
  destruct (0 <? History.index h)%Z eqn:Hpos; [|done].
  apply histories_ok_moveTo; [done|].
  apply history_ok_back; [by eapply Hs | lia].
Qed.

Lemma histories_ok_goForward s : histories_ok s -> histories_ok (goForward s).
Proof.
  intros Hs. unfold goForward.
  destruct (getActiveTab s) as [[i activeTab]|]; [|done].
  destruct (history s !! Tab.id activeTab) as [h|] eqn:Hh; [|done].
  destruct (History.index h <? _)%Z eqn:Hlt; [|done].
  apply histories_ok_moveTo; [done|].
  apply history_ok_forward; [by eapply Hs | lia].
Qed.

Lemma histories_ok_serve s r : histories_ok s -> histories_ok (serve URL s r).
Proof.
  intros Hs. destruct r; simpl.
  - by apply histories_ok_createNewTab.
  - by apply histories_ok_closeTab.
  - eapply histories_ok_same; [apply switchToTab_history | done].
  - by apply histories_ok_navigate.
  - by apply histories_ok_goBack.
  - by apply histories_ok_goForward.
  - unfold reload. destruct (getActiveTab s) as [[? t]|]; [|done].
    by destruct (JS.truthy (Tab.url t)).
  - unfold goHome. by destruct (getActiveTab s) as [[? t]|].
Qed.

Lemma histories_ok_serveAll rs s : histories_ok s -> histories_ok (serveAll URL rs s).
Proof.
  revert s. induction rs as [|r rs IH]; intros s Hs; simpl; [done|].
  apply IH. by apply histories_ok_serve.
Qed.

End CoreFacts.

(** C1. Whatever requests a registry has served since its construction, the
    history of every tab keeps its index within [-1 .. length - 1]; the index
    is [-1] exactly when the stack is empty, and it is a valid position of
    the stack whenever the stack is not empty. *)
Theorem history_index_invariant (URL : string -> UrlResult) (p : Chrome.t)
    (rs : list Request) (tabId : string) (h : History.t) :
  history (serveAll URL rs (newBrowserCore p)) !! tabId = Some h ->
  (-1 <= History.index h <= Z.of_nat (length (History.stack h)) - 1)%Z /\
  (History.index h = (-1)%Z <-> History.stack h = []) /\
  (History.stack h <> [] -> (0 <= History.index h < Z.of_nat (length (History.stack h)))%Z).
Proof.
  intros Hh.
  assert (history_ok h) as [Hr Hi].
  { eapply (histories_ok_serveAll URL rs (newBrowserCore p)); [|exact Hh].
    intros k h'. simpl. by rewrite lookup_empty. }
  split; [done|]. split; [done|].
  intros Hne. split; [|lia].
  destruct (Z.eq_dec (History.index h) (-1)%Z) as [E|E]; [by apply Hi in E | lia].
Qed.

(** ** TabRegistry: how the operations act on the state *)

Lemma findTab_alter tabId (f : Tab.t -> Tab.t) i t ts :
  (forall x, Tab.id (f x) = Tab.id x) ->
  findTab tabId ts = Some (i, t) ->
  findTab tabId (alter f i ts) = Some (i, f t).
Proof.
  unfold findTab. intros Hf (Hl & HP & Hlt)%list_find_Some.
  apply list_find_Some. split_and!.
  - by rewrite list_lookup_alter_eq, Hl.
  - by rewrite Hf.
  - intros j y Hj Hji. rewrite list_lookup_alter_ne in Hj by lia. eauto.
Qed.

Lemma findTab_id tabId ts i t : findTab tabId ts = Some (i, t) -> Tab.id t = tabId.
Proof. unfold findTab. by intros (_ & HP & _)%list_find_Some. Qed.

Lemma getActiveTab_id s i t : getActiveTab s = Some (i, t) -> activeTabId s = Some (Tab.id t).
Proof.
  unfold getActiveTab. destruct (activeTabId s) as [a|]; [|done].
  intros H. by rewrite (findTab_id _ _ _ _ H).
Qed.

Lemma trim_blank input : JS.allChars JS.isWhiteSpace input = true -> JS.trim input = EmptyString.
Proof.
  unfold JS.trim. induction input as [|c input IH]; simpl; [done|].
  intros [Hc Hrest]%andb_prop. rewrite Hc. by apply IH.
Qed.

Lemma stripEnd_blank p s : JS.stripEnd p s = EmptyString -> JS.allChars p s = true.
Proof.
  induction s as [|c s IH]; simpl; [done|].
  destruct (JS.stripEnd p s); [|done].
  destruct (p c); [intros _; by rewrite IH | done].
Qed.

Lemma stripStart_suffix p s : JS.allChars p (JS.stripStart p s) = true -> JS.allChars p s = true.
Proof.
  induction s as [|c s IH]; simpl; [done|].
  destruct (p c) eqn:Hc; simpl; [done|]. by rewrite Hc.
Qed.

(** An input trims to the empty string exactly when it consists of white
    space only. *)
Lemma trim_blank_iff input :
  JS.trim input = EmptyString <-> JS.allChars JS.isWhiteSpace input = true.
Proof.
  split; [|apply trim_blank].
  intros H. apply stripStart_suffix. by apply stripEnd_blank.
Qed.

Section RegistryFacts.

Variable URL : string -> UrlResult.

Lemma navigate_unfold input s i activeTab :
  JS.trim input <> EmptyString ->
  getActiveTab s = Some (i, activeTab) ->
  let url := parseUrl URL (JS.trim input) in
  history (navigate URL input s) =
    match history s !! Tab.id activeTab with
    | Some h => <[Tab.id activeTab := pushUrl url h]> (history s)
    | None => history s
    end /\
  tabs (navigate URL input s) =
    alter (fun x => Tab.set_title "Loading..." (Tab.set_isHome false (Tab.set_url (Some url) x)))
          i (tabs s) /\
  activeTabId (navigate URL input s) = activeTabId s.
Proof.
  intros Hne Hact. unfold navigate.
  assert (input <> EmptyString) as Hin by (intros ->; by apply Hne).
  apply String.eqb_neq in Hne, Hin. rewrite Hne, Hin, Hact. simpl.
  by destruct (history s !! Tab.id activeTab).
Qed.

Lemma moveTo_active i activeTab h index s :
  getActiveTab s = Some (i, activeTab) ->
  getActiveTab (moveTo i activeTab h index s) =
    Some (i, Tab.set_url (at_index (History.stack h) index) activeTab).
Proof.
  unfold getActiveTab, moveTo; simpl.
  destruct (activeTabId s) as [a|]; [|done].
  by apply findTab_alter.
Qed.

End RegistryFacts.

(** The position reached from [index] by [n] steps back: a step is taken
    only while the position is positive. *)
Lemma goBack_iter n s i activeTab h :
  getActiveTab s = Some (i, activeTab) ->
  history s !! Tab.id activeTab = Some h ->
  history_ok h ->
  exists activeTab',
    getActiveTab (Nat.iter n goBack s) = Some (i, activeTab') /\
    Tab.id activeTab' = Tab.id activeTab /\
    history (Nat.iter n goBack s) !! Tab.id activeTab
      = Some (History.mk (History.stack h) (backBy n (History.index h))).
Proof.
  intros Hact Hh Hok. induction n as [|n (t' & Hact' & Hid & Hh')].
  - exists activeTab. simpl. split_and!; [done..|].
    rewrite Hh. f_equal. unfold backBy. destruct h as [st ix]; simpl. f_equal. lia.
  - simpl. set (sn := Nat.iter n goBack s) in *.
    set (hn := History.mk (History.stack h) (backBy n (History.index h))) in *.
    unfold goBack. rewrite Hact', Hid, Hh'.
    destruct (0 <? History.index hn)%Z eqn:Hpos.
    + exists (Tab.set_url (at_index (History.stack hn) (History.index hn - 1)) t').
      split; [by apply moveTo_active|]. split; [done|].
      unfold moveTo; simpl. rewrite Hid, lookup_insert_eq. f_equal. f_equal.
      unfold backBy in *. simpl in Hpos. lia.
    + exists t'. split_and!; [done..|]. rewrite Hh'. f_equal. unfold hn. f_equal.
      unfold backBy in *. simpl in Hpos. destruct Hok as [Hr _]. lia.
Qed.

(** C2. A navigation with a non-blank input, on a registry whose active tab
    has a well-formed history, keeps the first [index + 1] entries of the
    stack, appends the resolved URL and points the index at it, so that the
    new stack has [index + 2] entries.  After any number of steps back the
    same holds at the position reached: the entries beyond it are gone. *)
Theorem navigate_truncates_then_appends (URL : string -> UrlResult)
    (s : BrowserCore) (input : string) (i : nat) (activeTab : Tab.t) (h : History.t) :
  JS.trim input <> EmptyString ->
  getActiveTab s = Some (i, activeTab) ->
  history s !! Tab.id activeTab = Some h ->
  history_ok h ->
  let url := parseUrl URL (JS.trim input) in
  let pushed := fun index =>
    let kept := take (Z.to_nat (index + 1)) (History.stack h) in
    History.mk (kept ++ [url]) (Z.of_nat (length (kept ++ [url])) - 1) in
  history (navigate URL input s) !! Tab.id activeTab = Some (pushed (History.index h)) /\
  (forall n,
     history (navigate URL input (Nat.iter n goBack s)) !! Tab.id activeTab
       = Some (pushed (backBy n (History.index h)))) /\
  (forall n, let index := backBy n (History.index h) in
     Z.of_nat (length (History.stack (pushed index))) = (index + 2)%Z /\
     History.index (pushed index) = (index + 1)%Z /\
     take (Z.to_nat (index + 1)) (History.stack (pushed index))
       = take (Z.to_nat (index + 1)) (History.stack h)).
Proof.
  intros Hne Hact Hh Hok url pushed.
  assert (forall n, history (navigate URL input (Nat.iter n goBack s)) !! Tab.id activeTab
                    = Some (pushed (backBy n (History.index h)))) as Hall.
  { intros n.
    destruct (goBack_iter n s i activeTab h Hact Hh Hok) as (t' & Hact' & Hid & Hh').
    destruct (navigate_unfold URL input _ _ _ Hne Hact') as (-> & _ & _).
    rewrite Hid, Hh', lookup_insert_eq. f_equal.
    unfold pushUrl, pushed. simpl. rewrite slice0_take; [done|].
    destruct Hok as [Hr _]. unfold backBy. lia. }
  split_and!.
  - specialize (Hall 0). simpl in Hall. rewrite Hall. do 2 f_equal.
    unfold backBy. destruct Hok as [Hr _]. lia.
  - exact Hall.
  - intros n index. destruct Hok as [Hr _].
    assert (-1 <= index <= Z.of_nat (length (History.stack h)) - 1)%Z as Hix
      by (unfold index, backBy; lia).
    unfold pushed; simpl. rewrite length_app, length_take_le by lia. simpl.
    split_and!; [lia | lia |].
    rewrite take_app_le by (rewrite length_take_le; lia).
    by rewrite take_take, Nat.min_id.
Qed.

(** C3. Going back and going forward never change any stack; each is the
    identity on the whole state when its predicate fails; and from a
    position where both are legal, back followed by forward gives the
    history back as it was and leaves the tab on the URL at that position. *)
Theorem back_forward_only_move_index (s : BrowserCore) :
  (forall tabId, History.stack <$> history (goBack s) !! tabId
                 = History.stack <$> history s !! tabId) /\
  (forall tabId, History.stack <$> history (goForward s) !! tabId
                 = History.stack <$> history s !! tabId) /\
  (forall i activeTab h,
     getActiveTab s = Some (i, activeTab) -> history s !! Tab.id activeTab = Some h ->
     ((History.index h <= 0)%Z -> goBack s = s) /\
     ((History.index h >= Z.of_nat (length (History.stack h)) - 1)%Z -> goForward s = s) /\
     ((0 < History.index h <= Z.of_nat (length (History.stack h)) - 1)%Z ->
      history (goForward (goBack s)) = history s /\
      exists activeTab',
        getActiveTab (goForward (goBack s)) = Some (i, activeTab') /\
        Tab.url activeTab' = History.stack h !! Z.to_nat (History.index h) /\
        is_Some (Tab.url activeTab') /\
        (Tab.url activeTab = History.stack h !! Z.to_nat (History.index h) ->
         tabs (goForward (goBack s)) = tabs s))).
Proof.
  assert (forall i activeTab h index tabId,
    history s !! Tab.id activeTab = Some h ->
    History.stack <$> history (moveTo i activeTab h index s) !! tabId
    = History.stack <$> history s !! tabId) as Hstack.
  { intros i activeTab h index tabId Hh. unfold moveTo; simpl.
    rewrite lookup_insert. case_decide; [subst; by rewrite Hh | done]. }
  split_and!.
  - intros tabId. unfold goBack.
    destruct (getActiveTab s) as [[i activeTab]|]; [|done].
    destruct (history s !! Tab.id activeTab) as [h|] eqn:Hh; [|done].
    destruct (0 <? History.index h)%Z; [by apply Hstack | done].
  - intros tabId. unfold goForward.
    destruct (getActiveTab s) as [[i activeTab]|]; [|done].
    destruct (history s !! Tab.id activeTab) as [h|] eqn:Hh; [|done].
    destruct (History.index h <? _)%Z; [by apply Hstack | done].
  - intros i activeTab h Hact Hh. split_and!.
    + intros Hle. unfold goBack. rewrite Hact, Hh.
      destruct (0 <? History.index h)%Z eqn:E; [lia | done].
    + intros Hge. unfold goForward. rewrite Hact, Hh.
      destruct (History.index h <? _)%Z eqn:E; [lia | done].
    + intros [Hpos Hle].
      assert (goBack s = moveTo i activeTab h (History.index h - 1) s) as ->.
      { unfold goBack. rewrite Hact, Hh.
        destruct (0 <? History.index h)%Z eqn:E; [done | lia]. }
      pose proof (moveTo_active i activeTab h (History.index h - 1) s Hact) as Hact1.
      set (s1 := moveTo i activeTab h (History.index h - 1) s) in *.
      set (t1 := Tab.set_url _ activeTab) in *.
      set (h1 := History.mk (History.stack h) (History.index h - 1)).
      assert (history s1 !! Tab.id t1 = Some h1) as Hh1.
      { unfold s1, moveTo; simpl. by rewrite lookup_insert_eq. }
      assert (goForward s1 = moveTo i t1 h1 (History.index h1 + 1) s1) as ->.
      { unfold goForward. rewrite Hact1, Hh1.
        destruct (History.index h1 <? _)%Z eqn:E; [done | simpl in E; lia]. }
      assert (History.index h1 + 1 = History.index h)%Z as Hidx by (simpl; lia).
      rewrite Hidx.
      assert (at_index (History.stack h) (History.index h)
              = History.stack h !! Z.to_nat (History.index h)) as Hat.
      { unfold at_index. destruct (History.index h <? 0)%Z eqn:E; [lia | done]. }
      split.
      * unfold moveTo, s1, moveTo; simpl.
        rewrite insert_insert_eq. apply insert_id. rewrite Hh. by destruct h.
      * exists (Tab.set_url (at_index (History.stack h) (History.index h)) t1).
        split; [exact (moveTo_active i t1 h1 (History.index h) s1 Hact1)|]. simpl. rewrite Hat.
        split; [done|]. split.
        { apply lookup_lt_is_Some. lia. }
        intros Hurl. unfold moveTo, s1, moveTo; simpl.
        apply list_eq. intros j.
        unfold getActiveTab in Hact. destruct (activeTabId s) as [a|]; [|done].
        apply list_find_Some in Hact as (Hl & _ & _).
        destruct (decide (j = i)) as [->|Hne].
        -- rewrite !list_lookup_alter_eq, Hl. simpl. f_equal.
           destruct activeTab; simpl in *. by rewrite Hurl.
        -- by rewrite !list_lookup_alter_ne.
Qed.

(** C10. An input that is empty or made of white space only leaves the
    whole state as it was: tabs, active tab, histories, counter and host
    page. *)
Theorem navigate_blank_is_noop (URL : string -> UrlResult) (input : string)
    (s : BrowserCore) :
  JS.allChars JS.isWhiteSpace input = true ->
  navigate URL input s = s.
Proof.
  intros Hblank. unfold navigate.
  rewrite (trim_blank input Hblank). simpl.
  by rewrite orb_true_r.
Qed.

(** ** TabRegistry: closing a tab *)

Section CloseTab.

Variable URL : string -> UrlResult.

Lemma createNewTab_home s :
  let s' := snd (createNewTab URL None s) in
  tabs s' = (tabs s ++ [homeTab s])%list /\
  activeTabId s' = Some (Tab.id (homeTab s)) /\
  history s' = <[Tab.id (homeTab s) := History.empty]> (history s).
Proof.
  unfold createNewTab; simpl.
  rewrite switchToTab_tabs, switchToTab_history. split_and!; [done| |done].
  apply switchToTab_active. simpl.
  apply (list_find_elem_of _ _ (homeTab s)); [|done].
  apply elem_of_app. right. by apply list_elem_of_singleton.
Qed.

Lemma closeTab_unfold tabId s index t :
  findTab tabId (tabs s) = Some (index, t) ->
  let s1 := with_history (delete tabId) (with_tabs (delete index) s) in
  closeTab URL tabId s =
    match delete index (tabs s) with
    | [] => snd (createNewTab URL None s1)
    | x :: xs =>
        if bool_decide (activeTabId s = Some tabId) then
          match (x :: xs) !! Nat.min index (length (x :: xs) - 1) with
          | Some y => switchToTab (Tab.id y) s1
          | None => s1
          end
        else s1
    end.
Proof.
  intros Hf. unfold closeTab. rewrite Hf. simpl.
  by destruct (delete index (tabs s)).
Qed.

End CloseTab.

Lemma delete_nil_inv {A} (l : list A) i :
  is_Some (l !! i) -> delete i l = [] -> length l = 1.
Proof.
  intros [x Hx] Hd. destruct l as [|a [|b l]]; [by rewrite lookup_nil in Hx | done |].
  by destruct i.
Qed.

Lemma delete_unique_id (ts : list Tab.t) i t :
  NoDup (Tab.id <$> ts) -> ts !! i = Some t ->
  Tab.id t ∉ Tab.id <$> delete i ts.
Proof.
  intros Hnd Hi Hin.
  apply list_elem_of_fmap in Hin as (y & Hy & Hin).
  apply list_elem_of_lookup in Hin as [j Hj].
  rewrite list_lookup_delete in Hj.
  assert ((Tab.id <$> ts) !! i = Some (Tab.id t)) as H1 by (by rewrite list_lookup_fmap, Hi).
  assert ((Tab.id <$> ts) !! (if decide (j < i) then j else S j) = Some (Tab.id t)) as H2
    by (by rewrite list_lookup_fmap, Hj, Hy).
  pose proof (NoDup_lookup _ _ _ _ Hnd H1 H2) as E.
  case_decide; lia.
Qed.

(** C4. Closing a tab that is present never leaves the registry empty.  If
    it was the only tab, the registry afterwards holds exactly one tab, a
    fresh home tab with an empty history, and that tab is active.
    Otherwise the tab at the position found is removed, with its history,
    and no tab bears its id any more when ids are unique.  If the closed
    tab was the active one, the active id afterwards is that of the tab at
    position [min index (count - 1)] of the remaining tabs; if it was not,
    the active id stays. *)
Theorem closeTab_keeps_a_tab (URL : string -> UrlResult) (s : BrowserCore)
    (tabId : string) (index : nat) (t : Tab.t) :
  findTab tabId (tabs s) = Some (index, t) ->
  let s' := closeTab URL tabId s in
  tabs s' <> [] /\
  (length (tabs s) = 1 ->
     tabs s' = [homeTab s] /\
     Tab.isHome (homeTab s) = true /\ Tab.url (homeTab s) = None /\
     activeTabId s' = Some (Tab.id (homeTab s)) /\
     history s' !! Tab.id (homeTab s) = Some History.empty) /\
  (1 < length (tabs s) ->
     tabs s' = delete index (tabs s) /\
     history s' = delete tabId (history s) /\
     (NoDup (Tab.id <$> tabs s) -> tabId ∉ Tab.id <$> tabs s') /\
     (activeTabId s <> Some tabId -> activeTabId s' = activeTabId s)) /\
  (activeTabId s = Some tabId ->
     exists x, tabs s' !! Nat.min index (length (tabs s') - 1) = Some x /\
               activeTabId s' = Some (Tab.id x)).
Proof.
  intros Hf s'.
  pose proof Hf as (Hl & Hid & _)%list_find_Some.
  assert (is_Some (tabs s !! index)) as Hsome by eauto.
  pose proof (length_delete _ _ Hsome) as Hlen.
  pose proof (lookup_lt_Some _ _ _ Hl) as Hlt.
  unfold s'. rewrite (closeTab_unfold URL tabId s index t Hf).
  set (s1 := with_history (delete tabId) (with_tabs (delete index) s)).
  destruct (delete index (tabs s)) as [|x xs] eqn:Hdel.
  - (* the last tab *)
    destruct (createNewTab_home URL s1) as (Htabs & Hact & Hhist).
    assert (tabs s1 = []) as Hnil by exact Hdel.
    rewrite Hnil, app_nil_l in Htabs.
    assert (homeTab s1 = homeTab s) as Hhome by done.
    rewrite Hhome in *.
    assert (length (tabs s) = 1) as Hone by (by eapply delete_nil_inv).
    split_and!.
    + by rewrite Htabs.
    + intros _. split_and!; [done..|]. rewrite Hhist. by rewrite lookup_insert_eq.
    + lia.
    + intros _. exists (homeTab s). rewrite Htabs. split; [|done].
      assert (index = 0) as -> by lia. done.
  - (* other tabs remain *)
    assert (1 < length (tabs s)) as Hmany by (simpl in Hlen; lia).
    assert (is_Some ((x :: xs) !! Nat.min index (length (x :: xs) - 1))) as [y Hy].
    { apply lookup_lt_is_Some. simpl. lia. }
    rewrite Hy.
    assert (tabs s1 = x :: xs) as Hts1 by exact Hdel.
    assert (is_Some (findTab (Tab.id y) (tabs s1))) as Hfy.
    { rewrite Hts1. apply (list_find_elem_of _ _ y); [|done].
      apply list_elem_of_lookup. eauto. }
    case_bool_decide as Hactive.
    + rewrite switchToTab_tabs, switchToTab_history, (switchToTab_active _ _ Hfy), Hts1.
      split_and!; [done | lia | | eauto].
      intros _. split_and!; [done | done | | done].
      intros Hnd. rewrite <- Hdel, <- Hid. by apply delete_unique_id.
    + rewrite Hts1. split_and!; [done | lia | | done].
      intros _. split_and!; [done | done | | done].
      intros Hnd. rewrite <- Hdel, <- Hid. by apply delete_unique_id.
Qed.

(** ** UrlResolver *)

Lemma string_app_assoc (a b c : string) : (a +:+ b) +:+ c = a +:+ (b +:+ c).
Proof.
  induction a as [|x a IH]; [done|].
  change (String x ((a +:+ b) +:+ c) = String x (a +:+ (b +:+ c))). by rewrite IH.
Qed.

Lemma span_app p s a b :
  JS.span p s = (a, b) -> s = a +:+ b /\ JS.allChars p a = true.
Proof.
  revert a b. induction s as [|c s IH]; simpl; intros a b.
  - by intros [= <- <-].
  - destruct (p c) eqn:Hc.
    + destruct (JS.span p s) as [a' b'] eqn:E. intros [= <- <-].
      destruct (IH _ _ eq_refl) as [-> Hall]. simpl. by rewrite Hc.
    + by intros [= <- <-].
Qed.

Lemma span_stop p t c x :
  JS.allChars p t = true -> p c = false ->
  JS.span p (t +:+ String c x) = (t, String c x).
Proof.
  intros Hall Hc. induction t as [|y t IH]; simpl in *.
  - by rewrite Hc.
  - apply andb_prop in Hall as [-> Hall]. by rewrite IH.
Qed.

(** The test of [parseUrl] accepts exactly the inputs that begin with the
    shape [token(.token)+]. *)
Lemma looksLikeDomain_spec input :
  looksLikeDomain input = true <-> beginsWithBareDomain input.
Proof.
  split.
  - unfold looksLikeDomain.
    destruct (JS.span isTokenChar input) as [a b] eqn:E.
    destruct a as [|a0 a]; [done|].
    destruct b as [|dot [|c r]]; [done..|].
    intros [Hdot Hc]%andb_prop. apply Ascii.eqb_eq in Hdot as ->.
    apply span_app in E as [-> Hall].
    exists (String a0 a +:+ dotted [String c EmptyString]), r. split.
    + exists (String a0 a), [String c EmptyString].
      split; [by split|]. split; [done|]. split; [|done].
      constructor; [|constructor]. split; [done|]. simpl. by rewrite Hc.
    + by rewrite string_app_assoc.
  - intros (p & rest & (t & ts & [Hne Hall] & Hts & Hall' & ->) & ->).
    destruct ts as [|t1 ts]; [done|].
    apply Forall_cons in Hall' as [[Hne1 Hall1] _].
    destruct t1 as [|c1 t1]; [done|]. simpl in Hall1.
    apply andb_prop in Hall1 as [Hc1 _].
    assert (dotted (String c1 t1 :: ts) +:+ rest
            = String "." (String c1 ((t1 +:+ dotted ts) +:+ rest))) as E by reflexivity.
    unfold looksLikeDomain. rewrite string_app_assoc, E.
    rewrite span_stop; [|done..].
    destruct t; [done|]. by rewrite Hc1.
Qed.

Lemma conforms_orThrow : WhatwgURL.conforms WhatwgURL.orThrow.
Proof. intros input r H. unfold WhatwgURL.orThrow. by rewrite H. Qed.

(** C5, as amended.  [parseUrl] tries three rules in order.  An input that
    the URL constructor accepts is replaced by the [href] of the parsed URL;
    otherwise an input that begins with the shape [token(.token)+] is
    prefixed with [https://]; otherwise the result is the search URL
    followed by the percent-encoded input.  With a URL constructor that
    follows the standard, [example.com] becomes [https://example.com],
    [http://x.com/a] is returned as it is, and [hello world] becomes the
    search URL for [hello%20world]. *)
Theorem parseUrl_three_rules (URL : string -> UrlResult) (input : string) :
  (forall href, URL input = UrlOk href -> parseUrl URL input = href) /\
  (URL input = UrlThrows -> beginsWithBareDomain input ->
     parseUrl URL input = "https://" +:+ input) /\
  (URL input = UrlThrows -> ~ beginsWithBareDomain input ->
     parseUrl URL input = "https://www.google.com/search?q=" +:+ JS.encodeURIComponent input) /\
  (WhatwgURL.conforms URL ->
     parseUrl URL "example.com" = "https://example.com" /\
     parseUrl URL "http://x.com/a" = "http://x.com/a" /\
     parseUrl URL "hello world" = "https://www.google.com/search?q=hello%20world").
Proof.
  unfold parseUrl. split_and!.
  - by intros href ->.
  - intros -> Hd%looksLikeDomain_spec. by rewrite Hd.
  - intros -> Hd. destruct (looksLikeDomain input) eqn:E; [|done].
    by apply looksLikeDomain_spec in E.
  - intros Hc.
    rewrite (Hc "example.com" UrlThrows), (Hc "http://x.com/a" (UrlOk "http://x.com/a")),
      (Hc "hello world" UrlThrows) by (vm_compute; reflexivity).
    split_and!; vm_compute; reflexivity.
Qed.

(** C5 as stated fails: an absolute URL is not always used verbatim.  The
    constructor accepts [http://x.com] and serialises it with a trailing
    slash, and that serialisation is what [parseUrl] returns. *)
Lemma parseUrl_not_verbatim :
  ~ (forall URL : string -> UrlResult, WhatwgURL.conforms URL ->
     forall input href, URL input = UrlOk href -> parseUrl URL input = input).
Proof.
  intros H.
  specialize (H WhatwgURL.orThrow conforms_orThrow "http://x.com" "http://x.com/").
  assert (WhatwgURL.orThrow "http://x.com" = UrlOk "http://x.com/") as E
    by (vm_compute; reflexivity).
  specialize (H E). unfold parseUrl in H. rewrite E in H. discriminate.
Qed.

(** ** Strings: containment *)

Lemma startsWith_spec p s : JS.startsWith p s = true <-> exists r, s = p +:+ r.
Proof.
  revert s. induction p as [|a p IH]; intros s.
  - split; [intros _; by exists s | done].
  - destruct s as [|b s]; simpl.
    + split; [done | by intros [r Hr]].
    + rewrite andb_true_iff, Ascii.eqb_eq, IH. split.
      * intros [-> [r ->]]. by exists r.
      * intros [r Hr]. change (String b s = String a (p +:+ r)) in Hr.
        injection Hr as -> ->. eauto.
Qed.

Lemma includes_spec s t : JS.includes s t = true <-> contains s t.
Proof.
  unfold contains. induction s as [|c s IH].
  - simpl. rewrite orb_false_r, startsWith_spec. split.
    + intros [r Hr]. exists EmptyString, r. exact Hr.
    + intros (pre & post & H). destruct pre; [by exists post | done].
  - change (JS.includes (String c s) t) with (JS.startsWith t (String c s) || JS.includes s t).
    rewrite orb_true_iff, startsWith_spec, IH. split.
    + intros [[r Hr]|(pre & post & ->)].
      * exists EmptyString, r. exact Hr.
      * by exists (String c pre), post.
    + intros (pre & post & H). destruct pre as [|c' pre].
      * left. by exists post.
      * right. change (String c s = String c' (pre +:+ t +:+ post)) in H.
        injection H as -> ->. eauto.
Qed.

(** ** ElementResolver: the order of the strategies *)

Section ResolverFacts.

Variable querySelector : list Element.t -> string -> SelectorResult.

(** The strategies are consulted in the order id, selector, text, label,
    each only when those before it found nothing. *)
Lemma findElement_order doc actionTarget :
  let target := JS.toLowerCase actionTarget in
  (forall i, byId doc target = Some i ->
     findElement querySelector doc actionTarget = Some i) /\
  (byId doc target = None ->
   forall i, bySelector querySelector doc target = Some i ->
     findElement querySelector doc actionTarget = Some i) /\
  (byId doc target = None -> bySelector querySelector doc target = None ->
   forall i, byText doc target = Some i ->
     findElement querySelector doc actionTarget = Some i) /\
  (byId doc target = None -> bySelector querySelector doc target = None ->
   textSearch target doc 0 = Missing ->
     findElement querySelector doc actionTarget = byLabel doc target) /\
  (byId doc target = None -> bySelector querySelector doc target = None ->
   textSearch target doc 0 = Raised ->
     findElement querySelector doc actionTarget = None).
Proof.
  unfold findElement, resolve, byText. split_and!.
  - by intros i ->.
  - by intros -> i ->.
  - intros -> -> i. by destruct (textSearch _ doc 0); intros [= ->].
  - intros -> -> ->. by destruct (byLabel _ _).
  - by intros -> -> ->.
Qed.

(** The search as a chain of alternatives; the labels count only when the
    text strategy ran to its end. *)
Lemma findElement_strategies doc actionTarget :
  let target := JS.toLowerCase actionTarget in
  findElement querySelector doc actionTarget
  = orElse (byId doc target)
      (orElse (bySelector querySelector doc target)
         (orElse (byText doc target)
            match textSearch target doc 0 with
            | Missing => byLabel doc target
            | Found _ | Raised => None
            end)).
Proof.
  unfold findElement, resolve, byText. cbv zeta.
  destruct (byId _ _); [done|]. destruct (bySelector _ _ _); [done|]. simpl.
  destruct (textSearch _ doc 0); [done | | done]. by destruct (byLabel _ _).
Qed.

(** The search finds an element exactly when it resolves to one. *)
Lemma findElement_resolve doc actionTarget i :
  findElement querySelector doc actionTarget = Some i <->
  resolve querySelector doc actionTarget = Found i.
Proof.
  unfold findElement. destruct (resolve _ _ _); split; congruence.
Qed.


(** A target written in lower case that is the id of an element resolves to
    the first element with that id. *)
Lemma findElement_lowercase_id doc target i e :
  JS.toLowerCase target = target -> target <> EmptyString ->
  list_find (fun e => Element.id e = target) doc = Some (i, e) ->
  findElement querySelector doc target = Some i.
Proof.
  intros Hlow Hne Hfind. unfold findElement, resolve, byId, getElementById.
  rewrite Hlow. apply String.eqb_neq in Hne. by rewrite Hne, Hfind.
Qed.

(** What the text strategy looks at: links, buttons, inputs and elements
    with an [onclick] attribute, and nothing else. *)
Lemma textCandidate_spec e :
  textCandidate e = true <->
  Element.tagName e = "A" \/ Element.tagName e = "BUTTON" \/ Element.tagName e = "INPUT"
  \/ Element.onclick e = true.
Proof.
  unfold textCandidate, hasTag. rewrite orb_true_iff, bool_decide_eq_true.
  rewrite !elem_of_cons, elem_of_nil. tauto.
Qed.

(** A hit of the callback is a match of the text, the value or the
    placeholder. *)
Lemma probe_hit target e : probe target e = Hit -> textMatches target e = true.
Proof.
  unfold probe, textMatches.
  destruct (lowerIncludes (Some _) target); [done|].
  destruct (numericValue e); [done|]. simpl.
  by destruct (_ || _).
Qed.

(** Where no value is a number the callback is the disjunction of the
    three matches. *)
Lemma probe_strings target e :
  numericValue e = false ->
  probe target e = if textMatches target e then Hit else Miss.
Proof.
  unfold probe, textMatches. intros ->.
  destruct (lowerIncludes (Some _) target); [done|]. simpl.
  by destruct (_ || _).
Qed.

(** The element found by the text strategy is the first candidate on which
    the callback does not miss, and the callback hits on it. *)
Lemma textSearch_found target doc k i :
  textSearch target doc k = Found i ->
  exists e, k <= i /\ doc !! (i - k) = Some e /\
    textCandidate e = true /\ probe target e = Hit /\
    forall j e', j < i - k -> doc !! j = Some e' ->
      textCandidate e' = false \/ probe target e' = Miss.
Proof.
  revert k. induction doc as [|e doc IH]; intros k; simpl; [done|].
  assert (textSearch target doc (S k) = Found i ->
          exists e0, k <= i /\ (e :: doc) !! (i - k) = Some e0 /\
            textCandidate e0 = true /\ probe target e0 = Hit /\
            forall j e', j < i - k -> (e :: doc) !! j = Some e' ->
              (textCandidate e = false \/ probe target e = Miss) ->
              textCandidate e' = false \/ probe target e' = Miss) as Hrest.
  { intros (e0 & Hk & He0 & Hc & Hp & Hbefore)%IH. exists e0.
    replace (i - k) with (S (i - S k)) by lia.
    split_and!; [lia | done | done | done |].
    intros [|j] e' Hj He' Hhead; [by injection He' as <-|].
    apply (Hbefore j); [lia | done]. }
  destruct (textCandidate e) eqn:Hcand.
  - destruct (probe target e) eqn:Hprobe; [| |done].
    + intros [= <-]. exists e. rewrite Nat.sub_diag.
      split_and!; [done | done | done | done |]. intros j e' Hj. lia.
    + intros (e0 & Hk & He0 & Hc & Hp & Hbefore)%Hrest. exists e0.
      split_and!; [done..|]. intros j e' Hj He'. apply (Hbefore j); auto.
  - intros (e0 & Hk & He0 & Hc & Hp & Hbefore)%Hrest. exists e0.
    split_and!; [done..|]. intros j e' Hj He'. apply (Hbefore j); auto.
Qed.

Lemma byText_spec doc target i :
  byText doc target = Some i ->
  exists e, doc !! i = Some e /\ textCandidate e = true /\ textMatches target e = true.
Proof.
  unfold byText. destruct (textSearch target doc 0) as [j| |] eqn:Hsearch; [|done..].
  intros [= ->]. apply textSearch_found in Hsearch as (e & _ & He & Hc & Hp & _).
  rewrite Nat.sub_0_r in He. exists e. split_and!; [done | done |].
  by apply probe_hit.
Qed.

(** The id lookup sees the lower-cased target only: when no element bears
    that lower-cased id, nothing is found by id, whatever ids the document
    holds in other spellings. *)
Lemma byId_lowercased_only doc actionTarget :
  (forall e, e ∈ doc -> Element.id e <> JS.toLowerCase actionTarget) ->
  byId doc (JS.toLowerCase actionTarget) = None.
Proof.
  intros Hno. unfold byId, getElementById.
  destruct (String.eqb _ EmptyString); [done|].
  destruct (list_find _ doc) as [[i e]|] eqn:Hf; [|done].
  apply list_find_Some in Hf as (Hl & Hid & _).
  destruct (Hno e); [by eapply list_elem_of_lookup_2 | done].
Qed.

(** The text strategy never returns a [select] or a [textarea] that has no
    [onclick] attribute. *)
Lemma byText_skips_form_controls doc target i e :
  byText doc target = Some i -> doc !! i = Some e ->
  Element.onclick e = false ->
  Element.tagName e <> "SELECT" /\ Element.tagName e <> "TEXTAREA".
Proof.
  intros (e' & He' & Hc & _)%byText_spec He Hon.
  rewrite He in He'. injection He' as <-.
  apply textCandidate_spec in Hc as [H|[H|[H|H]]]; [..|congruence];
    rewrite H; split; discriminate.
Qed.

End ResolverFacts.

Lemma conforms_orNoMatch : Selectors.conforms Selectors.orNoMatch.
Proof. intros doc sel r H. unfold Selectors.orNoMatch. by rewrite H. Qed.

(** C6. The search lower-cases the target before it looks for an id, so an
    element whose id has a capital letter is never found by id.  In the
    sign-up form the field has the id [Submit] and the button's text
    contains [Submit]; asked for [Submit], the search passes the field over
    and returns the button, found by its text. *)
Theorem findElement_misses_capitalised_id
    (querySelector : list Element.t -> string -> SelectorResult) :
  Selectors.conforms querySelector ->
  signupForm !! 0 = Some submitField /\ Element.id submitField = "Submit" /\
  signupForm !! 1 = Some submitButton /\
  JS.includes (Element.textContent submitButton) "Submit" = true /\
  byId signupForm (JS.toLowerCase "Submit") = None /\
  findElement querySelector signupForm "Submit" = Some 1.
Proof.
  intros Hc. split_and!; try reflexivity.
  unfold findElement, resolve, bySelector.
  rewrite (Hc signupForm (JS.toLowerCase "Submit") NoMatch) by (vm_compute; reflexivity).
  vm_compute. reflexivity.
Qed.

(** C7. The text strategy does not look at [select] and [textarea]
    elements.  The comment box is a text area whose placeholder contains
    the target, yet it is no candidate, the search finds nothing, and typing
    into it fails and leaves the page as it was. *)
Theorem textarea_is_no_text_candidate
    (querySelector : list Element.t -> string -> SelectorResult) :
  Selectors.conforms querySelector ->
  (forall e, Element.tagName e = "SELECT" \/ Element.tagName e = "TEXTAREA" ->
             Element.onclick e = false -> textCandidate e = false) /\
  textMatches "comment" commentBox = true /\
  findElement querySelector [commentBox] "comment" = None /\
  executeIframeAction querySelector (Some (SameOrigin (pageOf [commentBox])))
                      (Action.typeInto "hello" "comment")
    = (false, Some (SameOrigin (pageOf [commentBox]))).
Proof.
  intros Hc.
  assert (resolve querySelector [commentBox] "comment" = Missing) as Hmissing.
  { unfold resolve, bySelector.
    rewrite (Hc [commentBox] (JS.toLowerCase "comment") NoMatch) by (vm_compute; reflexivity).
    vm_compute. reflexivity. }
  split_and!.
  - intros e Htag Hon. unfold textCandidate, hasTag. rewrite Hon, orb_false_r.
    apply bool_decide_eq_false. rewrite !elem_of_cons, elem_of_nil.
    intros [H|[H|[H|[]]]]; destruct Htag as [E|E]; rewrite E in H; discriminate.
  - reflexivity.
  - unfold findElement. by rewrite Hmissing.
  - unfold executeIframeAction. simpl. by rewrite Hmissing.
Qed.

(** ** ActionExecutor: selecting an option *)

Lemma optionMatches_spec needle opt :
  optionMatches needle opt = true <->
  contains (JS.toLowerCase (SelectOption.text opt)) needle \/
  contains (JS.toLowerCase (SelectOption.value opt)) needle.
Proof. unfold optionMatches. by rewrite orb_true_iff, !includes_spec. Qed.

Lemma find_no_match {A} (f : A -> bool) (l : list A) :
  (forall x, x ∈ l -> f x = false) -> find f l = None.
Proof.
  induction l as [|x l IH]; simpl; [done|]. intros H.
  rewrite (H x) by apply list_elem_of_here.
  apply IH. intros y Hy. apply H. by apply list_elem_of_further.
Qed.

Section SelectFacts.

Variable querySelector : list Element.t -> string -> SelectorResult.

Lemma executeIframeAction_select p action target i el :
  Action.type action = "select" ->
  Action.target action = Some target -> target <> EmptyString ->
  findElement querySelector (Page.elements p) target = Some i ->
  Page.elements p !! i = Some el ->
  executeIframeAction querySelector (Some (SameOrigin p)) action
  = (fst (selectOption i el action p), Some (SameOrigin (snd (selectOption i el action p)))).
Proof.
  intros Htype Htarget Hne Hfind Hel. unfold executeIframeAction.
  rewrite Htarget, Htype. simpl. apply String.eqb_neq in Hne. rewrite Hne. simpl.
  apply findElement_resolve in Hfind. rewrite Hfind, Hel. simpl.
  by destruct (selectOption i el action p).
Qed.

End SelectFacts.

(** C9. A [select] action whose target resolves to a [select] element picks
    the first option whose lower-cased label or value contains the
    lower-cased value of the action, stores that option's value and
    dispatches a change event.  When no option matches, the action still
    reports success, and the frame is exactly as before: the value of the
    element is unchanged and no event has been dispatched. *)
Theorem select_without_match_is_silent
    (querySelector : list Element.t -> string -> SelectorResult)
    (p : Page.t) (action : Action.t) (target v : string) (i : nat) (el : Element.t) :
  Action.type action = "select" ->
  Action.target action = Some target -> target <> EmptyString ->
  Action.value action = Some v ->
  findElement querySelector (Page.elements p) target = Some i ->
  Page.elements p !! i = Some el ->
  Element.tagName el = "SELECT" ->
  let frame := Some (SameOrigin p) in
  let matches := optionMatches (JS.toLowerCase v) in
  (forall opt, matches opt = true <->
     contains (JS.toLowerCase (SelectOption.text opt)) (JS.toLowerCase v) \/
     contains (JS.toLowerCase (SelectOption.value opt)) (JS.toLowerCase v)) /\
  (forall opt, find matches (Element.options el) = Some opt ->
     executeIframeAction querySelector frame action
     = (true, Some (SameOrigin (Page.dispatch i "change"
                                  (Page.set_value i (Some (SelectOption.value opt)) p))))) /\
  ((forall opt, opt ∈ Element.options el -> matches opt = false) ->
     executeIframeAction querySelector frame action = (true, frame)).
Proof.
  intros Htype Htarget Hne Hvalue Hfind Hel Htag frame matches.
  pose proof (executeIframeAction_select querySelector p action target i el
                Htype Htarget Hne Hfind Hel) as Hexec.
  assert (selectOption i el action p =
          match find matches (Element.options el) with
          | Some opt => (true, Page.dispatch i "change"
                                 (Page.set_value i (Some (SelectOption.value opt)) p))
          | None => (true, p)
          end) as Hsel.
  { unfold selectOption. by rewrite Htag, Hvalue. }
  rewrite Hsel in Hexec.
  split_and!.
  - intros opt. apply optionMatches_spec.
  - intros opt Hopt. unfold frame. rewrite Hexec. by rewrite Hopt.
  - intros Hnone. unfold frame. rewrite Hexec.
    by rewrite (find_no_match _ _ Hnone).
Qed.

(** ** Batch execution *)

Section BatchFacts.

Variable exec : Action.t -> World -> Outcome * World.
Variable during : Z -> World -> World.

Lemma runQueue_app before after w :
  runQueue exec during (before ++ after) w =
    let (earlier, w1) := runQueue exec during before w in
    let (later, w2) := runQueue exec during after w1 in
    ((earlier ++ later)%list, w2).
Proof.
  revert w. induction before as [|a before IH]; intros w; simpl.
  - by destruct (runQueue exec during after w).
  - destruct (exec a w) as [o w1]. rewrite IH.
    destruct (runQueue exec during before (pauseAfter during o w1)) as [earlier w2].
    by destruct (runQueue exec during after w2).
Qed.

Lemma runQueue_actions actions w :
  ActionResult.action <$> fst (runQueue exec during actions w) = actions.
Proof.
  revert w. induction actions as [|a actions IH]; intros w; simpl; [done|].
  destruct (exec a w) as [o w1]. specialize (IH (pauseAfter during o w1)).
  destruct (runQueue exec during actions (pauseAfter during o w1)) as [results w2].
  change (ActionResult.action (resultOf a o) :: (ActionResult.action <$> results)
          = a :: actions).
  f_equal; [by destruct o | exact IH].
Qed.

End BatchFacts.

(** On the actions modelled here no executor of the agent throws. *)
Lemma executeAction_returns querySelector URL action w :
  exists result w', executeAction querySelector URL action w = (Returned result, w').
Proof.
  unfold executeAction.
  destruct (String.eqb (Action.type action) "scroll").
  { destruct (executeScroll _ _); eauto. }
  destruct (String.eqb (Action.type action) "navigate").
  { destruct (executeNavigate _ _ _); eauto. }
  destruct (_ || _); [|eauto].
  destruct (executeIframeAction _ _ _); eauto.
Qed.

(** With the agent's own executor every result carries the flag that the
    action returned, and none carries an error. *)
Lemma executeActions_agent querySelector URL during actions w :
  isRunning w = false ->
  exists results w',
    executeActions querySelector URL during actions w = (Some results, w') /\
    ActionResult.action <$> results = actions /\
    Forall (fun r => ActionResult.error r = None) results.
Proof.
  intros Hidle. unfold executeActions, executeActionsWith. rewrite Hidle.
  set (w0 := updateStatus _ _ _). clearbody w0.
  assert (forall w1, Forall (fun r => ActionResult.error r = None)
            (fst (runQueue (executeAction querySelector URL) during actions w1))) as Hok.
  { induction actions as [|a actions IH]; intros w1; simpl; [constructor|].
    destruct (executeAction_returns querySelector URL a w1) as (b & w2 & ->).
    specialize (IH (pauseAfter during (Returned b) w2)).
    destruct (runQueue _ during actions _) as [rs w3]. simpl in *.
    by constructor. }
  specialize (Hok w0).
  pose proof (runQueue_actions (executeAction querySelector URL) during actions w0) as Hact.
  destruct (runQueue _ during actions w0) as [results w1]. simpl in *.
  eauto.
Qed.

(** C8. A batch accepted by an idle agent yields one result per action, in
    the order of the actions.  Each action runs in the world left by those
    before it, and its result records its own outcome: an action that
    returned is recorded with the flag it returned and no error, an action
    that threw is recorded as failed with the message of the exception.  A
    throw does not stop the batch: the actions after it run from the world
    the throw left, without the pause of half a second that follows an
    action that returned.  In a batch of three whose second action throws,
    the three results are the flag of the first action, a failure for the
    second and the flag, or the failure, of the third. *)
Theorem executeActions_one_result_each
    (exec : Action.t -> World -> Outcome * World) (during : Z -> World -> World)
    (w : World) :
  isRunning w = false ->
  let begin := updateStatus "running" "Executing actions..." (with_running true w) in
  let finish := fun w' => updateStatus "idle" "Agent Ready" (with_running false w') in
  let recorded := fun (action : Action.t) (o : Outcome) =>
    match o with
    | Returned flag => ActionResult.mk action flag None
    | Thrown message => ActionResult.mk action false (Some message)
    end in
  let next := fun (o : Outcome) (w' : World) =>
    match o with
    | Returned _ => during 500%Z w'
    | Thrown _ => w'
    end in
  (forall actions, exists results w',
     executeActionsWith exec during actions w = (Some results, w') /\
     ActionResult.action <$> results = actions /\
     length results = length actions) /\
  (forall before action after,
     let '(earlier, w1) := runQueue exec during before begin in
     let '(o, w2) := exec action w1 in
     let '(later, w3) := runQueue exec during after (next o w2) in
     executeActionsWith exec during (before ++ action :: after) w
       = (Some (earlier ++ recorded action o :: later)%list, finish w3) /\
     length earlier = length before /\ length later = length after) /\
  (forall a1 a2 a3,
     let '(o1, w1) := exec a1 begin in
     let '(o2, w2) := exec a2 (next o1 w1) in
     let '(o3, w3) := exec a3 (next o2 w2) in
     executeActionsWith exec during [a1; a2; a3] w
       = (Some [recorded a1 o1; recorded a2 o2; recorded a3 o3], finish (next o3 w3))) /\
  (forall a1 a2 a3 flag1 message flag3 w1 w2 w3,
     exec a1 begin = (Returned flag1, w1) ->
     exec a2 (during 500%Z w1) = (Thrown message, w2) ->
     exec a3 w2 = (Returned flag3, w3) ->
     executeActionsWith exec during [a1; a2; a3] w
       = (Some [ActionResult.mk a1 flag1 None;
                ActionResult.mk a2 false (Some message);
                ActionResult.mk a3 flag3 None],
          finish (during 500%Z w3))).
Proof.
  intros Hidle begin finish recorded next.
  assert (forall actions, executeActionsWith exec during actions w
            = (Some (fst (runQueue exec during actions begin)),
               finish (snd (runQueue exec during actions begin)))) as Hrun.
  { intros actions. unfold executeActionsWith. rewrite Hidle. fold begin.
    by destruct (runQueue exec during actions begin). }
  assert (forall actions w0, length (fst (runQueue exec during actions w0)) = length actions)
    as Hlen.
  { intros actions w0.
    rewrite <- (runQueue_actions exec during actions w0) at 2. by rewrite length_fmap. }
  split_and!.
  - intros actions. eexists _, _. split; [apply Hrun|].
    split; [apply runQueue_actions | apply Hlen].
  - intros before action after.
    pose proof (Hlen before begin) as Hb.
    rewrite Hrun, runQueue_app.
    destruct (runQueue exec during before begin) as [earlier w1]. simpl.
    destruct (exec action w1) as [o w2].
    pose proof (Hlen after (pauseAfter during o w2)) as Ha.
    change (next o w2) with (pauseAfter during o w2).
    destruct (runQueue exec during after (pauseAfter during o w2)) as [later w3].
    by simpl in *.
  - intros a1 a2 a3.
    destruct (exec a1 begin) as [o1 w1] eqn:E1.
    destruct (exec a2 (next o1 w1)) as [o2 w2] eqn:E2.
    destruct (exec a3 (next o2 w2)) as [o3 w3] eqn:E3.
    rewrite Hrun. simpl. rewrite E1.
    change (pauseAfter during o1 w1) with (next o1 w1). rewrite E2.
    change (pauseAfter during o2 w2) with (next o2 w2). by rewrite E3.
  - intros a1 a2 a3 flag1 message flag3 w1 w2 w3 E1 E2 E3.
    rewrite Hrun. simpl. rewrite E1. simpl.
    change (delay during 500%Z w1) with (during 500%Z w1). rewrite E2. simpl.
    by rewrite E3.
Qed.

(** ** The properties on the sample states *)

Example browsedCore_history :
  history browsedCore !! "tab-1"
  = Some (History.mk ["https://example.com";
                      "https://www.google.com/search?q=hello%20world";
                      "http://x.com/a"] 2).
Proof. vm_compute. reflexivity. Qed.

Example batch_sample :
  fst (executeActionsWith brittleExec quiet
         [Action.scroll "down"; Action.navigate "x.com"; Action.click "Submit"]
         (worldOf signupForm))
  = Some [ActionResult.mk (Action.scroll "down") true None;
          ActionResult.mk (Action.navigate "x.com") false (Some "navigation failed");
          ActionResult.mk (Action.click "Submit") true None].
Proof. vm_compute. reflexivity. Qed.

(** An instance of C1: the tab that visited three pages and went back once. *)
Lemma history_index_invariant_witness :
  let rs := [NewTab None; Navigate "example.com"; Navigate "hello world";
             Navigate "http://x.com/a"; GoBack] in
  let h := History.mk ["https://example.com";
                       "https://www.google.com/search?q=hello%20world";
                       "http://x.com/a"] 1 in
  history (serveAll WhatwgURL.orThrow rs (newBrowserCore blankPage)) !! "tab-1" = Some h /\
  (-1 <= History.index h <= Z.of_nat (length (History.stack h)) - 1)%Z /\
  (History.index h = (-1)%Z <-> History.stack h = []) /\
  (History.stack h <> [] ->
   (0 <= History.index h < Z.of_nat (length (History.stack h)))%Z).
Proof.
  intros rs h.
  assert (history (serveAll WhatwgURL.orThrow rs (newBrowserCore blankPage)) !! "tab-1"
          = Some h) as Hh by (vm_compute; reflexivity).
  split; [exact Hh|].
  exact (history_index_invariant WhatwgURL.orThrow blankPage rs "tab-1" h Hh).
Defined.

(** An instance of C2, on the same tab: after one step back, a navigation drops the third
    entry and appends the new URL. *)
Lemma navigate_truncates_then_appends_witness :
  let activeTab := Tab.mk "tab-1" "Loading..." (Some "http://x.com/a") false in
  let h := History.mk ["https://example.com";
                       "https://www.google.com/search?q=hello%20world";
                       "http://x.com/a"] 2 in
  JS.trim " a.b " <> EmptyString /\
  getActiveTab browsedCore = Some (0, activeTab) /\
  history browsedCore !! "tab-1" = Some h /\
  history_ok h /\
  history (navigate WhatwgURL.orThrow " a.b " (goBack browsedCore)) !! "tab-1"
  = Some (History.mk ["https://example.com";
                      "https://www.google.com/search?q=hello%20world";
                      "https://a.b"] 2).
Proof.
  intros activeTab h.
  assert (JS.trim " a.b " <> EmptyString) as H1 by (vm_compute; discriminate).
  assert (getActiveTab browsedCore = Some (0, activeTab)) as H2 by (vm_compute; reflexivity).
  assert (history browsedCore !! Tab.id activeTab = Some h) as H3 by (vm_compute; reflexivity).
  assert (history_ok h) as H4.
  { split; [simpl; lia|]. split; [simpl; lia | discriminate]. }
  refine (conj H1 (conj H2 (conj H3 (conj H4 _)))).
  destruct (navigate_truncates_then_appends WhatwgURL.orThrow browsedCore " a.b " 0
              activeTab h H1 H2 H3 H4) as (_ & Hback & _).
  exact (Hback 1).
Defined.

(** An instance of C3, on the same tab: back and then forward restores the
    history and the tabs, and forward alone does nothing at the last entry. *)
Lemma back_forward_only_move_index_witness :
  let activeTab := Tab.mk "tab-1" "Loading..." (Some "http://x.com/a") false in
  let h := History.mk ["https://example.com";
                       "https://www.google.com/search?q=hello%20world";
                       "http://x.com/a"] 2 in
  getActiveTab browsedCore = Some (0, activeTab) /\
  history browsedCore !! "tab-1" = Some h /\
  (0 < History.index h <= Z.of_nat (length (History.stack h)) - 1)%Z /\
  history (goForward (goBack browsedCore)) = history browsedCore /\
  tabs (goForward (goBack browsedCore)) = tabs browsedCore /\
  goForward browsedCore = browsedCore.
Proof.
  intros activeTab h.
  assert (getActiveTab browsedCore = Some (0, activeTab)) as H1 by (vm_compute; reflexivity).
  assert (history browsedCore !! Tab.id activeTab = Some h) as H2 by (vm_compute; reflexivity).
  assert (0 < History.index h <= Z.of_nat (length (History.stack h)) - 1)%Z as H3
    by (simpl; lia).
  destruct (back_forward_only_move_index browsedCore) as (_ & _ & Hall).
  destruct (Hall 0 activeTab h H1 H2) as (_ & Hforward & Hround).
  destruct (Hround H3) as (Hhist & t' & _ & _ & _ & Htabs).
  refine (conj H1 (conj H2 (conj H3 (conj Hhist (conj _ _))))).
  - apply Htabs. reflexivity.
  - apply Hforward. simpl. lia.
Defined.

(** An instance of C4: a registry with a single tab. *)
Lemma closeTab_keeps_a_tab_witness :
  findTab "tab-1" (tabs freshCore) = Some (0, Tab.mk "tab-1" "New Tab" None true) /\
  length (tabs freshCore) = 1 /\
  tabs (closeTab WhatwgURL.orThrow "tab-1" freshCore) = [Tab.mk "tab-2" "New Tab" None true] /\
  activeTabId (closeTab WhatwgURL.orThrow "tab-1" freshCore) = Some "tab-2".
Proof.
  assert (findTab "tab-1" (tabs freshCore) = Some (0, Tab.mk "tab-1" "New Tab" None true))
    as H1 by (vm_compute; reflexivity).
  assert (length (tabs freshCore) = 1) as H2 by reflexivity.
  destruct (closeTab_keeps_a_tab WhatwgURL.orThrow freshCore "tab-1" 0 _ H1)
    as (_ & Hlast & _ & _).
  destruct (Hlast H2) as (Htabs & _ & _ & Hactive & _).
  exact (conj H1 (conj H2 (conj Htabs Hactive))).
Defined.

(** An instance of C5, with the reference URL constructor. *)
Lemma parseUrl_three_rules_witness :
  WhatwgURL.conforms WhatwgURL.orThrow /\
  parseUrl WhatwgURL.orThrow "example.com" = "https://example.com" /\
  parseUrl WhatwgURL.orThrow "http://x.com/a" = "http://x.com/a" /\
  parseUrl WhatwgURL.orThrow "hello world" = "https://www.google.com/search?q=hello%20world".
Proof.
  split; [exact conforms_orThrow|].
  destruct (parseUrl_three_rules WhatwgURL.orThrow "example.com") as (_ & _ & _ & H).
  exact (H conforms_orThrow).
Defined.

(** An instance of C6, with the reference selector engine. *)
Lemma findElement_misses_capitalised_id_witness :
  Selectors.conforms Selectors.orNoMatch /\
  findElement Selectors.orNoMatch signupForm "Submit" = Some 1.
Proof.
  split; [exact conforms_orNoMatch|].
  destruct (findElement_misses_capitalised_id Selectors.orNoMatch conforms_orNoMatch)
    as (_ & _ & _ & _ & _ & H).
  exact H.
Defined.

(** An instance of C7, with the reference selector engine. *)
Lemma textarea_is_no_text_candidate_witness :
  Selectors.conforms Selectors.orNoMatch /\
  findElement Selectors.orNoMatch [commentBox] "comment" = None.
Proof.
  split; [exact conforms_orNoMatch|].
  destruct (textarea_is_no_text_candidate Selectors.orNoMatch conforms_orNoMatch)
    as (_ & _ & H & _).
  exact H.
Defined.

(** An instance of C8: a batch of three whose second action throws.  The
    click that finds no element is recorded with the [false] it returned,
    the navigation as failed with its message, the click on the button with
    the [true] it returned. *)
Lemma executeActions_one_result_each_witness :
  let batch := [Action.click "Cancel"; Action.navigate "x.com"; Action.click "Submit"] in
  isRunning (worldOf signupForm) = false /\
  (exists results w',
     executeActionsWith brittleExec quiet batch (worldOf signupForm) = (Some results, w') /\
     ActionResult.action <$> results = batch /\
     length results = length batch) /\
  fst (executeActionsWith brittleExec quiet batch (worldOf signupForm))
  = Some [ActionResult.mk (Action.click "Cancel") false None;
          ActionResult.mk (Action.navigate "x.com") false (Some "navigation failed");
          ActionResult.mk (Action.click "Submit") true None].
Proof.
  intros batch.
  assert (isRunning (worldOf signupForm) = false) as Hidle by reflexivity.
  split; [exact Hidle|].
  destruct (executeActions_one_result_each brittleExec quiet (worldOf signupForm) Hidle)
    as (Hall & _ & _ & Hthree).
  split; [exact (Hall batch)|].
  unfold batch. erewrite Hthree; [reflexivity | reflexivity ..].
Defined.

(** An instance of C9, on the country form: no option contains the text
    asked for. *)
Lemma select_without_match_is_silent_witness :
  let p := pageOf countryForm in
  let action := Action.select "Germany" "country" in
  findElement Selectors.orNoMatch (Page.elements p) "country" = Some 1 /\
  Page.elements p !! 1 = Some countryChoice /\
  Element.tagName countryChoice = "SELECT" /\
  executeIframeAction Selectors.orNoMatch (Some (SameOrigin p)) action
  = (true, Some (SameOrigin p)).
Proof.
  intros p action.
  assert (findElement Selectors.orNoMatch (Page.elements p) "country" = Some 1) as H1
    by (vm_compute; reflexivity).
  assert (Page.elements p !! 1 = Some countryChoice) as H2 by reflexivity.
  assert (Element.tagName countryChoice = "SELECT") as H3 by reflexivity.
  refine (conj H1 (conj H2 (conj H3 _))).
  assert ("country" <> EmptyString) as Hne by discriminate.
  destruct (select_without_match_is_silent Selectors.orNoMatch p action "country" "Germany"
              1 countryChoice eq_refl eq_refl Hne eq_refl H1 H2 H3) as (_ & _ & Hsilent).
  apply Hsilent. intros opt Hin.
  apply elem_of_cons in Hin as [-> | Hin]; [vm_compute; reflexivity|].
  apply elem_of_cons in Hin as [-> | Hin]; [vm_compute; reflexivity|].
  by apply elem_of_nil in Hin.
Defined.

(** An instance of C10: an input of three spaces. *)
Lemma navigate_blank_is_noop_witness :
  JS.allChars JS.isWhiteSpace "   " = true /\
  navigate WhatwgURL.orThrow "   " browsedCore = browsedCore.
Proof.
  assert (JS.allChars JS.isWhiteSpace "   " = true) as H by reflexivity.
  split; [exact H|].
  exact (navigate_blank_is_noop WhatwgURL.orThrow "   " browsedCore H).
Defined.

(** * Further properties of the registry *)

Lemma tabName_inj : Inj (=) (=) tabName.
Proof.
  intros m n H. unfold tabName in H.
  apply (inj (String.app "tab-")) in H. by apply (inj pretty) in H.
Qed.

Lemma tabIds_alter (f : Tab.t -> Tab.t) (i : nat) (ts : list Tab.t) :
  (forall x, Tab.id (f x) = Tab.id x) ->
  Tab.id <$> alter f i ts = Tab.id <$> ts.
Proof.
  intros Hf. apply list_eq. intros j. rewrite !list_lookup_fmap.
  destruct (decide (j = i)) as [->|Hne].
  - rewrite list_lookup_alter_eq. destruct (ts !! i); simpl; [by rewrite Hf | done].
  - by rewrite list_lookup_alter_ne.
Qed.

Lemma findTab_elem tabId (ts : list Tab.t) :
  is_Some (findTab tabId ts) <-> tabId ∈ Tab.id <$> ts.
Proof.
  split.
  - intros [[i t] (Hl & Hid & _)%list_find_Some].
    apply list_elem_of_fmap. exists t. split; [done|]. by eapply list_elem_of_lookup_2.
  - intros (t & -> & Hin)%list_elem_of_fmap.
    by apply (list_find_elem_of _ _ t).
Qed.

Lemma getActiveTab_elem s :
  is_Some (getActiveTab s) <-> exists a, activeTabId s = Some a /\ a ∈ tabIds s.
Proof.
  unfold getActiveTab, tabIds. destruct (activeTabId s) as [a|].
  - rewrite findTab_elem. split; [eauto | by intros (a' & [= <-] & H)].
  - split; [by intros [? ?] | by intros (? & ? & _)].
Qed.

Lemma registry_ok_ids s : registry_ok s -> ids_ok s.
Proof. intros (H1 & H2 & H3 & _). by split_and!. Qed.

Lemma registry_ok_shape s s' : shape s' = shape s -> registry_ok s -> registry_ok s'.
Proof.
  unfold shape, registry_ok. intros [= Hids Hdom Hact Hc].
  by rewrite Hids, Hdom, Hact, Hc.
Qed.

Lemma dom_insert_present (m : gmap string History.t) k h h' :
  m !! k = Some h -> dom (<[k := h']> m) = dom m.
Proof. intros H. apply dom_insert_lookup_L. eauto. Qed.

Section RegistryShape.

Variable URL : string -> UrlResult.

Lemma shape_switchToTab tabId s :
  shape (switchToTab tabId s) =
    if decide (tabId ∈ tabIds s)
    then (tabIds s, dom (history s), Some tabId, tabIdCounter s)
    else shape s.
Proof.
  unfold switchToTab. case_decide as Hin.
  - apply findTab_elem in Hin as [[i tab] Hf]. rewrite Hf.
    by destruct (Tab.isHome tab || negb (JS.truthy (Tab.url tab))).
  - destruct (findTab tabId (tabs s)) as [[i tab]|] eqn:Hf; [|done].
    destruct Hin. apply findTab_elem. eauto.
Qed.

Lemma shape_navigate input s : shape (navigate URL input s) = shape s.
Proof.
  unfold navigate.
  destruct (String.eqb input EmptyString || String.eqb (JS.trim input) EmptyString); [done|].
  destruct (getActiveTab s) as [[i activeTab]|]; [|done].
  unfold shape, tabIds. simpl.
  destruct (history s !! Tab.id activeTab) as [h|] eqn:Hh; simpl.
  - rewrite tabIds_alter by done. by rewrite (dom_insert_present _ _ _ _ Hh).
  - by rewrite tabIds_alter.
Qed.

Lemma shape_moveTo i activeTab h index s :
  history s !! Tab.id activeTab = Some h ->
  shape (moveTo i activeTab h index s) = shape s.
Proof.
  intros Hh. unfold shape, tabIds, moveTo. simpl.
  rewrite tabIds_alter by done. by rewrite (dom_insert_present _ _ _ _ Hh).
Qed.

Lemma shape_goBack s : shape (goBack s) = shape s.
Proof.
  unfold goBack. destruct (getActiveTab s) as [[i activeTab]|]; [|done].
  destruct (history s !! Tab.id activeTab) as [h|] eqn:Hh; [|done].
  destruct (0 <? History.index h)%Z; [by apply shape_moveTo | done].
Qed.

Lemma shape_goForward s : shape (goForward s) = shape s.
Proof.
  unfold goForward. destruct (getActiveTab s) as [[i activeTab]|]; [|done].
  destruct (history s !! Tab.id activeTab) as [h|] eqn:Hh; [|done].
  destruct (History.index h <? _)%Z; [by apply shape_moveTo | done].
Qed.

Lemma shape_reload s : shape (reload s) = shape s.
Proof.
  unfold reload. destruct (getActiveTab s) as [[i t]|]; [|done].
  by destruct (JS.truthy (Tab.url t)).
Qed.

Lemma shape_goHome s : shape (goHome s) = shape s.
Proof.
  unfold goHome. destruct (getActiveTab s) as [[i t]|]; [|done].
  unfold shape, tabIds. simpl. by rewrite tabIds_alter.
Qed.

(** The id that the next tab receives is borne by no tab. *)
Lemma next_id_fresh s : ids_ok s -> tabName (S (tabIdCounter s)) ∉ tabIds s.
Proof.
  intros (_ & Hissued & _) Hin.
  destruct (Hissued _ Hin) as (n & Heq & Hn).
  apply tabName_inj in Heq. lia.
Qed.

Lemma registry_ok_createNewTab url s :
  ids_ok s -> registry_ok (snd (createNewTab URL url s)).
Proof.
  intros Hok. pose proof (next_id_fresh s Hok) as Hfresh.
  destruct Hok as (Hnd & Hissued & Hdom).
  unfold createNewTab. simpl.
  set (tabId := tabName (S (tabIdCounter s))) in *.
  set (tab := Tab.mk tabId "New Tab" url (negb (JS.truthy url))).
  set (s1 := with_history _ (with_tabs _ (with_counter _ s))).
  assert (tabIds s1 = (tabIds s ++ [tabId])%list) as Hids.
  { unfold tabIds, s1. simpl. by rewrite fmap_app. }
  assert (registry_ok (switchToTab tabId s1)) as Hsw.
  { unfold registry_ok.
    assert (shape (switchToTab tabId s1)
            = (tabIds s1, dom (history s1), Some tabId, tabIdCounter s1)) as Hshape.
    { rewrite shape_switchToTab. rewrite decide_True; [done|].
      rewrite Hids. apply elem_of_app. right. by apply list_elem_of_singleton. }
    injection Hshape as -> -> -> ->. rewrite Hids. split_and!.
    - apply NoDup_app. split_and!; [done | | apply NoDup_singleton].
      intros x Hx ->%list_elem_of_singleton. done.
    - intros x [Hx | ->%list_elem_of_singleton]%elem_of_app.
      + destruct (Hissued x Hx) as (n & -> & Hn). exists n. simpl. split; [done | lia].
      + exists (S (tabIdCounter s)). simpl. split; [done | lia].
    - unfold s1. simpl. rewrite dom_insert_L, Hdom. apply set_eq. intros x.
      rewrite !elem_of_union, !elem_of_list_to_set, elem_of_app,
        elem_of_singleton, list_elem_of_singleton. tauto.
    - assert (tabId ∈ (tabIds s ++ [tabId])%list) as Hin.
      { apply elem_of_app. right. by apply list_elem_of_singleton. }
      destruct (tabIds s ++ [tabId])%list; [by apply elem_of_nil in Hin | eauto]. }
  destruct (JS.truthy url); [|done].
  eapply registry_ok_shape; [apply shape_navigate | done].
Qed.

Lemma elem_of_delete_other {A} (l : list A) i x y :
  x ∈ l -> l !! i = Some y -> x <> y -> x ∈ delete i l.
Proof.
  intros [j Hj]%list_elem_of_lookup Hi Hne.
  assert (j <> i) as Hji by (intros ->; congruence).
  apply list_elem_of_lookup.
  destruct (decide (j < i)).
  - exists j. by rewrite list_lookup_delete_lt.
  - exists (pred j). rewrite list_lookup_delete_ge by lia.
    by replace (S (pred j)) with j by lia.
Qed.

Lemma ids_ok_close tabId index t s :
  findTab tabId (tabs s) = Some (index, t) -> ids_ok s ->
  ids_ok (with_history (delete tabId) (with_tabs (delete index) s)).
Proof.
  intros (Hl & Hid & _)%list_find_Some (Hnd & Hissued & Hdom).
  assert (tabIds s !! index = Some tabId) as Hix.
  { unfold tabIds. by rewrite list_lookup_fmap, Hl, <- Hid. }
  unfold ids_ok, tabIds in *. simpl. rewrite list_fmap_delete. split_and!.
  - eapply sublist_NoDup; [done | apply sublist_delete].
  - intros x Hx. apply Hissued. by eapply list_elem_of_delete_inv.
  - rewrite dom_delete_L, Hdom. apply set_eq. intros x.
    rewrite elem_of_difference, !elem_of_list_to_set, elem_of_singleton. split.
    + intros [Hx Hne]. by eapply elem_of_delete_other.
    + intros Hx. split; [by eapply list_elem_of_delete_inv|].
      intros ->. revert Hx.
      change (tabId ∉ delete index (Tab.id <$> tabs s)).
      rewrite <- list_fmap_delete, <- Hid. by apply delete_unique_id.
Qed.

Lemma registry_ok_closeTab tabId s : registry_ok s -> registry_ok (closeTab URL tabId s).
Proof.
  intros Hok.
  destruct (findTab tabId (tabs s)) as [[index t]|] eqn:Hf;
    [|unfold closeTab; by rewrite Hf].
  rewrite (closeTab_unfold URL tabId s index t Hf).
  pose proof (ids_ok_close tabId index t s Hf (registry_ok_ids s Hok)) as Hids.
  set (s1 := with_history (delete tabId) (with_tabs (delete index) s)) in *.
  assert (tabs s1 = delete index (tabs s)) as Hts by done.
  pose proof Hf as (Hl & Hid & _)%list_find_Some.
  destruct (delete index (tabs s)) as [|x xs] eqn:Hdel.
  - by apply registry_ok_createNewTab.
  - destruct Hids as (H1 & H2 & H3).
    case_bool_decide as Hactive.
    + destruct ((x :: xs) !! _) as [y|] eqn:Hy.
      * assert (Tab.id y ∈ tabIds s1) as Hin.
        { unfold tabIds. rewrite Hts. apply list_elem_of_fmap. exists y.
          split; [done|]. by eapply list_elem_of_lookup_2. }
        pose proof (shape_switchToTab (Tab.id y) s1) as Hshape.
        rewrite decide_True in Hshape by done.
        unfold registry_ok. injection Hshape as -> -> -> ->. split_and!; [done..|].
        destruct (tabIds s1); [by apply elem_of_nil in Hin | eauto].
      * unfold registry_ok. split_and!; [done..|].
        apply lookup_ge_None in Hy. simpl in Hy. lia.
    + unfold registry_ok. split_and!; [done..|].
      destruct Hok as (_ & _ & _ & Hact).
      assert (tabIds s <> []) as Hne.
      { unfold tabIds. intros E. apply fmap_nil_inv in E. by rewrite E in Hl. }
      destruct (tabIds s) as [|i0 ids] eqn:Heq; [done|].
      destruct Hact as (a & Ha & Hin). rewrite <- Heq in Hin.
      assert (a ∈ tabIds s1) as Hin'.
      { unfold tabIds, s1. simpl. rewrite list_fmap_delete.
        eapply elem_of_delete_other; [exact Hin | |].
        - by rewrite list_lookup_fmap, Hl.
        - rewrite Hid. intros ->. by rewrite Ha in Hactive. }
      change (activeTabId s1) with (activeTabId s).
      destruct (tabIds s1); [by apply elem_of_nil in Hin' | eauto].
Qed.

Lemma registry_ok_serve s r : registry_ok s -> registry_ok (serve URL s r).
Proof.
  intros Hok. destruct r; simpl.
  - apply registry_ok_createNewTab. by apply registry_ok_ids.
  - by apply registry_ok_closeTab.
  - pose proof (shape_switchToTab tabId s) as Hshape. case_decide as Hin.
    + destruct Hok as (H1 & H2 & H3 & H4). unfold registry_ok.
      injection Hshape as -> -> -> ->. split_and!; [done..|].
      destruct (tabIds s); [by apply elem_of_nil in Hin | eauto].
    + by eapply registry_ok_shape.
  - eapply registry_ok_shape; [apply shape_navigate | done].
  - eapply registry_ok_shape; [apply shape_goBack | done].
  - eapply registry_ok_shape; [apply shape_goForward | done].
  - eapply registry_ok_shape; [apply shape_reload | done].
  - eapply registry_ok_shape; [apply shape_goHome | done].
Qed.

Lemma registry_ok_serveAll rs s : registry_ok s -> registry_ok (serveAll URL rs s).
Proof.
  revert s. induction rs as [|r rs IH]; intros s Hs; simpl; [done|].
  apply IH. by apply registry_ok_serve.
Qed.

Lemma registry_ok_new p : registry_ok (newBrowserCore p).
Proof.
  unfold registry_ok, tabIds. simpl. split_and!; [constructor | | apply dom_empty_L | done].
  intros x Hx. by apply elem_of_nil in Hx.
Qed.

End RegistryShape.

(** X1. Whatever requests a registry has served since its construction, the
    ids of its tabs are distinct and were issued by the counter, so no id is
    ever used twice; the histories are keyed by exactly the ids of the tabs;
    and as soon as there is a tab, the active id names one of the tabs. *)
Theorem registry_invariant (URL : string -> UrlResult) (p : Chrome.t) (rs : list Request) :
  let s := serveAll URL rs (newBrowserCore p) in
  NoDup (tabIds s) /\
  (forall tabId, tabId ∈ tabIds s ->
     exists n, tabId = tabName n /\ 1 <= n <= tabIdCounter s) /\
  (tabName (S (tabIdCounter s)) ∉ tabIds s) /\
  (forall tabId, is_Some (history s !! tabId) <-> tabId ∈ tabIds s) /\
  (tabs s <> [] -> is_Some (getActiveTab s)).
Proof.
  intros s.
  assert (registry_ok s) as Hok
    by (apply registry_ok_serveAll, registry_ok_new).
  pose proof (next_id_fresh s (registry_ok_ids s Hok)) as Hfresh.
  destruct Hok as (H1 & H2 & H3 & H4). split_and!; [done..| |].
  - intros tabId. rewrite <- elem_of_dom, H3. apply elem_of_list_to_set.
  - intros Hne. apply getActiveTab_elem.
    destruct (tabIds s) eqn:E; [|done].
    unfold tabIds in E. by apply fmap_nil_inv in E.
Qed.

(** ** The history buttons *)

Lemma activeHistory_alt s :
  activeHistory s =
    match activeTabId s with
    | Some a => if decide (a ∈ tabIds s) then history s !! a else None
    | None => None
    end.
Proof.
  unfold activeHistory, getActiveTab. destruct (activeTabId s) as [a|]; [|done].
  destruct (findTab a (tabs s)) as [[i t]|] eqn:Hf.
  - rewrite (findTab_id _ _ _ _ Hf). rewrite decide_True; [done|].
    apply findTab_elem. eauto.
  - rewrite decide_False; [done|]. intros Hin%findTab_elem. rewrite Hf in Hin.
    by destruct Hin.
Qed.

Lemma activeHistory_shape s s' :
  tabIds s' = tabIds s -> activeTabId s' = activeTabId s -> history s' = history s ->
  activeHistory s' = activeHistory s.
Proof. intros H1 H2 H3. by rewrite !activeHistory_alt, H1, H2, H3. Qed.

Lemma buttons_ok_same s s' :
  activeHistory s' = activeHistory s ->
  Chrome.backDisabled (page s') = Chrome.backDisabled (page s) ->
  Chrome.forwardDisabled (page s') = Chrome.forwardDisabled (page s) ->
  buttons_ok s -> buttons_ok s'.
Proof.
  unfold buttons_ok, canGoBack, canGoForward. intros -> -> ->. done.
Qed.

Lemma buttons_ok_update s : buttons_ok (updateNavigationButtons s).
Proof.
  unfold buttons_ok, canGoBack, canGoForward.
  change (activeHistory (updateNavigationButtons s)) with (activeHistory s).
  unfold updateNavigationButtons, activeHistory. simpl.
  destruct (getActiveTab s) as [[i t]|]; [|done].
  destruct (history s !! Tab.id t) as [h|]; [|done].
  split; [apply Z.leb_antisym|]. rewrite Z.geb_leb. apply Z.leb_antisym.
Qed.

Lemma goBack_fixed s : goBack s = s <-> canGoBack s = false.
Proof.
  unfold goBack, canGoBack, activeHistory.
  destruct (getActiveTab s) as [[i t]|]; [|done].
  destruct (history s !! Tab.id t) as [h|]; [|done].
  destruct (0 <? History.index h)%Z; [|done].
  split; [|done]. intros H.
  apply (f_equal (fun x => Chrome.armedTimeouts (page x))) in H. simpl in H. lia.
Qed.

Lemma goForward_fixed s : goForward s = s <-> canGoForward s = false.
Proof.
  unfold goForward, canGoForward, activeHistory.
  destruct (getActiveTab s) as [[i t]|]; [|done].
  destruct (history s !! Tab.id t) as [h|]; [|done].
  destruct (History.index h <? _)%Z; [|done].
  split; [|done]. intros H.
  apply (f_equal (fun x => Chrome.armedTimeouts (page x))) in H. simpl in H. lia.
Qed.

Lemma getActiveTab_nonempty s x : getActiveTab s = Some x -> tabs s <> [].
Proof.
  unfold getActiveTab, findTab. intros H E. rewrite E in H. by destruct (activeTabId s).
Qed.

Section Buttons.

Variable URL : string -> UrlResult.

Lemma buttons_ok_switchToTab tabId s :
  tabId ∈ tabIds s -> buttons_ok (switchToTab tabId s).
Proof.
  intros [[i tab] Hf]%findTab_elem. unfold switchToTab. rewrite Hf.
  destruct (Tab.isHome tab || negb (JS.truthy (Tab.url tab)));
    (eapply buttons_ok_same; [| | |apply buttons_ok_update]); reflexivity.
Qed.

Lemma buttons_ok_navigate input s : buttons_ok s -> buttons_ok (navigate URL input s).
Proof.
  intros Hok. unfold navigate.
  destruct (String.eqb input EmptyString || String.eqb (JS.trim input) EmptyString); [done|].
  destruct (getActiveTab s) as [[i activeTab]|]; [|done].
  apply buttons_ok_update.
Qed.

Lemma buttons_ok_createNewTab url s :
  ids_ok s -> buttons_ok (snd (createNewTab URL url s)).
Proof.
  intros Hok. unfold createNewTab. simpl.
  set (s1 := with_history _ (with_tabs _ (with_counter _ s))).
  assert (buttons_ok (switchToTab (tabName (S (tabIdCounter s))) s1)) as Hsw.
  { apply buttons_ok_switchToTab. unfold tabIds, s1. simpl. rewrite fmap_app.
    apply elem_of_app. right. by apply list_elem_of_singleton. }
  destruct (JS.truthy url); [by apply buttons_ok_navigate | done].
Qed.

Lemma buttons_ok_closeTab tabId s :
  registry_ok s -> buttons_ok s -> buttons_ok (closeTab URL tabId s).
Proof.
  intros Hreg Hok.
  destruct (findTab tabId (tabs s)) as [[index t]|] eqn:Hf;
    [|unfold closeTab; by rewrite Hf].
  rewrite (closeTab_unfold URL tabId s index t Hf).
  pose proof (ids_ok_close tabId index t s Hf (registry_ok_ids s Hreg)) as Hids.
  set (s1 := with_history (delete tabId) (with_tabs (delete index) s)) in *.
  pose proof Hf as (Hl & Hid & _)%list_find_Some.
  destruct (delete index (tabs s)) as [|x xs] eqn:Hdel.
  - by apply buttons_ok_createNewTab.
  - case_bool_decide as Hactive.
    + destruct ((x :: xs) !! _) as [y|] eqn:Hy.
      * apply buttons_ok_switchToTab. unfold tabIds, s1. simpl. rewrite Hdel.
        apply list_elem_of_fmap. exists y. split; [done|]. by eapply list_elem_of_lookup_2.
      * apply lookup_ge_None in Hy. simpl in Hy. lia.
    + eapply buttons_ok_same; [| | |exact Hok]; [|done..].
      rewrite !activeHistory_alt. change (activeTabId s1) with (activeTabId s).
      destruct (activeTabId s) as [a|] eqn:Ha; [|done].
      assert (a <> tabId) as Hne by (intros ->; done).
      assert (history s1 !! a = history s !! a) as ->.
      { unfold s1. simpl. by rewrite lookup_delete_ne. }
      destruct (decide (a ∈ tabIds s)) as [Hin|Hout].
      * rewrite decide_True; [done|]. unfold tabIds, s1. simpl.
        rewrite list_fmap_delete. eapply elem_of_delete_other; [exact Hin | |].
        -- by rewrite list_lookup_fmap, Hl.
        -- by rewrite Hid.
      * rewrite decide_False; [done|]. intros Hin. apply Hout.
        unfold tabIds, s1 in Hin. simpl in Hin. rewrite list_fmap_delete in Hin.
        by eapply list_elem_of_delete_inv.
Qed.

(** Well-formedness together with up-to-date buttons once there is a
    tab. *)
Lemma buttons_ok_serve s r :
  registry_ok s -> (tabs s <> [] -> buttons_ok s) ->
  tabs (serve URL s r) <> [] -> buttons_ok (serve URL s r).
Proof.
  intros Hreg Hok. destruct r; simpl.
  - intros _. apply buttons_ok_createNewTab. by apply registry_ok_ids.
  - intros Hne. destruct (tabs s) as [|x xs] eqn:Hts.
    + unfold closeTab, findTab in *. rewrite Hts in *. simpl in *. by rewrite Hts in Hne.
    + apply buttons_ok_closeTab; [done|]. by apply Hok.
  - destruct (decide (tabId ∈ tabIds s)) as [Hin|Hout].
    + intros _. by apply buttons_ok_switchToTab.
    + assert (switchToTab tabId s = s) as ->; [|done].
      unfold switchToTab. destruct (findTab tabId (tabs s)) eqn:Hf; [|done].
      destruct Hout. apply findTab_elem. eauto.
  - intros Hne. apply buttons_ok_navigate. apply Hok.
    intros E. pose proof (shape_navigate URL input s) as Hs.
    unfold shape, tabIds in Hs. injection Hs as Hs _ _ _. rewrite E in Hs.
    by apply fmap_nil_inv in Hs.
  - intros Hne. unfold goBack in *. destruct (getActiveTab s) as [[i t]|] eqn:Ha; [|auto].
    pose proof (getActiveTab_nonempty s _ Ha) as Hts.
    destruct (history s !! Tab.id t) as [h|]; [|auto].
    destruct (0 <? History.index h)%Z; [apply buttons_ok_update | auto].
  - intros Hne. unfold goForward in *. destruct (getActiveTab s) as [[i t]|] eqn:Ha; [|auto].
    pose proof (getActiveTab_nonempty s _ Ha) as Hts.
    destruct (history s !! Tab.id t) as [h|]; [|auto].
    destruct (History.index h <? _)%Z; [apply buttons_ok_update | auto].
  - intros Hne. unfold reload in *. destruct (getActiveTab s) as [[i t]|]; [|auto].
    destruct (JS.truthy (Tab.url t)); [|auto].
    eapply buttons_ok_same; [| | |apply Hok]; [done..|]. exact Hne.
  - intros Hne. unfold goHome in *. destruct (getActiveTab s) as [[i t]|]; [|auto].
    eapply buttons_ok_same; [| | |apply Hok]; [|done..|].
    + apply activeHistory_shape; [|done..]. unfold tabIds. simpl. by apply tabIds_alter.
    + intros E. apply Hne. simpl. rewrite E. by destruct i.
Qed.

Lemma buttons_ok_serveAll rs s :
  registry_ok s -> (tabs s <> [] -> buttons_ok s) ->
  tabs (serveAll URL rs s) <> [] -> buttons_ok (serveAll URL rs s).
Proof.
  revert s. induction rs as [|r rs IH]; intros s Hreg Hok; simpl; [done|].
  apply IH; [by apply registry_ok_serve | by apply buttons_ok_serve].
Qed.

End Buttons.

(** X2. Once a registry holds a tab, whatever requests it has served, its
    two history buttons are up to date: the back button is disabled exactly
    when [goBack] would leave the state as it is, and the forward button
    exactly when [goForward] would. *)
Theorem buttons_follow_history (URL : string -> UrlResult) (p : Chrome.t) (rs : list Request) :
  let s := serveAll URL rs (newBrowserCore p) in
  tabs s <> [] ->
  (Chrome.backDisabled (page s) = true <-> goBack s = s) /\
  (Chrome.forwardDisabled (page s) = true <-> goForward s = s).
Proof.
  intros s Hne.
  assert (buttons_ok s) as [Hb Hf].
  { apply buttons_ok_serveAll; [apply registry_ok_new | done | done]. }
  rewrite Hb, Hf, goBack_fixed, goForward_fixed.
  split; apply negb_true_iff.
Qed.

(** ** Navigation stays within the active tab *)

Lemma sameElsewhere_refl i tabId s s' :
  tabs s' = tabs s -> history s' = history s -> activeTabId s' = activeTabId s ->
  tabIdCounter s' = tabIdCounter s -> sameElsewhere i tabId s s'.
Proof. intros H1 H2 H3 H4. unfold sameElsewhere. by rewrite H1, H2, H3, H4. Qed.

Lemma sameElsewhere_alter i tabId (f : Tab.t -> Tab.t) s s' :
  (forall x, Tab.id (f x) = Tab.id x) ->
  tabs s' = alter f i (tabs s) ->
  (forall k, k <> tabId -> history s' !! k = history s !! k) ->
  activeTabId s' = activeTabId s -> tabIdCounter s' = tabIdCounter s ->
  sameElsewhere i tabId s s'.
Proof.
  intros Hf Hts Hh Ha Hc. unfold sameElsewhere. rewrite Hts. split_and!; [| | |done..].
  - apply length_alter.
  - intros j Hj. by apply list_lookup_alter_ne.
  - rewrite list_lookup_alter_eq. destruct (tabs s !! i); simpl; [by rewrite Hf | done].
Qed.

(** X3. [navigate], [goBack], [goForward], [reload] and [goHome] act on the
    active tab only: the other tabs, the histories of the other tabs, the
    number and the ids of the tabs, the active id and the counter stay as
    they are.  Without an active tab each of them leaves the whole state as
    it is. *)
Theorem navigation_stays_in_active_tab (URL : string -> UrlResult) (s : BrowserCore) :
  (forall i activeTab input, getActiveTab s = Some (i, activeTab) ->
     sameElsewhere i (Tab.id activeTab) s (navigate URL input s) /\
     sameElsewhere i (Tab.id activeTab) s (goBack s) /\
     sameElsewhere i (Tab.id activeTab) s (goForward s) /\
     sameElsewhere i (Tab.id activeTab) s (reload s) /\
     sameElsewhere i (Tab.id activeTab) s (goHome s)) /\
  (getActiveTab s = None ->
     (forall input, navigate URL input s = s) /\
     goBack s = s /\ goForward s = s /\ reload s = s /\ goHome s = s).
Proof.
  split.
  - intros i activeTab input Hact.
    assert (forall h index, history s !! Tab.id activeTab = Some h ->
              sameElsewhere i (Tab.id activeTab) s (moveTo i activeTab h index s)) as Hmove.
    { intros h index Hh. eapply sameElsewhere_alter; [| reflexivity | | done..]; [done|].
      intros k Hk. unfold moveTo. simpl. by rewrite lookup_insert_ne. }
    split_and!.
    + unfold navigate.
      destruct (String.eqb input EmptyString || String.eqb (JS.trim input) EmptyString);
        [by apply sameElsewhere_refl|].
      rewrite Hact. simpl.
      destruct (history s !! Tab.id activeTab) as [h|] eqn:Hh.
      * eapply sameElsewhere_alter; [| reflexivity | | done..]; [done|].
        intros k Hk. simpl. by rewrite lookup_insert_ne.
      * eapply sameElsewhere_alter; [| reflexivity | | done..]; done.
    + unfold goBack. rewrite Hact.
      destruct (history s !! Tab.id activeTab) as [h|] eqn:Hh;
        [|by apply sameElsewhere_refl].
      destruct (0 <? History.index h)%Z; [by apply Hmove | by apply sameElsewhere_refl].
    + unfold goForward. rewrite Hact.
      destruct (history s !! Tab.id activeTab) as [h|] eqn:Hh;
        [|by apply sameElsewhere_refl].
      destruct (History.index h <? _)%Z; [by apply Hmove | by apply sameElsewhere_refl].
    + unfold reload. rewrite Hact.
      destruct (JS.truthy (Tab.url activeTab)); by apply sameElsewhere_refl.
    + unfold goHome. rewrite Hact.
      eapply sameElsewhere_alter; [| reflexivity | | done..]; done.
  - intros Hnone. unfold navigate, goBack, goForward, reload, goHome. rewrite Hnone.
    split_and!; [|done..]. intros input. by destruct (_ || _).
Qed.

(** ** Opening tabs *)

Section OpenClose.

Variable URL : string -> UrlResult.

Lemma findTab_appended (ts : list Tab.t) (tab : Tab.t) :
  Tab.id tab ∉ Tab.id <$> ts ->
  findTab (Tab.id tab) (ts ++ [tab]) = Some (length ts, tab).
Proof.
  intros Hfresh. unfold findTab. apply list_find_Some. split_and!.
  - by apply list_lookup_middle.
  - done.
  - intros j y Hj Hlt Hy. rewrite lookup_app_l in Hj by done.
    apply Hfresh. apply list_elem_of_fmap. exists y. split; [done|].
    by eapply list_elem_of_lookup_2.
Qed.

Lemma trim_nonempty input : JS.trim input <> EmptyString -> input <> EmptyString.
Proof. intros H ->. by apply H. Qed.

Lemma navigate_page input s i activeTab :
  JS.trim input <> EmptyString ->
  getActiveTab s = Some (i, activeTab) ->
  let url := parseUrl URL (JS.trim input) in
  let p := page (navigate URL input s) in
  Chrome.urlInput p = url /\ Chrome.frameSrc p = Some url /\
  Chrome.welcomePage p = false /\ Chrome.iframeContainer p = true /\
  Chrome.loadingOverlay p = true /\ Chrome.errorOverlay p = false /\
  Chrome.armedTimeouts p = S (Chrome.armedTimeouts (page s)).
Proof.
  intros Hne Hact. unfold navigate.
  pose proof (trim_nonempty input Hne) as Hin.
  apply String.eqb_neq in Hne, Hin. rewrite Hne, Hin, Hact. simpl.
  by destruct (history s !! Tab.id activeTab).
Qed.

End OpenClose.

(** X4. On a well-formed registry, opening a tab with a non-blank URL
    issues the next id, which no tab bears yet, appends a tab that is not a
    home tab and holds the resolved URL, makes it active and gives it a
    history of exactly that one URL; the other tabs and histories are kept.
    The frame is pointed at the resolved URL, and two load timeouts have
    been armed on the way: one by [switchToTab], one by [navigate]. *)
Theorem createNewTab_with_url (URL : string -> UrlResult) (s : BrowserCore) (url : string) :
  registry_ok s ->
  JS.trim url <> EmptyString ->
  let tabId := fst (createNewTab URL (Some url) s) in
  let s' := snd (createNewTab URL (Some url) s) in
  let resolved := parseUrl URL (JS.trim url) in
  tabId = tabName (S (tabIdCounter s)) /\
  (tabId ∉ tabIds s) /\
  tabs s' = (tabs s ++ [Tab.mk tabId "Loading..." (Some resolved) false])%list /\
  activeTabId s' = Some tabId /\
  history s' = <[tabId := History.mk [resolved] 0]> (history s) /\
  tabIdCounter s' = S (tabIdCounter s) /\
  Chrome.frameSrc (page s') = Some resolved /\
  Chrome.armedTimeouts (page s') = S (S (Chrome.armedTimeouts (page s))).
Proof.
  intros Hok Hne tabId s' resolved.
  pose proof (next_id_fresh s (registry_ok_ids s Hok)) as Hfresh.
  pose proof (trim_nonempty url Hne) as Hurl.
  assert (JS.truthy (Some url) = true) as Htruthy.
  { simpl. apply String.eqb_neq in Hurl. by rewrite Hurl. }
  set (id := tabName (S (tabIdCounter s))) in *.
  set (tab := Tab.mk id "New Tab" (Some url) false).
  set (s1 := with_history (insert id History.empty)
               (with_tabs (fun ts => (ts ++ [tab])%list)
                  (with_counter (S (tabIdCounter s)) s))).
  assert (createNewTab URL (Some url) s = (id, navigate URL url (switchToTab id s1))) as Hcreate.
  { unfold createNewTab. cbv beta zeta. rewrite Htruthy. reflexivity. }
  unfold s', tabId. rewrite Hcreate. cbn [fst snd].
  assert (findTab id (tabs s1) = Some (length (tabs s), tab)) as Hf.
  { apply (findTab_appended (tabs s) tab). exact Hfresh. }
  assert (switchToTab id s1
          = loadUrl (Some url) (updateNavigationButtons
              (updateAddressBar (Some url) (with_active (Some id) s1)))) as Hsw.
  { unfold switchToTab. rewrite Hf. unfold tab. cbn [Tab.isHome Tab.url orb].
    by rewrite Htruthy. }
  set (s2 := switchToTab id s1) in *.
  assert (getActiveTab s2 = Some (length (tabs s), tab)) as Hact.
  { rewrite Hsw. unfold getActiveTab. simpl. exact Hf. }
  destruct (navigate_unfold URL url s2 _ _ Hne Hact) as (Hh & Hts & Ha).
  destruct (navigate_page URL url s2 _ _ Hne Hact) as (_ & Hsrc & _ & _ & _ & _ & Harm).
  split_and!; [done | done | | | | | done |].
  - rewrite Hts, Hsw. simpl.
    replace (length (tabs s)) with (length (tabs s) + 0) by lia.
    by rewrite alter_app_r.
  - rewrite Ha, Hsw. done.
  - rewrite Hh, Hsw. simpl. rewrite lookup_insert_eq. by rewrite insert_insert_eq.
  - pose proof (shape_navigate URL url s2) as Hshape.
    injection Hshape as _ _ _ ->. by rewrite Hsw.
  - rewrite Harm, Hsw. done.
Qed.

(** X5. On a well-formed registry with at least one tab, opening a new tab
    and closing it again gives back the tabs and the histories as they
    were.  The counter has advanced, so the id is not issued again, and the
    active tab is now the last tab, whichever tab was active before. *)
Theorem open_then_close (URL : string -> UrlResult) (s : BrowserCore) :
  registry_ok s ->
  tabs s <> [] ->
  let tabId := fst (createNewTab URL None s) in
  let s' := closeTab URL tabId (snd (createNewTab URL None s)) in
  tabs s' = tabs s /\
  history s' = history s /\
  tabIdCounter s' = S (tabIdCounter s) /\
  activeTabId s' = Tab.id <$> last (tabs s).
Proof.
  intros Hok Hne tabId s'.
  pose proof (registry_ok_ids s Hok) as Hids.
  pose proof (next_id_fresh s Hids) as Hfresh.
  destruct (createNewTab_home URL s) as (Hts & Hact & Hh).
  set (s1 := snd (createNewTab URL None s)) in *.
  assert (tabId = Tab.id (homeTab s)) as Hid by done.
  assert (tabIdCounter s1 = S (tabIdCounter s)) as Hc1.
  { unfold s1, createNewTab. simpl.
    pose proof (shape_switchToTab (tabName (S (tabIdCounter s)))
      (with_history (insert (tabName (S (tabIdCounter s))) History.empty)
         (with_tabs (fun ts => (ts ++ [Tab.mk (tabName (S (tabIdCounter s))) "New Tab"
                                         None true])%list)
            (with_counter (S (tabIdCounter s)) s)))) as Hshape.
    case_decide; by injection Hshape as _ _ _ ->. }
  assert (findTab tabId (tabs s1) = Some (length (tabs s), homeTab s)) as Hf.
  { rewrite Hts, Hid. by apply findTab_appended. }
  unfold s'. rewrite (closeTab_unfold URL tabId s1 _ _ Hf).
  rewrite Hts, (delete_middle (tabs s) [] (homeTab s)), app_nil_r.
  set (s2 := with_history (delete tabId) (with_tabs (delete (length (tabs s))) s1)).
  assert (tabs s2 = tabs s) as Hts2.
  { unfold s2. simpl. rewrite Hts.
    by rewrite (delete_middle (tabs s) [] (homeTab s)), app_nil_r. }
  assert (history s2 = history s) as Hh2.
  { unfold s2. simpl. rewrite Hh, Hid. apply delete_insert_id.
    apply not_elem_of_dom. destruct Hids as (_ & _ & ->).
    rewrite elem_of_list_to_set. exact Hfresh. }
  destruct (tabs s) as [|x xs] eqn:Etabs; [done|].
  rewrite Hact, Hid, bool_decide_eq_true_2 by done.
  assert (Nat.min (length (x :: xs)) (length (x :: xs) - 1) = pred (length (x :: xs)))
    as -> by lia.
  rewrite <- last_lookup.
  destruct (last (x :: xs)) as [y|] eqn:Hlast.
  - assert (Tab.id y ∈ tabIds s2) as Hin.
    { unfold tabIds. rewrite Hts2. apply list_elem_of_fmap. exists y. split; [done|].
      by apply last_Some_elem_of. }
    pose proof (shape_switchToTab (Tab.id y) s2) as Hshape.
    rewrite decide_True in Hshape by done.
    rewrite switchToTab_tabs, switchToTab_history.
    injection Hshape as _ _ -> ->. by rewrite Hts2, Hh2.
  - by apply last_None in Hlast.
Qed.

(** ** Closing in the background, unknown ids *)

(** X6. An id that no tab bears is ignored by [closeTab] and by
    [switchToTab]: the state stays as it is.  Closing a tab that is not the
    active one, while other tabs remain, changes nothing on the host page
    and leaves the counter, the active id and the histories of the other
    tabs as they are; the history of the closed tab is gone. *)
Theorem closeTab_in_background (URL : string -> UrlResult) (s : BrowserCore) (tabId : string) :
  (tabId ∉ tabIds s -> closeTab URL tabId s = s /\ switchToTab tabId s = s) /\
  (forall index t,
     findTab tabId (tabs s) = Some (index, t) ->
     1 < length (tabs s) -> activeTabId s <> Some tabId ->
     let s' := closeTab URL tabId s in
     page s' = page s /\
     tabIdCounter s' = tabIdCounter s /\
     activeTabId s' = activeTabId s /\
     history s' !! tabId = None /\
     (forall k, k <> tabId -> history s' !! k = history s !! k)).
Proof.
  split.
  - intros Hout.
    assert (findTab tabId (tabs s) = None) as Hf.
    { destruct (findTab tabId (tabs s)) eqn:E; [|done].
      destruct Hout. apply findTab_elem. eauto. }
    unfold closeTab, switchToTab. by rewrite Hf.
  - intros index t Hf Hlen Hact s'. unfold s'.
    rewrite (closeTab_unfold URL tabId s index t Hf).
    pose proof Hf as (Hl & _ & _)%list_find_Some.
    assert (is_Some (tabs s !! index)) as Hsome by eauto.
    pose proof (length_delete _ _ Hsome) as Hdel.
    destruct (delete index (tabs s)) as [|x xs]; [simpl in Hdel; lia|].
    rewrite bool_decide_eq_false_2 by done. simpl.
    split_and!; [done..| |].
    + apply lookup_delete_eq.
    + intros k Hk. by apply lookup_delete_ne.
Qed.

(** ** Going home *)

Lemma alter_twice {A} (f : A -> A) (i : nat) (l : list A) :
  (forall x, f (f x) = f x) -> alter f i (alter f i l) = alter f i l.
Proof.
  intros Hf. apply list_eq. intros j. destruct (decide (j = i)) as [->|Hne].
  - rewrite !list_lookup_alter_eq. destruct (l !! i); simpl; [by rewrite Hf | done].
  - by rewrite !list_lookup_alter_ne.
Qed.

(** X7. [goHome] turns the active tab into a home tab with no URL, empties
    the address bar and shows the welcome page; it does not touch any
    history.  Doing it twice is doing it once, a reload afterwards does
    nothing, and the history buttons' guards are as before: a step back
    after going home moves the history exactly as it would have without
    going home. *)
Theorem goHome_keeps_history (s : BrowserCore) (i : nat) (activeTab : Tab.t) :
  getActiveTab s = Some (i, activeTab) ->
  let s' := goHome s in
  getActiveTab s' = Some (i, atHome activeTab) /\
  history s' = history s /\
  Chrome.urlInput (page s') = EmptyString /\
  Chrome.welcomePage (page s') = true /\ Chrome.iframeContainer (page s') = false /\
  goHome s' = s' /\
  reload s' = s' /\
  canGoBack s' = canGoBack s /\ canGoForward s' = canGoForward s /\
  history (goBack s') = history (goBack s) /\
  history (goForward s') = history (goForward s).
Proof.
  intros Hact s'.
  assert (s' = showWelcomePage (updateAddressBar None (with_tabs (alter atHome i) s))) as Hs'.
  { unfold s', goHome. by rewrite Hact. }
  assert (getActiveTab s' = Some (i, atHome activeTab)) as Hact'.
  { rewrite Hs'. unfold getActiveTab in *. simpl.
    destruct (activeTabId s) as [a|]; [|done]. by apply findTab_alter. }
  assert (activeHistory s' = activeHistory s) as Hah.
  { unfold activeHistory. rewrite Hact', Hact, Hs'. done. }
  split_and!.
  - exact Hact'.
  - by rewrite Hs'.
  - by rewrite Hs'.
  - by rewrite Hs'.
  - by rewrite Hs'.
  - unfold goHome at 1. rewrite Hact'. rewrite Hs'. unfold showWelcomePage, updateAddressBar,
      with_page, with_tabs. simpl. f_equal. by apply alter_twice.
  - unfold reload. by rewrite Hact'.
  - unfold canGoBack. by rewrite Hah.
  - unfold canGoForward. by rewrite Hah.
  - unfold goBack. rewrite Hact', Hact.
    change (Tab.id (atHome activeTab)) with (Tab.id activeTab).
    assert (history s' = history s) as -> by (by rewrite Hs').
    destruct (history s !! Tab.id activeTab) as [h|]; [|by rewrite Hs'].
    destruct (0 <? History.index h)%Z; [|by rewrite Hs'].
    unfold moveTo. simpl. by rewrite Hs'.
  - unfold goForward. rewrite Hact', Hact.
    change (Tab.id (atHome activeTab)) with (Tab.id activeTab).
    assert (history s' = history s) as -> by (by rewrite Hs').
    destruct (history s !! Tab.id activeTab) as [h|]; [|by rewrite Hs'].
    destruct (History.index h <? _)%Z; [|by rewrite Hs'].
    unfold moveTo. simpl. by rewrite Hs'.
Qed.

(** * Further properties of the agent *)

(** ** Actions on the framed document *)

Section IframeFacts.

Variable querySelector : list Element.t -> string -> SelectorResult.


End IframeFacts.

Section IframeCases.

Variable querySelector : list Element.t -> string -> SelectorResult.




End IframeCases.



(** ** What each kind of action can touch *)

Lemma navigate_ignores_blank URL input s :
  JS.allChars JS.isWhiteSpace input = true -> navigate URL input s = s.
Proof.
  intros Hblank. unfold navigate. rewrite (trim_blank input Hblank). simpl.
  by rewrite orb_true_r.
Qed.

(** X10. [executeAction] keeps to its lane.  A scroll, click, type or select
    never touches the registry, and a navigation never touches the frame;
    none of them touches the running flag or the status line.  An action of
    any other type returns [false] and changes nothing.  A navigation
    returns [false] only when there is no registry; with a registry it
    returns [true] even when the URL is missing or blank, in which case
    nothing has changed at all. *)
Theorem executeAction_lanes
    (querySelector : list Element.t -> string -> SelectorResult)
    (URL : string -> UrlResult) (action : Action.t) (w : World) :
  let o := fst (executeAction querySelector URL action w) in
  let w' := snd (executeAction querySelector URL action w) in
  isRunning w' = isRunning w /\ status w' = status w /\
  (Action.type action <> "navigate" -> browserCore w' = browserCore w) /\
  (Action.type action = "navigate" ->
     pageFrame w' = pageFrame w /\
     (browserCore w = None -> o = Returned false /\ w' = w) /\
     (forall core, browserCore w = Some core ->
        o = Returned true /\
        browserCore w' = Some (if JS.truthy (Action.url action)
                               then navigate URL (JS.orEmpty (Action.url action)) core
                               else core) /\
        (JS.allChars JS.isWhiteSpace (JS.orEmpty (Action.url action)) = true -> w' = w))) /\
  (Action.type action ∉ ["scroll"; "navigate"; "click"; "type"; "select"] ->
     o = Returned false /\ w' = w).
Proof.
  intros o w'. unfold o, w', executeAction.
  destruct (String.eqb (Action.type action) "scroll") eqn:E1.
  { apply String.eqb_eq in E1. rewrite E1.
    destruct (executeScroll _ _) as [ok f]. simpl.
    split_and!; [done | done | done | done |].
    intros Hout. destruct Hout. apply list_elem_of_here. }
  destruct (String.eqb (Action.type action) "navigate") eqn:E2.
  { apply String.eqb_eq in E2. rewrite E2. unfold executeNavigate.
    destruct (browserCore w) as [core|] eqn:Hcore; simpl.
    - split_and!; [done | done | done | |].
      + intros _. split_and!; [done | done |]. intros core' [= <-].
        split_and!; [done | done |]. intros Hblank.
        destruct w as [c f r st]. simpl in *. subst c. unfold with_core. simpl.
        destruct (JS.truthy (Action.url action)); [|done].
        by rewrite navigate_ignores_blank.
      + intros Hout. destruct Hout. apply list_elem_of_further, list_elem_of_here.
    - split_and!; [done | done | done | |].
      + intros _. split_and!; done.
      + intros Hout. destruct Hout. apply list_elem_of_further, list_elem_of_here. }
  apply String.eqb_neq in E1, E2.
  destruct (_ || _) eqn:E3.
  - destruct (executeIframeAction _ _ _) as [ok f]. simpl.
    split_and!; [done | done | done | done |].
    intros Hout. destruct Hout.
    apply orb_true_iff in E3 as [E3|E3]; [apply orb_true_iff in E3 as [E3|E3]|];
      apply String.eqb_eq in E3; rewrite E3;
      repeat (first [apply list_elem_of_here | apply list_elem_of_further]).
  - simpl. split_and!; done.
Qed.

(** ** Batches: rejection and release *)

(** X11. A busy agent rejects a batch: the caller receives [undefined] and
    nothing changes, whatever the batch.  An idle agent accepts it, and when
    the batch is over the agent is idle again with the status line reset,
    however many of its actions threw; an empty batch yields an empty list
    of results. *)
Theorem executeActions_rejects_when_busy
    (exec : Action.t -> World -> Outcome * World) (during : Z -> World -> World)
    (actions : list Action.t) (w : World) :
  (isRunning w = true -> executeActionsWith exec during actions w = (None, w)) /\
  (isRunning w = false ->
     let r := executeActionsWith exec during actions w in
     is_Some (fst r) /\
     isRunning (snd r) = false /\ status (snd r) = ("idle", "Agent Ready") /\
     (actions = [] -> fst r = Some [])).
Proof.
  unfold executeActionsWith. split.
  - by intros ->.
  - intros ->. destruct (runQueue _ _ _ _) as [results w1] eqn:Hrun. simpl.
    split_and!; [eauto | done | done |].
    intros ->. simpl in Hrun. by injection Hrun as <- _.
Qed.

(** ** ElementResolver: case and soundness *)

Lemma lowerChar_idem c : JS.lowerChar (JS.lowerChar c) = JS.lowerChar c.
Proof. destruct c as [[] [] [] [] [] [] [] []]; reflexivity. Qed.

Lemma toLowerCase_idem s : JS.toLowerCase (JS.toLowerCase s) = JS.toLowerCase s.
Proof. induction s as [|c s IH]; simpl; [done|]. by rewrite lowerChar_idem, IH. Qed.

(** X12. Resolution sees the target through [toLowerCase] only: targets that
    differ in case resolve alike, and a target resolves like its lower-cased
    form.  The id lookup therefore only ever finds ids written in lower
    case: an element whose id has a capital letter is found by id for no
    target at all. *)
Theorem findElement_ignores_case
    (querySelector : list Element.t -> string -> SelectorResult)
    (doc : list Element.t) :
  (forall t1 t2, JS.toLowerCase t1 = JS.toLowerCase t2 ->
     findElement querySelector doc t1 = findElement querySelector doc t2) /\
  (forall t, findElement querySelector doc (JS.toLowerCase t) = findElement querySelector doc t) /\
  (forall t i e, doc !! i = Some e ->
     JS.toLowerCase (Element.id e) <> Element.id e ->
     byId doc (JS.toLowerCase t) <> Some i).
Proof.
  split_and!.
  - intros t1 t2 H. unfold findElement, resolve. by rewrite H.
  - intros t. unfold findElement, resolve. by rewrite toLowerCase_idem.
  - intros t i e He Hcap. unfold byId, getElementById.
    destruct (String.eqb _ EmptyString); [done|].
    intros ([j e'] & (Hl & Hid & _)%list_find_Some & [= <-])%fmap_Some.
    rewrite He in Hl. injection Hl as <-.
    apply Hcap. rewrite Hid. apply toLowerCase_idem.
Qed.

Lemma orElse_Some {A} (x y : option A) z :
  orElse x y = Some z -> x = Some z \/ (x = None /\ y = Some z).
Proof. destruct x; simpl; eauto. Qed.

(** X13. Every element that [findElement] returns is an element of the
    document and is there for one of the four reasons, on the lower-cased
    target: it bears the target as its id; the selector engine matched it;
    it is a link, button, input or [onclick] element whose text, value or
    placeholder contains the target; or a label whose text contains the
    target points at it by [htmlFor] or holds it as a form control. *)
Theorem findElement_sound
    (querySelector : list Element.t -> string -> SelectorResult)
    (doc : list Element.t) (actionTarget : string) (i : nat) :
  findElement querySelector doc actionTarget = Some i ->
  let target := JS.toLowerCase actionTarget in
  exists e, doc !! i = Some e /\
    (Element.id e = target \/
     querySelector doc target = Matched i \/
     (textCandidate e = true /\ textMatches target e = true) \/
     (exists j label, doc !! j = Some label /\ Element.tagName label = "LABEL" /\
        contains (JS.toLowerCase (Element.textContent label)) target /\
        (Element.id e = Element.htmlFor label \/
         (j < i <= j + Element.descendants label /\ formControl e = true)))).
Proof.
  intros Hfind target. rewrite findElement_strategies in Hfind. cbv zeta in Hfind.
  fold target in Hfind.
  assert (forall id k, getElementById doc id = Some k ->
            exists e, doc !! k = Some e /\ Element.id e = id) as Hbyid.
  { intros id k. unfold getElementById. destruct (String.eqb id EmptyString); [done|].
    intros ([k' e] & (Hl & Hid & _)%list_find_Some & [= <-])%fmap_Some. eauto. }
  apply orElse_Some in Hfind as [Hid | [_ Hfind]].
  { destruct (Hbyid _ _ Hid) as (e & He & Heq). exists e. split; [done|]. by left. }
  apply orElse_Some in Hfind as [Hsel | [_ Hfind]].
  { unfold bySelector in Hsel. destruct (querySelector doc target) as [k| |] eqn:Hq; [|done..].
    case_decide as Hlt; [|done]. injection Hsel as ->.
    apply lookup_lt_is_Some in Hlt as [e He]. exists e. split; [done|]. right. by left. }
  apply orElse_Some in Hfind as [Htext | [_ Hlabel]].
  { apply byText_spec in Htext as (e & He & Hc & Hm). exists e. split; [done|].
    right. right. by left. }
  destruct (textSearch target doc 0); [done | | done].
  unfold byLabel in Hlabel.
  destruct (list_find _ doc) as [[j label]|] eqn:Hl; [|done].
  apply list_find_Some in Hl as (Hj & Hp & _).
  apply andb_prop in Hp as [Htag Hinc].
  assert (Element.tagName label = "LABEL") as Htag'.
  { unfold hasTag in Htag. apply bool_decide_eq_true in Htag.
    by apply list_elem_of_singleton in Htag. }
  assert (contains (JS.toLowerCase (Element.textContent label)) target) as Hcont
    by (by apply includes_spec).
  apply orElse_Some in Hlabel as [Hfor | [_ Hctl]].
  - destruct (Hbyid _ _ Hfor) as (e & He & Heq). exists e. split; [done|].
    do 3 right. exists j, label. split_and!; [done..|]. by left.
  - apply fmap_Some in Hctl as ([k e] & (Hk & Hfc & _)%list_find_Some & ->).
    simpl. apply lookup_take_Some in Hk as [Hk Hlt].
    rewrite lookup_drop in Hk. exists e. split; [done|].
    do 3 right. exists j, label. split_and!; [done..|]. right. split; [lia | done].
Qed.

(** * Properties of the command parser *)

(** ** Strings: pieces, trimming *)

Lemma string_app_nil_r (s : string) : s +:+ EmptyString = s.
Proof. induction s as [|c s IH]; [done|]. change (String c (s +:+ EmptyString) = String c s).
  by rewrite IH. Qed.

Lemma string_length_app (a b : string) :
  String.length (a +:+ b) = String.length a + String.length b.
Proof.
  induction a as [|c a IH]; [done|].
  change (S (String.length (a +:+ b)) = S (String.length a + String.length b)).
  by rewrite IH.
Qed.

Lemma substring_prefix (a b : string) : String.substring 0 (String.length a) (a +:+ b) = a.
Proof.
  induction a as [|c a IH]; [by destruct b|].
  change (String c (String.substring 0 (String.length a) (a +:+ b)) = String c a).
  by rewrite IH.
Qed.

Lemma consumed_app (before s' : string) : Regex.consumed (before +:+ s') s' = before.
Proof.
  unfold Regex.consumed. rewrite string_length_app.
  replace (String.length before + String.length s' - String.length s')
    with (String.length before) by lia.
  apply substring_prefix.
Qed.

Lemma isSuffix_refl s : isSuffix s s.
Proof. by exists EmptyString. Qed.

Lemma isSuffix_trans a b c : isSuffix a b -> isSuffix b c -> isSuffix a c.
Proof. intros [x ->] [y ->]. exists (y +:+ x). by rewrite string_app_assoc. Qed.

Lemma isSuffix_tail c s : isSuffix s (String c s).
Proof. by exists (String c EmptyString). Qed.

Lemma contains_refl s : contains s s.
Proof. exists EmptyString, EmptyString. simpl. by rewrite string_app_nil_r. Qed.

Lemma contains_empty s : contains s EmptyString.
Proof. by exists EmptyString, s. Qed.

Lemma contains_trans a b c : contains a b -> contains b c -> contains a c.
Proof.
  intros (x & y & ->) (u & v & ->). exists (x +:+ u), (v +:+ y).
  by rewrite !string_app_assoc.
Qed.

Lemma contains_suffix s' s : isSuffix s' s -> contains s s'.
Proof. intros [x ->]. exists x, EmptyString. by rewrite string_app_nil_r. Qed.

Lemma stripStart_isSuffix p s : isSuffix (JS.stripStart p s) s.
Proof.
  induction s as [|c s IH]; simpl; [apply isSuffix_refl|].
  destruct (p c); [|apply isSuffix_refl].
  eapply isSuffix_trans; [exact IH | apply isSuffix_tail].
Qed.

Lemma stripEnd_prefix p s : exists after, s = JS.stripEnd p s +:+ after.
Proof.
  induction s as [|c s (after & IH)]; simpl; [by exists EmptyString|].
  destruct (JS.stripEnd p s) as [|d t] eqn:E.
  - destruct (p c); [by exists (String c s)|]. exists s. done.
  - exists after. change (String c s = String c (String d t +:+ after)). by rewrite <- IH.
Qed.

Lemma contains_trim s : contains s (JS.trim s).
Proof.
  unfold JS.trim. eapply contains_trans; [apply contains_suffix, stripStart_isSuffix|].
  destruct (stripEnd_prefix JS.isWhiteSpace (JS.stripStart JS.isWhiteSpace s)) as [after H].
  exists EmptyString, after. exact H.
Qed.

Lemma stripEnd_idem p s : JS.stripEnd p (JS.stripEnd p s) = JS.stripEnd p s.
Proof.
  induction s as [|c s IH]; simpl; [done|].
  destruct (JS.stripEnd p s) as [|d t] eqn:E.
  - destruct (p c) eqn:Hc; simpl; [done | by rewrite Hc].
  - change (JS.stripEnd p (String c (String d t)) = String c (String d t)).
    simpl. simpl in IH. rewrite IH. done.
Qed.

Lemma stripStart_of_stripEnd p s :
  JS.stripStart p (JS.stripEnd p (JS.stripStart p s)) = JS.stripEnd p (JS.stripStart p s).
Proof.
  induction s as [|c s IH]; simpl; [done|].
  destruct (p c) eqn:Hc; [exact IH|].
  simpl. destruct (JS.stripEnd p s); rewrite ?Hc; simpl; by rewrite ?Hc.
Qed.

Lemma trim_idem s : JS.trim (JS.trim s) = JS.trim s.
Proof. unfold JS.trim. by rewrite stripStart_of_stripEnd, stripEnd_idem. Qed.

Lemma fromCommand_trim command x : contains command x -> fromCommand command (JS.trim x).
Proof.
  intros H. split; [apply trim_idem|]. eapply contains_trans; [exact H | apply contains_trim].
Qed.

(** ** The matcher only captures pieces of its input *)

Lemma stripLiteral_isSuffix text s s' : Regex.stripLiteral text s = Some s' -> isSuffix s' s.
Proof.
  revert s. induction text as [|a text IH]; intros s; simpl.
  - intros [= <-]. apply isSuffix_refl.
  - destruct s as [|b s]; [done|]. destruct (Ascii.eqb _ _); [|done].
    intros H. eapply isSuffix_trans; [by apply IH | apply isSuffix_tail].
Qed.

Lemma many1_sound cls s caps k res :
  Regex.many1 cls s caps k = Some res ->
  exists s', isSuffix s' s /\ k s' caps = Some res.
Proof.
  induction s as [|x s IH]; simpl; [done|]. destruct (cls x); [|done].
  destruct (Regex.many1 cls s caps k) as [r|] eqn:E.
  - intros [= <-]. destruct (IH eq_refl) as (s' & Hs & Hk).
    exists s'. split; [|done]. eapply isSuffix_trans; [exact Hs | apply isSuffix_tail].
  - intros Hk. exists s. split; [apply isSuffix_tail | done].
Qed.

Lemma lazy1_sound cls s caps k res :
  Regex.lazy1 cls s caps k = Some res ->
  exists s', isSuffix s' s /\ k s' caps = Some res.
Proof.
  induction s as [|x s IH]; simpl; [done|]. destruct (cls x); [|done].
  destruct (k s caps) as [r|] eqn:E.
  - intros [= <-]. exists s. split; [apply isSuffix_tail | done].
  - intros H. destruct (IH H) as (s' & Hs & Hk).
    exists s'. split; [|done]. eapply isSuffix_trans; [exact Hs | apply isSuffix_tail].
Qed.

Lemma run_sound r : forall s caps k res,
  Regex.run r s caps k = Some res ->
  exists s' caps',
    isSuffix s' s /\
    (forall text, isSuffix s text -> capturedFrom text caps -> capturedFrom text caps') /\
    k s' caps' = Some res.
Proof.
  induction r as [text|cls|a IHa b IHb|a IHa b IHb|a IHa|cls|cls|n a IHa];
    intros s caps k res; simpl.
  - destruct (Regex.stripLiteral text s) as [s'|] eqn:E; [|done].
    intros Hk. exists s', caps. split_and!; [by eapply stripLiteral_isSuffix | done | done].
  - destruct s as [|x s']; [done|]. destruct (cls x); [|done].
    intros Hk. exists s', caps. split_and!; [apply isSuffix_tail | done | done].
  - destruct (Regex.run a s caps k) as [r|] eqn:E.
    + intros [= <-]. by apply IHa.
    + apply IHb.
  - intros H. apply IHa in H as (s1 & caps1 & Hs1 & Hc1 & H).
    apply IHb in H as (s2 & caps2 & Hs2 & Hc2 & H).
    exists s2, caps2. split_and!; [by eapply isSuffix_trans | | done].
    intros text Ht Hcaps. apply Hc2; [by eapply isSuffix_trans | by apply Hc1].
  - destruct (Regex.run a s caps k) as [r|] eqn:E.
    + intros [= <-]. by apply IHa.
    + intros Hk. exists s, caps. split_and!; [apply isSuffix_refl | done | done].
  - intros (s' & Hs & Hk)%many1_sound. by exists s', caps.
  - intros (s' & Hs & Hk)%lazy1_sound. by exists s', caps.
  - intros H. apply IHa in H as (s1 & caps1 & Hs1 & Hc1 & H).
    exists s1, ((n, Regex.consumed s s1) :: caps1). split_and!; [done | | done].
    intros text Ht Hcaps m x [[= -> ->]|Hin]%elem_of_cons; [|by eapply Hc1].
    destruct Hs1 as [before ->]. rewrite consumed_app.
    destruct Ht as [before0 ->]. by exists before0, s1.
Qed.

Lemma search_sound r s caps : Regex.search r s = Some caps -> capturedFrom s caps.
Proof.
  induction s as [|c s IH]; simpl.
  - destruct (Regex.matchHere r EmptyString) as [res|] eqn:E; [|done].
    intros [= <-]. apply run_sound in E as (s' & caps' & _ & Hc & [= <-]).
    apply Hc; [apply isSuffix_refl|]. intros n x Hin. by apply elem_of_nil in Hin.
  - destruct (Regex.matchHere r (String c s)) as [res|] eqn:E.
    + intros [= <-]. apply run_sound in E as (s' & caps' & _ & Hc & [= <-]).
      apply Hc; [apply isSuffix_refl|]. intros n x Hin. by apply elem_of_nil in Hin.
    + intros H n x Hin. eapply contains_trans; [|by eapply IH].
      apply contains_suffix, isSuffix_tail.
Qed.

Lemma group_captured text caps n : capturedFrom text caps -> contains text (Regex.group n caps).
Proof.
  intros Hc. induction caps as [|[m x] caps IH]; simpl; [apply contains_empty|].
  destruct (Nat.eqb m n).
  - apply (Hc m x). apply list_elem_of_here.
  - apply IH. intros k y Hin. apply (Hc k y). by apply list_elem_of_further.
Qed.

Lemma rule_parsed guard pattern command build a :
  (forall caps, capturedFrom command caps -> parsedFrom command (build caps)) ->
  a ∈ rule guard pattern command build -> parsedFrom command a.
Proof.
  intros Hbuild. unfold rule. destruct guard; [|by intros ?%elem_of_nil].
  destruct (Regex.search pattern command) as [caps|] eqn:E; [|by intros ?%elem_of_nil].
  intros ->%list_elem_of_singleton. apply Hbuild. by eapply search_sound.
Qed.

Lemma scrollDirection_known lowerCommand :
  scrollDirection lowerCommand ∈ ["up"; "down"; "top"; "bottom"].
Proof.
  unfold scrollDirection.
  repeat (destruct (JS.includes lowerCommand _));
    repeat (first [apply list_elem_of_here | apply list_elem_of_further]).
Qed.

Lemma rule_types guard pattern command build type :
  (forall caps, Action.type (build caps) = type) ->
  (Action.type <$> rule guard pattern command build) `sublist_of` [type].
Proof.
  intros Hb. unfold rule. destruct guard; [|apply sublist_nil_l].
  destruct (Regex.search pattern command); [|apply sublist_nil_l].
  simpl. rewrite Hb. done.
Qed.

(** X14. Whatever the command, [parseCommand] yields at most one action of
    each kind, in the order click, type, scroll, navigate, select.  Every
    action has the fields of its kind: a scroll has one of the four
    directions, and every target, value and URL is a piece of the command
    with the white space around it removed. *)
Theorem parseCommand_shape (command : string) :
  (Action.type <$> parseCommand command)
    `sublist_of` ["click"; "type"; "scroll"; "navigate"; "select"] /\
  Forall (parsedFrom command) (parseCommand command).
Proof.
  unfold parseCommand. split.
  - rewrite !fmap_app.
    apply (sublist_app _ ["click"] _ ["type"; "scroll"; "navigate"; "select"]);
      [by apply rule_types|].
    apply (sublist_app _ ["type"] _ ["scroll"; "navigate"; "select"]);
      [by apply rule_types|].
    apply (sublist_app _ ["scroll"] _ ["navigate"; "select"]).
    { destruct (JS.includes _ "scroll"); [done | apply sublist_nil_l]. }
    apply (sublist_app _ ["navigate"] _ ["select"]); by apply rule_types.
  - apply Forall_forall. intros a Hin.
    repeat (apply elem_of_app in Hin as [Hin|Hin]).
    + eapply rule_parsed; [|exact Hin]. intros caps Hc.
      constructor. by apply fromCommand_trim, group_captured.
    + eapply rule_parsed; [|exact Hin]. intros caps Hc.
      constructor; by apply fromCommand_trim, group_captured.
    + destruct (JS.includes _ "scroll"); [|by apply elem_of_nil in Hin].
      apply list_elem_of_singleton in Hin as ->. constructor. apply scrollDirection_known.
    + eapply rule_parsed; [|exact Hin]. intros caps Hc.
      constructor. by apply fromCommand_trim, group_captured.
    + eapply rule_parsed; [|exact Hin]. intros caps Hc.
      constructor; by apply fromCommand_trim, group_captured.
Qed.

Lemma rule_guard guard pattern command build a :
  a ∈ rule guard pattern command build -> guard = true /\ exists caps, a = build caps.
Proof.
  unfold rule. destruct guard; [|by intros ?%elem_of_nil].
  destruct (Regex.search pattern command) as [caps|]; [|by intros ?%elem_of_nil].
  intros ->%list_elem_of_singleton. eauto.
Qed.

(** X15. No action without its keyword: every action that [parseCommand]
    yields has a keyword of its kind somewhere in the lower-cased command,
    so a command with none of the keywords yields no action at all.  A
    scroll action is yielded exactly when the command contains "scroll", and
    its direction is up as soon as "up" occurs anywhere in the command. *)
Theorem parseCommand_keywords (command : string) :
  let has := JS.includes (JS.toLowerCase command) in
  (forall a, a ∈ parseCommand command ->
     exists word, word ∈ keywordsOf (Action.type a) /\ word ∈ keywords /\ has word = true) /\
  ((forall word, word ∈ keywords -> has word = false) -> parseCommand command = []) /\
  (has "scroll" = true <->
   Action.scroll (scrollDirection (JS.toLowerCase command)) ∈ parseCommand command) /\
  (has "scroll" = true -> has "up" = true -> Action.scroll "up" ∈ parseCommand command).
Proof.
  intros has.
  assert (forall a, a ∈ parseCommand command ->
     exists word, word ∈ keywordsOf (Action.type a) /\ word ∈ keywords /\ has word = true)
    as Hkey.
  { intros a Hin. unfold parseCommand in Hin. fold has in Hin.
    repeat (apply elem_of_app in Hin as [Hin|Hin]).
    - apply rule_guard in Hin as [Hg [caps ->]]. exists "click".
      split_and!; [apply list_elem_of_here | apply list_elem_of_here | done].
    - apply rule_guard in Hin as [Hg [caps ->]].
      apply orb_true_iff in Hg as [Hg|Hg]; [apply orb_true_iff in Hg as [Hg|Hg]|].
      + exists "type". split_and!; [| |done];
          repeat (first [apply list_elem_of_here | apply list_elem_of_further]).
      + exists "fill". split_and!; [| |done];
          repeat (first [apply list_elem_of_here | apply list_elem_of_further]).
      + exists "enter". split_and!; [| |done];
          repeat (first [apply list_elem_of_here | apply list_elem_of_further]).
    - destruct (has "scroll") eqn:Hg; [|by apply elem_of_nil in Hin].
      apply list_elem_of_singleton in Hin as ->. exists "scroll".
      split_and!; [| |done];
        repeat (first [apply list_elem_of_here | apply list_elem_of_further]).
    - apply rule_guard in Hin as [Hg [caps ->]].
      apply orb_true_iff in Hg as [Hg|Hg]; [apply orb_true_iff in Hg as [Hg|Hg]|].
      + exists "go to". split_and!; [| |done];
          repeat (first [apply list_elem_of_here | apply list_elem_of_further]).
      + exists "navigate to". split_and!; [| |done];
          repeat (first [apply list_elem_of_here | apply list_elem_of_further]).
      + exists "open". split_and!; [| |done];
          repeat (first [apply list_elem_of_here | apply list_elem_of_further]).
    - apply rule_guard in Hin as [Hg [caps ->]]. exists "select".
      split_and!; [| |done];
        repeat (first [apply list_elem_of_here | apply list_elem_of_further]). }
  assert (has "scroll" = true ->
          Action.scroll (scrollDirection (JS.toLowerCase command)) ∈ parseCommand command)
    as Hscroll.
  { intros Hs. unfold parseCommand. fold has. rewrite Hs.
    apply elem_of_app. right. apply elem_of_app. right. apply elem_of_app. left.
    apply list_elem_of_here. }
  split_and!.
  - exact Hkey.
  - intros Hnone. destruct (parseCommand command) as [|a l] eqn:E; [done|].
    destruct (Hkey a) as (word & _ & Hw & Hhas); [apply list_elem_of_here|].
    by rewrite (Hnone word Hw) in Hhas.
  - split; [exact Hscroll|]. intros Hin.
    destruct (Hkey _ Hin) as (word & Hw & _ & Hhas).
    by apply list_elem_of_singleton in Hw as ->.
  - intros Hs Hup. pose proof (Hscroll Hs) as Hin.
    unfold scrollDirection in Hin. fold has in Hin. by rewrite Hup in Hin.
Qed.

(** ** What a click command yields *)

Lemma many1_stops cls c s caps k :
  cls c = false -> Regex.many1 cls (String c s) caps k = None.
Proof. intros H. simpl. by rewrite H. Qed.

Lemma many1_all cls s caps k v :
  JS.allChars cls s = true -> s <> EmptyString ->
  k EmptyString caps = Some v -> Regex.many1 cls s caps k = Some v.
Proof.
  intros Hall Hne Hk. induction s as [|x s IH]; [done|].
  simpl in *. apply andb_prop in Hall as [-> Hall].
  destruct s as [|y s]; [done|]. by rewrite IH.
Qed.

Lemma word_absent word text caps k :
  beginsWithWord word text = false ->
  Regex.run (Regex.Seq (Regex.Lit word) (Regex.Many1 Regex.space)) text caps k = None.
Proof.
  unfold beginsWithWord. cbn [Regex.run].
  destruct (Regex.stripLiteral word text) as [[|c rest]|]; [done | | done].
  intros H. by apply many1_stops.
Qed.

Lemma search_here r s caps : Regex.matchHere r s = Some caps -> Regex.search r s = Some caps.
Proof. intros H. destruct s; simpl; by rewrite H. Qed.

Lemma consumed_all s : Regex.consumed s EmptyString = s.
Proof. rewrite <- (string_app_nil_r s) at 1. apply consumed_app. Qed.

Lemma capture_name name caps :
  clickable name ->
  Regex.run (Regex.Group 1 (Regex.Many1 Regex.dot)) name caps (fun _ caps => Some caps)
  = Some ((1, name) :: caps).
Proof.
  intros [Hall Hfirst]. cbn [Regex.run].
  apply many1_all; [done | by destruct name |]. by rewrite consumed_all.
Qed.

Lemma many1_space_clickable name caps k :
  clickable name -> Regex.many1 Regex.space name caps k = None.
Proof. intros [_ H]. destruct name; [done|]. by apply many1_stops. Qed.

Lemma stripLiteral_self text rest : Regex.stripLiteral text (text +:+ rest) = Some rest.
Proof.
  induction text as [|a text IH]; [done|].
  change (Regex.stripLiteral (String a text) (String a (text +:+ rest)) = Some rest).
  simpl. by rewrite Ascii.eqb_refl.
Qed.

Lemma run_seq_lit text b rest caps k :
  Regex.run (Regex.Seq (Regex.Lit text) b) (text +:+ rest) caps k = Regex.run b rest caps k.
Proof. cbn [Regex.run]. by rewrite stripLiteral_self. Qed.

Lemma run_seq_space b name caps k :
  clickable name ->
  Regex.run (Regex.Seq (Regex.Many1 Regex.space) b) (" " +:+ name) caps k
  = Regex.run b name caps k.
Proof.
  intros Hname. cbn [Regex.run].
  change (" " +:+ name) with (String " " name). cbn [Regex.many1].
  change (Regex.space " ") with true. cbv iota.
  by rewrite many1_space_clickable.
Qed.

Lemma run_seq_opt_absent a b s caps k :
  (forall k', Regex.run a s caps k' = None) ->
  Regex.run (Regex.Seq (Regex.Opt a) b) s caps k = Regex.run b s caps k.
Proof. intros H. cbn [Regex.run]. by rewrite H. Qed.

Lemma run_seq_opt_present a b s caps k r :
  Regex.run (Regex.Seq a b) s caps k = Some r ->
  Regex.run (Regex.Seq (Regex.Opt a) b) s caps k = Some r.
Proof. cbn [Regex.run]. by intros ->. Qed.

Lemma matchHere_click name :
  clickable name ->
  beginsWithWord "on" name = false -> beginsWithWord "the" name = false ->
  Regex.matchHere clickPattern ("click " +:+ name) = Some [(1, name)].
Proof.
  intros Hname Hon Hthe. unfold Regex.matchHere, clickPattern, Regex.optThe.
  change ("click " +:+ name) with ("click" +:+ (" " +:+ name)).
  rewrite run_seq_lit, run_seq_space by done.
  rewrite run_seq_opt_absent by (intros k'; by apply word_absent).
  rewrite run_seq_opt_absent by (intros k'; by apply word_absent).
  by apply capture_name.
Qed.

Lemma matchHere_click_the name :
  clickable name ->
  Regex.matchHere clickPattern ("click the " +:+ name) = Some [(1, name)].
Proof.
  intros Hname. unfold Regex.matchHere, clickPattern, Regex.optThe.
  change ("click the " +:+ name) with ("click" +:+ (" " +:+ ("the" +:+ (" " +:+ name)))).
  rewrite run_seq_lit.
  assert (clickable ("the" +:+ (" " +:+ name))) as Hthe.
  { destruct Hname as [Hall _]. split; [|done].
    change (JS.allChars Regex.dot (String "t" (String "h" (String "e" (String " " name))))
            = true).
    cbn [JS.allChars]. by rewrite Hall. }
  rewrite run_seq_space by done.
  rewrite run_seq_opt_absent by (intros k'; by apply word_absent).
  apply run_seq_opt_present.
  change (Regex.run (Regex.Seq (Regex.Lit "the")
            (Regex.Seq (Regex.Many1 Regex.space) (Regex.Group 1 (Regex.Many1 Regex.dot))))
            ("the" +:+ (" " +:+ name)) [] (fun _ caps => Some caps) = Some [(1, name)]).
  rewrite run_seq_lit, run_seq_space by done.
  by apply capture_name.
Qed.

Lemma parseCommand_only_click command caps :
  JS.includes (JS.toLowerCase command) "click" = true ->
  onlyClick command ->
  Regex.search clickPattern command = Some caps ->
  parseCommand command = [Action.click (JS.trim (Regex.group 1 caps))].
Proof.
  intros Hclick Hquiet Hsearch. unfold parseCommand, rule.
  rewrite Hclick, Hsearch.
  rewrite !Hquiet by
    (first [discriminate
           | repeat (first [apply list_elem_of_here | apply list_elem_of_further])]).
  done.
Qed.

(** X16. The command "click NAME", where NAME is one line of text that does
    not begin with white space nor with the words "on" or "the", and where
    no other keyword occurs, yields exactly one action: a click on NAME
    without the white space at its end.  The same holds for
    "click the NAME", whatever NAME begins with. *)
Theorem click_command_parses (name : string) :
  clickable name ->
  (beginsWithWord "on" name = false -> beginsWithWord "the" name = false ->
   onlyClick ("click " +:+ name) ->
   parseCommand ("click " +:+ name) = [Action.click (JS.trim name)]) /\
  (onlyClick ("click the " +:+ name) ->
   parseCommand ("click the " +:+ name) = [Action.click (JS.trim name)]).
Proof.
  intros Hname. split.
  - intros Hon Hthe Hquiet.
    apply (parseCommand_only_click _ [(1, name)]); [reflexivity | done |].
    by apply search_here, matchHere_click.
  - intros Hquiet.
    apply (parseCommand_only_click _ [(1, name)]); [reflexivity | done |].
    by apply search_here, matchHere_click_the.
Qed.

(** ** The further properties on the sample states *)

Lemma registry_ok_freshCore : registry_ok freshCore.
Proof.
  apply registry_ok_createNewTab, registry_ok_ids, registry_ok_new.
Qed.

Lemma registry_ok_browsedCore : registry_ok browsedCore.
Proof. apply registry_ok_serveAll, registry_ok_freshCore. Qed.

(** An instance of X1: three tabs opened and the first one closed. *)
Lemma registry_invariant_witness :
  tabIds busyCore = ["tab-2"; "tab-3"] /\
  tabIdCounter busyCore = 3 /\
  NoDup (tabIds busyCore) /\
  (tabName 4 ∉ tabIds busyCore) /\
  is_Some (history busyCore !! "tab-3") /\
  is_Some (getActiveTab busyCore).
Proof.
  unfold busyCore.
  pose proof (registry_invariant WhatwgURL.orThrow blankPage
                [NewTab None; NewTab (Some "example.com"); CloseTab "tab-1"; NewTab None])
    as H.
  cbv zeta in H.
  set (s := serveAll _ _ _) in *.
  assert (tabIds s = ["tab-2"; "tab-3"]) as Hids by (vm_compute; reflexivity).
  assert (tabIdCounter s = 3) as Hc by (vm_compute; reflexivity).
  assert (tabs s <> []) as Hne by (vm_compute; discriminate).
  destruct H as (Hnd & _ & Hfresh & Hkeys & Hactive).
  rewrite Hc in Hfresh.
  refine (conj Hids (conj Hc (conj Hnd (conj Hfresh (conj _ (Hactive Hne)))))).
  apply Hkeys. rewrite Hids. apply list_elem_of_further, list_elem_of_here.
Defined.

(** An instance of X2: after one step back to the first page the back
    button is disabled and a further [goBack] does nothing, while the
    forward button is enabled and [goForward] moves. *)
Lemma buttons_follow_history_witness :
  tabs steppedBack <> [] /\
  Chrome.backDisabled (page steppedBack) = true /\
  goBack steppedBack = steppedBack /\
  Chrome.forwardDisabled (page steppedBack) = false /\
  goForward steppedBack <> steppedBack.
Proof.
  unfold steppedBack.
  pose proof (buttons_follow_history WhatwgURL.orThrow blankPage
                [NewTab None; Navigate "example.com"; Navigate "hello world"; GoBack])
    as H.
  cbv zeta in H.
  set (s := serveAll _ _ _) in *.
  assert (tabs s <> []) as Hne by (vm_compute; discriminate).
  assert (Chrome.backDisabled (page s) = true) as Hback by (vm_compute; reflexivity).
  assert (Chrome.forwardDisabled (page s) = false) as Hforward by (vm_compute; reflexivity).
  destruct (H Hne) as [[Hb _] [_ Hf]].
  refine (conj Hne (conj Hback (conj (Hb Hback) (conj Hforward _)))).
  intros Hfixed. apply Hf in Hfixed. rewrite Hforward in Hfixed. discriminate.
Defined.

(** An instance of X3: with the second of two tabs active, a navigation
    leaves the first tab and its history alone; on a registry with no tab
    it does nothing. *)
Lemma navigation_stays_in_active_tab_witness :
  getActiveTab twoTabs = Some (1, Tab.mk "tab-2" "New Tab" None true) /\
  sameElsewhere 1 "tab-2" twoTabs (navigate WhatwgURL.orThrow "example.org" twoTabs) /\
  getActiveTab (newBrowserCore blankPage) = None /\
  navigate WhatwgURL.orThrow "example.org" (newBrowserCore blankPage)
  = newBrowserCore blankPage.
Proof.
  assert (getActiveTab twoTabs = Some (1, Tab.mk "tab-2" "New Tab" None true)) as Ha
    by (vm_compute; reflexivity).
  assert (getActiveTab (newBrowserCore blankPage) = None) as Hn by reflexivity.
  destruct (navigation_stays_in_active_tab WhatwgURL.orThrow twoTabs) as [Hsame _].
  destruct (navigation_stays_in_active_tab WhatwgURL.orThrow (newBrowserCore blankPage))
    as [_ Hnone].
  destruct (Hsame 1 _ "example.org" Ha) as [Hnav _].
  destruct (Hnone Hn) as [Hnav' _].
  exact (conj Ha (conj Hnav (conj Hn (Hnav' "example.org")))).
Defined.

(** An instance of X4: a second tab opened on a bare domain. *)
Lemma createNewTab_with_url_witness :
  registry_ok freshCore /\
  JS.trim " example.com " <> EmptyString /\
  let s' := snd (createNewTab WhatwgURL.orThrow (Some " example.com ") freshCore) in
  tabs s' = [Tab.mk "tab-1" "New Tab" None true;
             Tab.mk "tab-2" "Loading..." (Some "https://example.com") false] /\
  activeTabId s' = Some "tab-2" /\
  history s' !! "tab-2" = Some (History.mk ["https://example.com"] 0) /\
  Chrome.frameSrc (page s') = Some "https://example.com".
Proof.
  assert (JS.trim " example.com " <> EmptyString) as Hurl by (vm_compute; discriminate).
  refine (conj registry_ok_freshCore (conj Hurl _)).
  destruct (createNewTab_with_url WhatwgURL.orThrow freshCore " example.com "
              registry_ok_freshCore Hurl)
    as (Hid & _ & Htabs & Hact & Hhist & _ & Hsrc & _).
  cbv zeta.
  refine (conj _ (conj _ (conj _ _))).
  - rewrite Htabs. vm_compute. reflexivity.
  - rewrite Hact, Hid. vm_compute. reflexivity.
  - rewrite Hhist, Hid.
    change (tabName (S (tabIdCounter freshCore))) with "tab-2".
    rewrite lookup_insert_eq. vm_compute. reflexivity.
  - rewrite Hsrc. vm_compute. reflexivity.
Defined.

(** An instance of X5: the tab that visited three pages, with a tab opened
    beside it and closed again. *)
Lemma open_then_close_witness :
  registry_ok browsedCore /\
  tabs browsedCore <> [] /\
  let tabId := fst (createNewTab WhatwgURL.orThrow None browsedCore) in
  let s' := closeTab WhatwgURL.orThrow tabId
              (snd (createNewTab WhatwgURL.orThrow None browsedCore)) in
  tabs s' = tabs browsedCore /\
  history s' = history browsedCore /\
  tabIdCounter s' = 2 /\
  activeTabId s' = Some "tab-1".
Proof.
  assert (tabs browsedCore <> []) as Hne by (vm_compute; discriminate).
  refine (conj registry_ok_browsedCore (conj Hne _)).
  destruct (open_then_close WhatwgURL.orThrow browsedCore registry_ok_browsedCore Hne)
    as (Htabs & Hhist & Hc & Hact).
  cbv zeta.
  refine (conj Htabs (conj Hhist (conj _ _))).
  - rewrite Hc. vm_compute. reflexivity.
  - rewrite Hact. vm_compute. reflexivity.
Defined.

(** An instance of X6: with the second of two tabs active, closing the
    first one behind it; and closing a tab that does not exist. *)
Lemma closeTab_in_background_witness :
  findTab "tab-1" (tabs twoTabs)
  = Some (0, Tab.mk "tab-1" "Loading..." (Some "https://example.com") false) /\
  1 < length (tabs twoTabs) /\
  activeTabId twoTabs <> Some "tab-1" /\
  page (closeTab WhatwgURL.orThrow "tab-1" twoTabs) = page twoTabs /\
  activeTabId (closeTab WhatwgURL.orThrow "tab-1" twoTabs) = Some "tab-2" /\
  history (closeTab WhatwgURL.orThrow "tab-1" twoTabs) !! "tab-1" = None /\
  ("tab-9" ∉ tabIds twoTabs) /\
  closeTab WhatwgURL.orThrow "tab-9" twoTabs = twoTabs.
Proof.
  assert (findTab "tab-1" (tabs twoTabs)
          = Some (0, Tab.mk "tab-1" "Loading..." (Some "https://example.com") false)) as Hf
    by (vm_compute; reflexivity).
  assert (1 < length (tabs twoTabs)) as Hlen by (vm_compute; lia).
  assert (activeTabId twoTabs <> Some "tab-1") as Hact by (vm_compute; discriminate).
  assert ("tab-9" ∉ tabIds twoTabs) as Habsent.
  { change (tabIds twoTabs) with ["tab-1"; "tab-2"].
    intros Hin. apply elem_of_cons in Hin as [Hin|Hin]; [discriminate|].
    apply elem_of_cons in Hin as [Hin|Hin]; [discriminate|].
    by apply elem_of_nil in Hin. }
  destruct (closeTab_in_background WhatwgURL.orThrow twoTabs "tab-1") as [_ Hback].
  destruct (closeTab_in_background WhatwgURL.orThrow twoTabs "tab-9") as [Hnone _].
  destruct (Hback 0 _ Hf Hlen Hact) as (Hpage & _ & Hactive & Hgone & _).
  destruct (Hnone Habsent) as [Hclose _].
  refine (conj Hf (conj Hlen (conj Hact (conj Hpage (conj _ (conj Hgone
           (conj Habsent Hclose))))))).
  rewrite Hactive. vm_compute. reflexivity.
Defined.

(** An instance of X7: going home from the third page keeps the three
    entries of the history. *)
Lemma goHome_keeps_history_witness :
  let activeTab := Tab.mk "tab-1" "Loading..." (Some "http://x.com/a") false in
  getActiveTab browsedCore = Some (0, activeTab) /\
  getActiveTab (goHome browsedCore) = Some (0, Tab.mk "tab-1" "New Tab" None true) /\
  history (goHome browsedCore) = history browsedCore /\
  goHome (goHome browsedCore) = goHome browsedCore /\
  reload (goHome browsedCore) = goHome browsedCore /\
  canGoBack (goHome browsedCore) = true.
Proof.
  intros activeTab.
  assert (getActiveTab browsedCore = Some (0, activeTab)) as Ha by (vm_compute; reflexivity).
  destruct (goHome_keeps_history browsedCore 0 activeTab Ha)
    as (Hhome & Hhist & _ & _ & _ & Htwice & Hreload & Hback & _).
  refine (conj Ha (conj Hhome (conj Hhist (conj Htwice (conj Hreload _))))).
  rewrite Hback. vm_compute. reflexivity.
Defined.

(** The text strategy reads the value of every candidate whose text does
    not contain the target.  The value of the menu entry is a number, so
    the search throws before it reaches the button, and the click fails
    although the text of the button contains the target. *)
Example menu_entry_ends_search :
  textSearch "submit" [submitButton] 0 = Found 0 /\
  textSearch "submit" menuPage 0 = Raised /\
  resolve Selectors.orNoMatch menuPage "Submit" = Raised /\
  findElement Selectors.orNoMatch menuPage "Submit" = None /\
  executeIframeAction Selectors.orNoMatch (Some (SameOrigin (pageOf menuPage)))
    (Action.click "Submit")
  = (false, Some (SameOrigin (pageOf menuPage))).
Proof. split_and!; vm_compute; reflexivity. Qed.



(** An instance of X10: a navigation to a blank URL reports success and
    changes nothing; an action of an unknown type reports failure. *)
Lemma executeAction_lanes_witness :
  executeAction Selectors.orNoMatch WhatwgURL.orThrow (Action.navigate "  ")
    (worldOf signupForm)
  = (Returned true, worldOf signupForm) /\
  executeAction Selectors.orNoMatch WhatwgURL.orThrow
    (Action.mk "hover" (Some "Submit") None None None) (worldOf signupForm)
  = (Returned false, worldOf signupForm).
Proof.
  destruct (executeAction_lanes Selectors.orNoMatch WhatwgURL.orThrow (Action.navigate "  ")
              (worldOf signupForm)) as (_ & _ & _ & Hnav & _).
  destruct (executeAction_lanes Selectors.orNoMatch WhatwgURL.orThrow
              (Action.mk "hover" (Some "Submit") None None None) (worldOf signupForm))
    as (_ & _ & _ & _ & Hother).
  destruct (Hnav eq_refl) as (_ & _ & Hcore).
  destruct (Hcore freshCore eq_refl) as (Ho & _ & Hsame).
  specialize (Hsame eq_refl).
  assert (Action.type (Action.mk "hover" (Some "Submit") None None None)
          ∉ ["scroll"; "navigate"; "click"; "type"; "select"]) as Hhover.
  { intros Hin. repeat (apply elem_of_cons in Hin as [Hin|Hin]; [discriminate|]).
    by apply elem_of_nil in Hin. }
  destruct (Hother Hhover) as [Ho' Hsame'].
  split; apply injective_projections; simpl; assumption.
Defined.

(** An instance of X11: a batch handed to an agent that is in the middle of
    another one. *)
Lemma executeActions_rejects_when_busy_witness :
  isRunning busyWorld = true /\
  executeActionsWith brittleExec quiet [Action.scroll "down"; Action.click "Submit"] busyWorld
  = (None, busyWorld).
Proof.
  destruct (executeActions_rejects_when_busy brittleExec quiet
              [Action.scroll "down"; Action.click "Submit"] busyWorld) as [Hbusy _].
  exact (conj eq_refl (Hbusy eq_refl)).
Defined.

(** An instance of X12: the targets [SUBMIT] and [submit] resolve alike on
    the form, and the field with the id [Submit] is out of reach of the id
    lookup. *)
Lemma findElement_ignores_case_witness :
  JS.toLowerCase "SUBMIT" = JS.toLowerCase "submit" /\
  findElement Selectors.orNoMatch signupForm "SUBMIT"
  = findElement Selectors.orNoMatch signupForm "submit" /\
  JS.toLowerCase (Element.id submitField) <> Element.id submitField /\
  byId signupForm (JS.toLowerCase "Submit") <> Some 0.
Proof.
  assert (JS.toLowerCase "SUBMIT" = JS.toLowerCase "submit") as Hcase
    by (vm_compute; reflexivity).
  assert (JS.toLowerCase (Element.id submitField) <> Element.id submitField) as Hid
    by (vm_compute; discriminate).
  destruct (findElement_ignores_case Selectors.orNoMatch signupForm) as (Hsame & _ & Hcap).
  exact (conj Hcase (conj (Hsame _ _ Hcase) (conj Hid (Hcap "Submit" 0 submitField eq_refl Hid)))).
Defined.

(** An instance of X13: the target [Country] resolves to the choice of
    country, an element of the form. *)
Lemma findElement_sound_witness :
  findElement Selectors.orNoMatch countryForm "Country" = Some 1 /\
  exists e, countryForm !! 1 = Some e /\
    (Element.id e = "country" \/
     Selectors.orNoMatch countryForm "country" = Matched 1 \/
     (textCandidate e = true /\ textMatches "country" e = true) \/
     (exists j label, countryForm !! j = Some label /\ Element.tagName label = "LABEL" /\
        contains (JS.toLowerCase (Element.textContent label)) "country" /\
        (Element.id e = Element.htmlFor label \/
         (j < 1 <= j + Element.descendants label /\ formControl e = true)))).
Proof.
  assert (findElement Selectors.orNoMatch countryForm "Country" = Some 1) as Hfound
    by (vm_compute; reflexivity).
  exact (conj Hfound (findElement_sound Selectors.orNoMatch countryForm "Country" 1 Hfound)).
Defined.

(** An instance of X15: a scroll command that mentions both "up" and "top"
    scrolls up. *)
Lemma parseCommand_keywords_witness :
  JS.includes (JS.toLowerCase "Scroll up to the top") "scroll" = true /\
  JS.includes (JS.toLowerCase "Scroll up to the top") "up" = true /\
  Action.scroll "up" ∈ parseCommand "Scroll up to the top".
Proof.
  destruct (parseCommand_keywords "Scroll up to the top") as (_ & _ & _ & Hup).
  exact (conj eq_refl (conj eq_refl (Hup eq_refl eq_refl))).
Defined.

Lemma onlyClick_sample : onlyClick "click Submit button".
Proof.
  intros word Hin Hne. unfold keywords in Hin.
  apply elem_of_cons in Hin as [->|Hin]; [done|].
  repeat (apply elem_of_cons in Hin as [->|Hin]; [vm_compute; reflexivity|]).
  by apply elem_of_nil in Hin.
Qed.

Lemma onlyClick_sample_the : onlyClick "click the Submit button".
Proof.
  intros word Hin Hne. unfold keywords in Hin.
  apply elem_of_cons in Hin as [->|Hin]; [done|].
  repeat (apply elem_of_cons in Hin as [->|Hin]; [vm_compute; reflexivity|]).
  by apply elem_of_nil in Hin.
Qed.

(** An instance of X16: two ways of asking for a click on the button. *)
Lemma click_command_parses_witness :
  clickable "Submit button" /\
  beginsWithWord "on" "Submit button" = false /\
  beginsWithWord "the" "Submit button" = false /\
  onlyClick "click Submit button" /\
  onlyClick "click the Submit button" /\
  parseCommand "click Submit button" = [Action.click "Submit button"] /\
  parseCommand "click the Submit button" = [Action.click "Submit button"].
Proof.
  assert (clickable "Submit button") as Hname by (split; reflexivity).
  destruct (click_command_parses "Submit button" Hname) as [Hplain Hthe].
  exact (conj Hname (conj eq_refl (conj eq_refl (conj onlyClick_sample
          (conj onlyClick_sample_the
             (conj (Hplain eq_refl eq_refl onlyClick_sample)
                   (Hthe onlyClick_sample_the))))))).
Defined.

(** ** SettingsStore: what is saved and what comes back *)

Ltac store_lookup :=
  unfold Storage.getItem, Storage.setItem;
  repeat (rewrite lookup_insert_ne by discriminate);
  rewrite ?lookup_insert_eq.

Lemma orDefault_Some v d : orDefault (Some v) d = if String.eqb v EmptyString then d else v.
Proof. unfold orDefault. simpl. by destruct (String.eqb v EmptyString). Qed.

Lemma orDefault_orEmpty v d : orDefault (Some (JS.orEmpty v)) d = orDefault v d.
Proof. destruct v as [v|]; [done|]. reflexivity. Qed.

Lemma orDefault_empty v : orDefault v EmptyString = JS.orEmpty v.
Proof.
  destruct v as [v|]; [|done]. rewrite orDefault_Some. simpl.
  destruct (String.eqb_spec v EmptyString); by subst.
Qed.

Lemma orDefault_idem v d :
  d <> EmptyString -> orDefault (Some (orDefault v d)) d = orDefault v d.
Proof.
  intros Hd. rewrite orDefault_Some.
  destruct (String.eqb_spec (orDefault v d) EmptyString) as [He|]; [|done].
  unfold orDefault in *. destruct (JS.truthy v) eqn:Ht; [|done].
  destruct v as [v|]; [|done]. simpl in *. subst v. done.
Qed.

Lemma orDefault_nonempty v d : d <> EmptyString -> orDefault v d <> EmptyString.
Proof.
  intros Hd. unfold orDefault. destruct v as [v|]; simpl; [|done].
  destruct (String.eqb_spec v EmptyString); simpl; done.
Qed.

Lemma truthy_orEmpty v : JS.truthy (Some (JS.orEmpty v)) = JS.truthy v.
Proof. by destruct v. Qed.

Lemma save_storage s :
  let f := SettingsManager.form s in
  SettingsManager.storage (SettingsManager.save s)
  = <["default_provider" := orDefault (Form.defaultProvider f) "gemini"]>
    (<["auto_summarize" := Storage.ofBool (default false (Form.autoSummarize f))]>
    (<["dark_mode" := Storage.ofBool (default true (Form.darkMode f))]>
    (<["ollama_model" := JS.orEmpty (Form.ollamaModel f)]>
    (<["ollama_endpoint" := JS.orEmpty (Form.ollamaEndpoint f)]>
    (<["claude_model" := JS.orEmpty (Form.claudeModel f)]>
    (<["claude_api_key" := JS.orEmpty (Form.claudeKey f)]>
    (<["openai_model" := JS.orEmpty (Form.openaiModel f)]>
    (<["openai_api_key" := JS.orEmpty (Form.openaiKey f)]>
    (<["gemini_model" := JS.orEmpty (Form.geminiModel f)]>
    (<["gemini_api_key" := JS.orEmpty (Form.geminiKey f)]>
       (SettingsManager.storage s))))))))))).
Proof.
  unfold SettingsManager.save, SettingsManager.close. simpl.
  by destruct (SettingsManager.modal s).
Qed.

Lemma save_form s :
  SettingsManager.form (SettingsManager.save s)
  = Form.set_modelSelect
      (Form.assign (Form.modelSelect (SettingsManager.form s))
         (orDefault (Form.defaultProvider (SettingsManager.form s)) "gemini"))
      (SettingsManager.form s).
Proof.
  unfold SettingsManager.save, SettingsManager.close. simpl.
  by destruct (SettingsManager.modal s).
Qed.

Lemma save_modal s :
  SettingsManager.modal (SettingsManager.save s) = SettingsManager.modal s.
Proof.
  unfold SettingsManager.save, SettingsManager.close. simpl.
  by destruct (SettingsManager.modal s) eqn:Hm.
Qed.

(** The value that [save] leaves under a key. *)
Lemma save_model s (p : Provider.t) :
  SettingsManager.storage (SettingsManager.save s) !! (Provider.name p +:+ "_model")
  = Some (JS.orEmpty (modelField p (SettingsManager.form s))).
Proof.
  rewrite save_storage. cbv zeta.
  destruct p; cbn [Provider.name String.append modelField]; by store_lookup.
Qed.

Lemma save_key s (p : Provider.t) :
  p <> Provider.ollama ->
  SettingsManager.storage (SettingsManager.save s) !! (Provider.name p +:+ "_api_key")
  = Some (JS.orEmpty (keyField p (SettingsManager.form s))).
Proof.
  intros Hp. rewrite save_storage. cbv zeta.
  destruct p; [| | |done]; cbn [Provider.name String.append keyField]; by store_lookup.
Qed.

Lemma save_other s k :
  k ∉ SettingsManager.savedKeys ->
  SettingsManager.storage (SettingsManager.save s) !! k = SettingsManager.storage s !! k.
Proof.
  intros Hk. rewrite save_storage. cbv zeta.
  repeat (rewrite lookup_insert_ne;
          [|intros <-; apply Hk; unfold SettingsManager.savedKeys;
            repeat (first [apply list_elem_of_here | apply list_elem_of_further])]).
  done.
Qed.

Lemma assign_orDefault (field : option string) d :
  Form.assign field (orDefault (Some (JS.orEmpty field)) d)
  = (fun v => orDefault (Some v) d) <$> field.
Proof. by destruct field. Qed.

Lemma assign_key (field : option string) :
  Form.assign field (orDefault (Some (JS.orEmpty field)) EmptyString) = field.
Proof. destruct field as [v|]; [|done]. simpl. by rewrite orDefault_empty. Qed.

(** What the dialog shows of a form, once saved: blank models, a blank
    endpoint and a blank default provider give way to the defaults. *)
Lemma shown_saved s :
  let f := SettingsManager.form s in
  let blank d := fun v => orDefault (Some v) d in
  SettingsManager.shown (SettingsManager.storage (SettingsManager.save s))
    (SettingsManager.form (SettingsManager.save s))
  = Form.mk (Form.geminiKey f) (blank "gemini-2.0-flash" <$> Form.geminiModel f)
            (Form.openaiKey f) (blank "gpt-4.1" <$> Form.openaiModel f)
            (Form.claudeKey f) (blank "claude-sonnet-4-20250514" <$> Form.claudeModel f)
            (blank "http://localhost:11434" <$> Form.ollamaEndpoint f)
            (blank "llama3.2" <$> Form.ollamaModel f)
            (Form.darkMode f) (Form.autoSummarize f)
            (blank "gemini" <$> Form.defaultProvider f)
            (Form.assign (Form.modelSelect f) (orDefault (Form.defaultProvider f) "gemini")).
Proof.
  cbv zeta. rewrite save_storage, save_form. cbv zeta.
  unfold SettingsManager.shown. cbv zeta. simpl.
  f_equal; store_lookup; rewrite ?assign_key, ?assign_orDefault; try done.
  - by destruct (Form.darkMode (SettingsManager.form s)) as [[]|].
  - by destruct (Form.autoSummarize (SettingsManager.form s)) as [[]|].
  - destruct (Form.defaultProvider (SettingsManager.form s)) as [v|]; [|done].
    simpl. f_equal. by apply orDefault_idem.
Qed.

(** X17. Saving the dialog and opening it again shows what was entered:
    the keys, the two check boxes and every non-blank field come back as
    they were, while a blank model, endpoint or default provider comes back
    as its default.  The provider selector of the side panel follows the
    default provider.  From then on saving and opening again changes
    neither the dialog nor the store. *)
Theorem settings_round_trip (s : SettingsManager.t) :
  SettingsManager.modal s = true ->
  let f := SettingsManager.form s in
  let s' := SettingsManager.open (SettingsManager.save s) in
  let f' := SettingsManager.form s' in
  let blank d := fun v => orDefault (Some v) d in
  (Form.geminiKey f' = Form.geminiKey f /\
   Form.openaiKey f' = Form.openaiKey f /\
   Form.claudeKey f' = Form.claudeKey f /\
   Form.darkMode f' = Form.darkMode f /\
   Form.autoSummarize f' = Form.autoSummarize f) /\
  (Form.geminiModel f' = blank "gemini-2.0-flash" <$> Form.geminiModel f /\
   Form.openaiModel f' = blank "gpt-4.1" <$> Form.openaiModel f /\
   Form.claudeModel f' = blank "claude-sonnet-4-20250514" <$> Form.claudeModel f /\
   Form.ollamaModel f' = blank "llama3.2" <$> Form.ollamaModel f /\
   Form.ollamaEndpoint f' = blank "http://localhost:11434" <$> Form.ollamaEndpoint f /\
   Form.defaultProvider f' = blank "gemini" <$> Form.defaultProvider f) /\
  Form.modelSelect f' = Form.assign (Form.modelSelect f)
                          (orDefault (Form.defaultProvider f) "gemini") /\
  SettingsManager.modalDisplay s' = Form.assign (SettingsManager.modalDisplay s) "flex" /\
  SettingsManager.form (SettingsManager.open (SettingsManager.save s')) = f' /\
  SettingsManager.storage (SettingsManager.save (SettingsManager.open (SettingsManager.save s')))
  = SettingsManager.storage (SettingsManager.save s').
Proof.
  intros Hmodal. cbv zeta.
  assert (forall s0, SettingsManager.modal s0 = true ->
            SettingsManager.form (SettingsManager.open (SettingsManager.save s0))
            = SettingsManager.shown (SettingsManager.storage (SettingsManager.save s0))
                (SettingsManager.form (SettingsManager.save s0))) as Hopen.
  { intros s0 H0. unfold SettingsManager.open. rewrite save_modal, H0. reflexivity. }
  assert (forall s0, SettingsManager.modal s0 = true ->
            SettingsManager.storage (SettingsManager.open (SettingsManager.save s0))
            = SettingsManager.storage (SettingsManager.save s0)) as Hstore.
  { intros s0 H0. unfold SettingsManager.open. rewrite save_modal, H0. reflexivity. }
  assert (forall s0, SettingsManager.modal s0 = true ->
            SettingsManager.modal (SettingsManager.open (SettingsManager.save s0)) = true)
    as Hbound.
  { intros s0 H0. unfold SettingsManager.open. rewrite save_modal, H0. simpl.
    by rewrite save_modal. }
  set (s' := SettingsManager.open (SettingsManager.save s)).
  pose proof (Hopen s Hmodal) as Hf'. fold s' in Hf'.
  rewrite (shown_saved s) in Hf'. cbv zeta in Hf'.
  assert (SettingsManager.form (SettingsManager.open (SettingsManager.save s'))
          = SettingsManager.form s') as Hfixed.
  { rewrite (Hopen s' (Hbound s Hmodal)), (shown_saved s'). cbv zeta. rewrite Hf'. simpl.
    destruct (SettingsManager.form s) as [a b c d e g h i j k l m]; simpl.
    f_equal;
      repeat match goal with
             | |- context [_ <$> ?x] => is_var x; destruct x; simpl
             | |- context [Form.assign ?x _] => is_var x; destruct x; simpl
             end;
      try done; f_equal; rewrite ?orDefault_idem by done; try done. }
  split; [rewrite Hf'; simpl; done|].
  split; [rewrite Hf'; simpl; done|].
  split; [rewrite Hf'; simpl; done|].
  split.
  { unfold s', SettingsManager.open. rewrite save_modal, Hmodal.
    unfold SettingsManager.save, SettingsManager.close. simpl. rewrite Hmodal. simpl.
    by destruct (SettingsManager.modalDisplay s). }
  split; [exact Hfixed|].
  rewrite !save_storage. cbv zeta. rewrite Hfixed.
  rewrite (Hstore s' (Hbound s Hmodal)). rewrite (save_storage s'). cbv zeta.
  apply map_eq. intros k.
  repeat match goal with
         | |- context [<[?j := _]> _ !! k] =>
             destruct (decide (k = j)) as [->|?];
             [by store_lookup | rewrite !(lookup_insert_ne _ j k) by congruence]
         end.
  done.
Qed.

Lemma isProviderConfigured_key (p : Provider.t) store :
  p <> Provider.ollama ->
  SettingsManager.isProviderConfigured (Provider.name p) store = Provider.isConfigured p store.
Proof.
  intros Hp. unfold SettingsManager.isProviderConfigured, Provider.isConfigured,
    Provider.getApiKey.
  rewrite orDefault_empty.
  destruct p; [| | |done]; simpl;
    by destruct (Storage.getItem _ store).
Qed.

(** X18. After [save], every provider reads back what the dialog held: the
    key field as its key, the model field as its model unless that is blank
    or missing, in which case the provider's own default model; Ollama its
    endpoint likewise.  A hosted provider counts as configured, for the
    settings manager and for the provider itself, exactly when its key
    field was not blank, and the configuration hint of the start-up is due
    exactly when all three key fields were blank.  The default provider is
    the one chosen in the dialog, or Gemini; it is never blank. *)
Theorem save_configures_providers (s : SettingsManager.t) :
  let f := SettingsManager.form s in
  let store := SettingsManager.storage (SettingsManager.save s) in
  (forall p, Provider.getModel p store = orDefault (modelField p f) (Provider.defaultModel p)) /\
  Provider.getEndpoint store = orDefault (Form.ollamaEndpoint f) "http://localhost:11434" /\
  (forall p, p <> Provider.ollama ->
     Provider.getApiKey p store = JS.orEmpty (keyField p f) /\
     Provider.isConfigured p store = JS.truthy (keyField p f) /\
     SettingsManager.isProviderConfigured (Provider.name p) store = JS.truthy (keyField p f)) /\
  (App.hasKey store = false <->
   forall p, p <> Provider.ollama -> JS.truthy (keyField p f) = false) /\
  SettingsManager.getDefaultProvider store = orDefault (Form.defaultProvider f) "gemini" /\
  SettingsManager.getDefaultProvider store <> EmptyString.
Proof.
  cbv zeta.
  assert (forall p, p <> Provider.ollama ->
            Provider.isConfigured p (SettingsManager.storage (SettingsManager.save s))
            = JS.truthy (keyField p (SettingsManager.form s))) as Hconf.
  { intros p Hp. unfold Provider.isConfigured, Provider.getApiKey, Storage.getItem.
    rewrite (save_key s p Hp), orDefault_empty. simpl.
    by destruct (keyField p (SettingsManager.form s)). }
  split; [|split; [|split; [|split; [|split]]]].
  - intros p. unfold Provider.getModel, Storage.getItem.
    by rewrite save_model, orDefault_orEmpty.
  - unfold Provider.getEndpoint. rewrite save_storage. cbv zeta. store_lookup.
    by rewrite orDefault_orEmpty.
  - intros p Hp. split; [|split].
    + unfold Provider.getApiKey, Storage.getItem.
      rewrite (save_key s p Hp), orDefault_empty. done.
    + by apply Hconf.
    + rewrite isProviderConfigured_key by done. by apply Hconf.
  - pose proof (save_key s Provider.gemini ltac:(done)) as Hg.
    pose proof (save_key s Provider.openai ltac:(done)) as Ho.
    pose proof (save_key s Provider.claude ltac:(done)) as Hc.
    cbn [Provider.name String.append keyField] in Hg, Ho, Hc.
    unfold App.hasKey, Storage.getItem. cbn [existsb String.append].
    rewrite Hg, Ho, Hc, !truthy_orEmpty, orb_false_r. split.
    + intros H p Hp. destruct p; [| | |done]; simpl;
        destruct (JS.truthy (Form.geminiKey _)), (JS.truthy (Form.openaiKey _)),
          (JS.truthy (Form.claudeKey _)); done.
    + intros H.
      pose proof (H Provider.gemini ltac:(done)) as H1.
      pose proof (H Provider.openai ltac:(done)) as H2.
      pose proof (H Provider.claude ltac:(done)) as H3.
      simpl in H1, H2, H3. by rewrite H1, H2, H3.
  - unfold SettingsManager.getDefaultProvider. rewrite save_storage. cbv zeta. store_lookup.
    by apply orDefault_idem.
  - by apply orDefault_nonempty.
Qed.

(** X19. The dialog shows what the providers use, whatever the store holds:
    each model field is given the model that the provider's [getModel]
    answers, each key field the provider's key, the endpoint field Ollama's
    endpoint, and the provider field the default provider, which is also
    what the start-up puts into the selector of the side panel.  The dark
    mode box is checked exactly when the start-up leaves the body without
    the class [light-mode]. *)
Theorem dialog_shows_what_providers_use (store : gmap string string) (f : Form.t) :
  let f' := SettingsManager.shown store f in
  (forall p, modelField p f' = Form.assign (modelField p f) (Provider.getModel p store)) /\
  (forall p, keyField p f' = Form.assign (keyField p f) (Provider.getApiKey p store)) /\
  Form.ollamaEndpoint f' = Form.assign (Form.ollamaEndpoint f) (Provider.getEndpoint store) /\
  Form.defaultProvider f'
  = Form.assign (Form.defaultProvider f) (SettingsManager.getDefaultProvider store) /\
  (forall a, App.modelSelect (App.applySettings store a)
             = Form.assign (App.modelSelect a) (SettingsManager.getDefaultProvider store)) /\
  (forall a, App.lightMode a = false ->
     Form.darkMode f' = Form.assign (Form.darkMode f)
                          (negb (App.lightMode (App.applySettings store a)))).
Proof.
  cbv zeta. split; [|split; [|split; [|split; [|split]]]].
  - intros []; reflexivity.
  - intros []; reflexivity.
  - reflexivity.
  - reflexivity.
  - intros a. unfold App.applySettings, App.checkProviderConfiguration. cbv zeta.
    destruct (negb (App.hasKey store));
      destruct (negb (negb (bool_decide (Storage.getItem "dark_mode" store = Some "false"))));
      reflexivity.
  - intros a Ha. unfold App.applySettings, App.checkProviderConfiguration. cbv zeta.
    unfold SettingsManager.shown. cbv zeta. simpl.
    destruct (negb (App.hasKey store));
      destruct (bool_decide (Storage.getItem "dark_mode" store = Some "false")); simpl;
      rewrite ?Ha; reflexivity.
Qed.

Lemma string_app_cancel_r (a b c : string) : a +:+ c = b +:+ c -> a = b.
Proof.
  intros Heq.
  assert (String.length a = String.length b) as Hlen.
  { apply (f_equal String.length) in Heq. rewrite !string_length_app in Heq. lia. }
  revert b Heq Hlen. induction a as [|x a IH]; intros [|y b] Heq Hlen; simpl in *;
    try done.
  injection Heq as -> Heq. f_equal. apply IH; [done | lia].
Qed.

Lemma substring_suffix (a c : string) :
  String.substring (String.length (a +:+ c) - String.length c) (String.length c) (a +:+ c) = c.
Proof.
  rewrite string_length_app.
  replace (String.length a + String.length c - String.length c) with (String.length a) by lia.
  assert (forall t : string, String.substring 0 (String.length t) t = t) as Hall.
  { induction t as [|y t IHt]; simpl; [done | by rewrite IHt]. }
  induction a as [|x a IH]; simpl; [apply Hall | exact IH].
Qed.

Lemma api_key_saved (name : string) :
  name +:+ "_api_key" ∈ SettingsManager.savedKeys -> name ∈ ["gemini"; "openai"; "claude"].
Proof.
  unfold SettingsManager.savedKeys. intros Hin.
  pose proof (substring_suffix name "_api_key") as Htail.
  repeat (apply elem_of_cons in Hin as [Hin|Hin];
          [first [ apply (string_app_cancel_r name "gemini" "_api_key") in Hin; subst name;
                   apply list_elem_of_here
                 | apply (string_app_cancel_r name "openai" "_api_key") in Hin; subst name;
                   apply list_elem_of_further, list_elem_of_here
                 | apply (string_app_cancel_r name "claude" "_api_key") in Hin; subst name;
                   do 2 apply list_elem_of_further; apply list_elem_of_here
                 | rewrite Hin in Htail; vm_compute in Htail; discriminate ]|]).
  by apply elem_of_nil in Hin.
Qed.

(** X20. [save] writes its eleven keys and nothing else: every other entry
    of the store, such as the saved workflows, stays as it is, and so does
    the answer of [isProviderConfigured] for every provider name other than
    the three hosted ones.  It shows one confirmation, hides the dialog if
    there is one, and leaves the fields of the dialog as they are. *)
Theorem save_writes_only_its_keys (s : SettingsManager.t) :
  let s' := SettingsManager.save s in
  (forall k, k ∉ SettingsManager.savedKeys ->
     Storage.getItem k (SettingsManager.storage s')
     = Storage.getItem k (SettingsManager.storage s)) /\
  (forall k, k ∈ SettingsManager.savedKeys ->
     is_Some (Storage.getItem k (SettingsManager.storage s'))) /\
  Storage.getItem "workflows" (SettingsManager.storage s')
  = Storage.getItem "workflows" (SettingsManager.storage s) /\
  (forall name, name ∉ ["gemini"; "openai"; "claude"] ->
     SettingsManager.isProviderConfigured name (SettingsManager.storage s')
     = SettingsManager.isProviderConfigured name (SettingsManager.storage s)) /\
  SettingsManager.toasts s' = S (SettingsManager.toasts s) /\
  SettingsManager.modalDisplay s'
  = (if SettingsManager.modal s then Form.assign (SettingsManager.modalDisplay s) "none"
     else SettingsManager.modalDisplay s) /\
  Form.set_modelSelect (Form.modelSelect (SettingsManager.form s)) (SettingsManager.form s')
  = SettingsManager.form s.
Proof.
  cbv zeta. split; [|split; [|split; [|split; [|split; [|split]]]]].
  - intros k Hk. by apply save_other.
  - intros k Hk. unfold Storage.getItem. rewrite save_storage. cbv zeta.
    unfold SettingsManager.savedKeys in Hk.
    repeat (apply elem_of_cons in Hk as [->|Hk]; [store_lookup; by eexists|]).
    by apply elem_of_nil in Hk.
  - apply save_other. unfold SettingsManager.savedKeys. intros Hin.
    repeat (apply elem_of_cons in Hin as [Hin|Hin]; [discriminate|]).
    by apply elem_of_nil in Hin.
  - intros name Hname. unfold SettingsManager.isProviderConfigured.
    destruct (String.eqb name "ollama"); [done|].
    unfold Storage.getItem. rewrite save_other; [done|].
    intros Hin. by apply Hname, api_key_saved.
  - unfold SettingsManager.save, SettingsManager.close. simpl.
    by destruct (SettingsManager.modal s).
  - unfold SettingsManager.save, SettingsManager.close. simpl.
    by destruct (SettingsManager.modal s).
  - rewrite save_form. by destruct (SettingsManager.form s).
Qed.

Lemma name_eqb (p : Provider.t) (n : string) :
  String.eqb (Provider.name p) n = bool_decide (Provider.name p = n).
Proof.
  destruct (String.eqb_spec (Provider.name p) n) as [->|Hne].
  - by rewrite bool_decide_eq_true_2.
  - by rewrite bool_decide_eq_false_2.
Qed.

Lemma getProvider_name (p : Provider.t) : LLMProviders.getProvider (Provider.name p) = LLMProviders.Own p.
Proof. by destruct p. Qed.

Lemma getProvider_other (name : string) :
  name ∉ ["gemini"; "openai"; "claude"; "ollama"] ->
  LLMProviders.getProvider name
  = if bool_decide (name ∈ LLMProviders.objectPrototype) then LLMProviders.Inherited name
    else LLMProviders.Own Provider.gemini.
Proof.
  intros Hname. unfold LLMProviders.getProvider, LLMProviders.providers.
  destruct (String.eqb_spec name "gemini") as [->|_].
  { exfalso. apply Hname. apply list_elem_of_here. }
  destruct (String.eqb_spec name "openai") as [->|_].
  { exfalso. apply Hname. apply list_elem_of_further, list_elem_of_here. }
  destruct (String.eqb_spec name "claude") as [->|_].
  { exfalso. apply Hname. do 2 apply list_elem_of_further. apply list_elem_of_here. }
  destruct (String.eqb_spec name "ollama") as [->|_].
  { exfalso. apply Hname. do 3 apply list_elem_of_further. apply list_elem_of_here. }
  by destruct (bool_decide (name ∈ LLMProviders.objectPrototype)).
Qed.

Lemma provider_sendMessage_Some (p : Provider.t) store :
  SettingsManager.isProviderConfigured (Provider.name p) store = true ->
  is_Some (Provider.sendMessage p store).
Proof.
  intros Hconf. destruct p; [| | |by eexists];
    (rewrite isProviderConfigured_key in Hconf by done;
     unfold Provider.isConfigured in Hconf; apply negb_true_iff in Hconf;
     unfold Provider.sendMessage; rewrite Hconf; by eexists).
Qed.

(** X21. A message of the side panel goes to the provider that the selector
    names.  For each of the four providers the check by the settings manager
    is as strict as the provider's own: when it passes, the provider builds
    its request, and when it fails, the error names that provider; the
    provider's own complaint about a missing key never shows.  A blank or
    missing selector stands for Gemini.  Any other name, once a key of its own
    is in the store, is answered by Gemini with Gemini's key, unless it names a
    property of [Object.prototype], which is no provider.  Without a
    settings manager nothing is sent. *)
Theorem send_reaches_selected_provider (store : gmap string string) :
  (forall p,
     let sent := SidePanel.sendMessage (Some (Provider.name p)) true store in
     (SettingsManager.isProviderConfigured (Provider.name p) store = true ->
      exists request, Provider.sendMessage p store = Some request /\ sent = inr request /\
                      Provider.model request = Provider.getModel p store) /\
     (SettingsManager.isProviderConfigured (Provider.name p) store = false ->
      sent = inl (NotConfigured (Provider.name p))) /\
     (forall q, sent <> inl (KeyMissing q))) /\
  SidePanel.sendMessage None true store = SidePanel.sendMessage (Some "gemini") true store /\
  SidePanel.sendMessage (Some EmptyString) true store
  = SidePanel.sendMessage (Some "gemini") true store /\
  (forall name, name ∉ [EmptyString; "gemini"; "openai"; "claude"; "ollama"] ->
     SettingsManager.isProviderConfigured name store = true ->
     SidePanel.sendMessage (Some name) true store
     = if bool_decide (name ∈ LLMProviders.objectPrototype) then inl (NotAProvider name)
       else match Provider.sendMessage Provider.gemini store with
            | Some request => inr request
            | None => inl (KeyMissing Provider.gemini)
            end) /\
  (forall selected, SidePanel.sendMessage selected false store
                    = inl (NotConfigured (orDefault selected "gemini"))).
Proof.
  assert (forall p, orDefault (Some (Provider.name p)) "gemini" = Provider.name p) as Hsel
    by (by intros []).
  split; [|split; [|split; [|split]]].
  - intros p. cbv zeta. unfold SidePanel.sendMessage. cbv zeta. rewrite Hsel.
    unfold LLMProviders.sendMessage. rewrite getProvider_name.
    destruct (SettingsManager.isProviderConfigured (Provider.name p) store) eqn:Hconf;
      simpl.
    + destruct (provider_sendMessage_Some p store Hconf) as [request Hreq].
      rewrite Hreq. split; [|split]; [|done|done].
      intros _. exists request. split; [done|]. split; [done|].
      destruct p; unfold Provider.sendMessage in Hreq;
        try destruct (String.eqb _ EmptyString); by simplify_eq.
    + split; [done|]. split; [done|]. done.
  - reflexivity.
  - reflexivity.
  - intros name Hname Hconf. unfold SidePanel.sendMessage. cbv zeta.
    assert (name <> EmptyString) as Hne.
    { intros ->. apply Hname, list_elem_of_here. }
    assert (name ∉ ["gemini"; "openai"; "claude"; "ollama"]) as Hother.
    { intros Hin. by apply Hname, list_elem_of_further. }
    rewrite orDefault_Some. destruct (String.eqb_spec name EmptyString); [done|].
    rewrite Hconf. simpl. unfold LLMProviders.sendMessage.
    rewrite (getProvider_other name Hother).
    by destruct (bool_decide (name ∈ LLMProviders.objectPrototype)).
  - intros selected. reflexivity.
Qed.

Lemma getModel_saved s p :
  Provider.getModel p (SettingsManager.storage (SettingsManager.save s))
  = orDefault (modelField p (SettingsManager.form s)) (Provider.defaultModel p).
Proof.
  unfold Provider.getModel, Storage.getItem. by rewrite save_model, orDefault_orEmpty.
Qed.

Lemma getApiKey_saved s p :
  p <> Provider.ollama ->
  Provider.getApiKey p (SettingsManager.storage (SettingsManager.save s))
  = JS.orEmpty (keyField p (SettingsManager.form s)).
Proof.
  intros Hp. unfold Provider.getApiKey, Storage.getItem.
  by rewrite (save_key s p Hp), orDefault_empty.
Qed.

Lemma getEndpoint_saved s :
  Provider.getEndpoint (SettingsManager.storage (SettingsManager.save s))
  = orDefault (Form.ollamaEndpoint (SettingsManager.form s)) "http://localhost:11434".
Proof.
  unfold Provider.getEndpoint. rewrite save_storage. cbv zeta. store_lookup.
  by rewrite orDefault_orEmpty.
Qed.

(** X22. From the dialog to the request.  When the dialog names one of the
    four providers as the default and holds a key for it (Ollama needs
    none), then after [save] a message of the side panel is sent to that
    provider with the key and the model of the dialog, the provider's
    default model standing in for a blank one: Gemini carries the key in the
    URL, OpenAI and Claude in a header, and Ollama is reached at the
    endpoint of the dialog. *)
Theorem saved_settings_reach_request (s : SettingsManager.t) (p : Provider.t) :
  let f := SettingsManager.form s in
  Form.defaultProvider f = Some (Provider.name p) ->
  is_Some (Form.modelSelect f) ->
  (p <> Provider.ollama -> JS.truthy (keyField p f) = true) ->
  let s' := SettingsManager.save s in
  let key := JS.orEmpty (keyField p f) in
  let model := orDefault (modelField p f) (Provider.defaultModel p) in
  SidePanel.sendMessage (Form.modelSelect (SettingsManager.form s')) true
    (SettingsManager.storage s')
  = inr match p with
        | Provider.gemini =>
            Provider.mkFetch
              ("https://generativelanguage.googleapis.com/v1beta/models/" +:+ model
                 +:+ ":generateContent?key=" +:+ key)
              model None
        | Provider.openai =>
            Provider.mkFetch "https://api.openai.com/v1/chat/completions" model
              (Some ("Authorization", "Bearer " +:+ key))
        | Provider.claude =>
            Provider.mkFetch "https://api.anthropic.com/v1/messages" model
              (Some ("x-api-key", key))
        | Provider.ollama =>
            Provider.mkFetch
              (orDefault (Form.ollamaEndpoint f) "http://localhost:11434" +:+ "/api/chat")
              model None
        end.
Proof.
  cbv zeta. intros Hdefault [selected Hselect] Hkey.
  assert (orDefault (Some (Provider.name p)) "gemini" = Provider.name p) as Hsel
    by (by destruct p).
  rewrite save_form. simpl. rewrite Hselect, Hdefault. simpl. rewrite Hsel.
  unfold SidePanel.sendMessage. cbv zeta. rewrite Hsel.
  unfold LLMProviders.sendMessage. rewrite getProvider_name.
  destruct (decide (Provider.name p = "ollama")) as [Hollama|Hhosted].
  - assert (p = Provider.ollama) as -> by (by destruct p).
    unfold Provider.sendMessage.
    rewrite getEndpoint_saved, (getModel_saved s Provider.ollama). reflexivity.
  - assert (p <> Provider.ollama) as Hp by (by intros ->).
    specialize (Hkey Hp).
    rewrite isProviderConfigured_key by done.
    unfold Provider.isConfigured. rewrite (getApiKey_saved s p Hp).
    assert (String.eqb (JS.orEmpty (keyField p (SettingsManager.form s))) EmptyString = false)
      as Hne.
    { destruct (keyField p (SettingsManager.form s)) as [k|]; [|done].
      simpl in *. by apply negb_true_iff. }
    rewrite Hne. simpl.
    destruct p; [| | |done]; unfold Provider.sendMessage;
      rewrite getApiKey_saved, Hne, getModel_saved by done; reflexivity.
Qed.

(** ** The settings on a sample dialog *)

(** An instance of X17: the blank Gemini model comes back as the default
    model, the unchecked dark mode box stays unchecked, and the selector of
    the side panel moves from OpenAI to Gemini. *)
Lemma settings_round_trip_witness :
  SettingsManager.modal filledDialog = true /\
  let f' := SettingsManager.form (SettingsManager.open (SettingsManager.save filledDialog)) in
  Form.geminiKey f' = Some "AIza-demo" /\
  Form.geminiModel f' = Some "gemini-2.0-flash" /\
  Form.ollamaModel f' = Some "mistral" /\
  Form.claudeKey f' = None /\
  Form.darkMode f' = Some false /\
  Form.modelSelect f' = Some "gemini".
Proof.
  split; [reflexivity|].
  destruct (settings_round_trip filledDialog eq_refl)
    as ((Hkey & _ & Hclaude & Hdark & _) & (Hmodel & _ & _ & Hollama & _) & Hselect & _).
  cbv zeta.
  rewrite Hkey, Hmodel, Hollama, Hclaude, Hdark, Hselect.
  repeat split; reflexivity.
Defined.

(** An instance of X18: after saving the sample dialog, Gemini is
    configured with the key entered and its default model, OpenAI is not
    configured, and no hint is due. *)
Lemma save_configures_providers_witness :
  let store := SettingsManager.storage (SettingsManager.save filledDialog) in
  Provider.getApiKey Provider.gemini store = "AIza-demo" /\
  Provider.getModel Provider.gemini store = "gemini-2.0-flash" /\
  Provider.getModel Provider.openai store = "gpt-4.1-mini" /\
  SettingsManager.isProviderConfigured "gemini" store = true /\
  SettingsManager.isProviderConfigured "openai" store = false /\
  App.hasKey store <> false.
Proof.
  destruct (save_configures_providers filledDialog) as (Hmodel & _ & Hkey & Hhint & _).
  destruct (Hkey Provider.gemini ltac:(discriminate)) as (Hg & _ & Hconf).
  destruct (Hkey Provider.openai ltac:(discriminate)) as (_ & _ & Hopenai).
  cbv zeta.
  refine (conj Hg (conj (Hmodel Provider.gemini) (conj (Hmodel Provider.openai)
           (conj Hconf (conj Hopenai _))))).
  intros Hnone. destruct Hhint as [Hhint _].
  pose proof (Hhint Hnone Provider.gemini ltac:(discriminate)) as Hfalse.
  discriminate Hfalse.
Defined.

(** An instance of X19: on an empty store the dialog shows the defaults that
    the providers use, and the dark mode box is checked. *)
Lemma dialog_shows_what_providers_use_witness :
  let f' := SettingsManager.shown ∅ filledForm in
  Form.geminiModel f' = Some (Provider.getModel Provider.gemini ∅) /\
  Form.geminiModel f' = Some "gemini-2.0-flash" /\
  App.lightMode (App.mk false None 0) = false /\
  Form.darkMode f' = Some (negb (App.lightMode (App.applySettings ∅ (App.mk false None 0)))) /\
  Form.darkMode f' = Some true.
Proof.
  destruct (dialog_shows_what_providers_use ∅ filledForm) as (Hmodel & _ & _ & _ & _ & Hdark).
  cbv zeta.
  refine (conj (Hmodel Provider.gemini) (conj _ (conj eq_refl
           (conj (Hdark (App.mk false None 0) eq_refl) _)))); reflexivity.
Defined.

(** An instance of X20: saving the sample dialog keeps the stored
    workflows. *)
Lemma save_writes_only_its_keys_witness :
  ("workflows" ∉ SettingsManager.savedKeys) /\
  Storage.getItem "workflows" (SettingsManager.storage (SettingsManager.save filledDialog))
  = Some "[]" /\
  SettingsManager.toasts (SettingsManager.save filledDialog) = 1.
Proof.
  assert ("workflows" ∉ SettingsManager.savedKeys) as Hk.
  { unfold SettingsManager.savedKeys. intros Hin.
    repeat (apply elem_of_cons in Hin as [Hin|Hin]; [discriminate|]).
    by apply elem_of_nil in Hin. }
  destruct (save_writes_only_its_keys filledDialog) as (Hother & _ & _ & _ & Htoasts & _).
  refine (conj Hk (conj _ Htoasts)).
  rewrite (Hother "workflows" Hk). reflexivity.
Defined.

(** An instance of X21: with only a key for "mistral" in the store, a
    message for "mistral" passes the check of the settings manager and is
    turned down by Gemini for want of Gemini's key. *)
Lemma send_reaches_selected_provider_witness :
  ("mistral" ∉ [EmptyString; "gemini"; "openai"; "claude"; "ollama"]) /\
  SettingsManager.isProviderConfigured "mistral" strayStore = true /\
  SidePanel.sendMessage (Some "mistral") true strayStore = inl (KeyMissing Provider.gemini) /\
  SettingsManager.isProviderConfigured "gemini" strayStore = false /\
  SidePanel.sendMessage (Some "gemini") true strayStore = inl (NotConfigured "gemini").
Proof.
  assert ("mistral" ∉ [EmptyString; "gemini"; "openai"; "claude"; "ollama"]) as Hname.
  { intros Hin.
    repeat (apply elem_of_cons in Hin as [Hin|Hin]; [discriminate|]).
    by apply elem_of_nil in Hin. }
  assert (SettingsManager.isProviderConfigured "mistral" strayStore = true) as Hconf
    by reflexivity.
  assert (SettingsManager.isProviderConfigured "gemini" strayStore = false) as Hgemini
    by reflexivity.
  destruct (send_reaches_selected_provider strayStore) as (Hfour & _ & _ & Hother & _).
  destruct (Hfour Provider.gemini) as (_ & Hnot & _).
  refine (conj Hname (conj Hconf (conj _ (conj Hgemini (Hnot Hgemini))))).
  rewrite (Hother "mistral" Hname Hconf). reflexivity.
Defined.

(** An instance of X22: the key and the default model of the sample dialog
    in the URL of the request to Gemini. *)
Lemma saved_settings_reach_request_witness :
  Form.defaultProvider filledForm = Some (Provider.name Provider.gemini) /\
  is_Some (Form.modelSelect filledForm) /\
  JS.truthy (keyField Provider.gemini filledForm) = true /\
  SidePanel.sendMessage
    (Form.modelSelect (SettingsManager.form (SettingsManager.save filledDialog))) true
    (SettingsManager.storage (SettingsManager.save filledDialog))
  = inr (Provider.mkFetch
           ("https://generativelanguage.googleapis.com/v1beta/models/gemini-2.0-flash"
              +:+ ":generateContent?key=AIza-demo")
           "gemini-2.0-flash" None).
Proof.
  assert (is_Some (Form.modelSelect filledForm)) as Hsel by (by eexists).
  refine (conj eq_refl (conj Hsel (conj eq_refl _))).
  exact (saved_settings_reach_request filledDialog Provider.gemini eq_refl Hsel
           (fun _ => eq_refl)).
Defined.

(** ** Teach mode: what is recorded *)

Section RecorderFacts.

Variable now : nat -> Z.
Variable toISOString : Z -> string.

Lemma renderWorkflows_fields s :
  let s' := Recorder.renderWorkflows s in
  Recorder.isRecording s' = Recorder.isRecording s /\
  Recorder.recordedActions s' = Recorder.recordedActions s /\
  Recorder.listeners s' = Recorder.listeners s /\
  Recorder.bound s' = Recorder.bound s /\
  Recorder.stored s' = Recorder.stored s /\
  Recorder.recordBtn s' = Recorder.recordBtn s /\
  Recorder.teachMessages s' = Recorder.teachMessages s /\
  Recorder.ticks s' = Recorder.ticks s.
Proof.
  unfold Recorder.renderWorkflows. by destruct (Recorder.savedWorkflows s).
Qed.

Lemma saveWorkflow_fields s :
  let s' := (Recorder.saveWorkflow now toISOString s) in
  Recorder.isRecording s' = Recorder.isRecording s /\
  Recorder.recordedActions s' = Recorder.recordedActions s /\
  Recorder.listeners s' = Recorder.listeners s /\
  Recorder.bound s' = Recorder.bound s /\
  Recorder.recordBtn s' = Recorder.recordBtn s /\
  Recorder.ticks s' = S (S (Recorder.ticks s)) /\
  Recorder.stored s'
  = Some (Recorder.workflows s
            ++ [Workflow.mk (now (Recorder.ticks s))
                  ("Workflow " +:+ pretty (length (Recorder.workflows s) + 1))
                  (Recorder.recordedActions s)
                  (toISOString (now (S (Recorder.ticks s))))])%list.
Proof.
  unfold Recorder.saveWorkflow, Recorder.tick, Recorder.notify. cbv zeta. simpl.
  unfold Recorder.renderWorkflows. simpl.
  by destruct (Recorder.savedWorkflows s).
Qed.

Lemma filter_fresh (l : list (string * nat)) (type : string) (f : nat) :
  (forall ty g, (ty, g) ∈ l -> g < f) ->
  filter (fun x => x <> (type, f)) l = l.
Proof.
  intros Hlt. induction l as [|[ty g] l IH]; [done|].
  rewrite filter_cons_True.
  - f_equal. apply IH. intros ty' g' Hin. apply (Hlt ty' g'). by apply list_elem_of_further.
  - intros [= -> ->]. specialize (Hlt type f (list_elem_of_here _ _)). lia.
Qed.

(** Stopping removes no listener: the functions it hands to
    [removeEventListener] are new. *)
Lemma stopRecording_listeners s :
  listeners_ok s -> Recorder.listeners (Recorder.stopRecording now toISOString s) = Recorder.listeners s.
Proof.
  intros Hok. unfold Recorder.stopRecording, Recorder.bind, Recorder.removeEventListener.
  cbv zeta. simpl.
  assert (filter (fun l => l <> ("click", Recorder.bound s)) (Recorder.listeners s)
          = Recorder.listeners s) as H1.
  { apply filter_fresh. intros ty g Hin. by apply (Hok ty g). }
  rewrite H1.
  assert (filter (fun l => l <> ("input", S (Recorder.bound s))) (Recorder.listeners s)
          = Recorder.listeners s) as H2.
  { apply filter_fresh. intros ty g Hin. pose proof (Hok ty g Hin). lia. }
  rewrite H2.
  match goal with |- context [if ?c then _ else _] => destruct c end; [|done].
  match goal with |- Recorder.listeners (Recorder.saveWorkflow now toISOString ?x) = _ =>
    destruct (saveWorkflow_fields x) as (_ & _ & Hl & _) end.
  by rewrite Hl.
Qed.

Lemma stopRecording_bound s : Recorder.bound (Recorder.stopRecording now toISOString s) = S (S (Recorder.bound s)).
Proof.
  unfold Recorder.stopRecording, Recorder.bind, Recorder.removeEventListener.
  cbv zeta. simpl.
  match goal with |- context [if ?c then _ else _] => destruct c end; [|done].
  match goal with |- Recorder.bound (Recorder.saveWorkflow now toISOString ?x) = _ =>
    destruct (saveWorkflow_fields x) as (_ & _ & _ & Hb & _) end.
  by rewrite Hb.
Qed.

(** Starting adds a click listener and an input listener. *)
Lemma startRecording_listeners s :
  listeners_ok s ->
  Recorder.listeners (Recorder.startRecording s)
  = (Recorder.listeners s
       ++ [("click", Recorder.bound s); ("input", S (Recorder.bound s))])%list.
Proof.
  intros Hok. unfold Recorder.startRecording, Recorder.bind, Recorder.addEventListener.
  cbv zeta. simpl.
  destruct (bool_decide_reflect (("click", Recorder.bound s) ∈ Recorder.listeners s))
    as [H1|H1].
  { pose proof (Hok _ _ H1). lia. }
  simpl. case_bool_decide as H2.
  { apply elem_of_app in H2 as [H2|H2].
    - pose proof (Hok _ _ H2). lia.
    - apply list_elem_of_singleton in H2. discriminate. }
  simpl. by rewrite <- app_assoc.
Qed.

Lemma startRecording_bound s : Recorder.bound (Recorder.startRecording s) = S (S (Recorder.bound s)).
Proof.
  unfold Recorder.startRecording, Recorder.bind, Recorder.addEventListener.
  cbv zeta. simpl.
  destruct (bool_decide (("click", Recorder.bound s) ∈ Recorder.listeners s)); simpl;
    match goal with |- context [bool_decide ?P] => destruct (bool_decide P) end; done.
Qed.

Lemma recordsOnly_refl s : recordsOnly s s.
Proof. by repeat split. Qed.

Lemma recordsOnly_trans s1 s2 s3 : recordsOnly s1 s2 -> recordsOnly s2 s3 -> recordsOnly s1 s3.
Proof.
  unfold recordsOnly. intros (A1 & A2 & A3 & A4 & A5 & A6 & A7) (B1 & B2 & B3 & B4 & B5 & B6 & B7).
  by rewrite B1, B2, B3, B4, B5, B6, B7.
Qed.

(** One listener at work. *)
Lemma handle_records type e s :
  recordsOnly s (Recorder.handle now type e s) /\
  outline <$> Recorder.recordedActions (Recorder.handle now type e s)
  = ((outline <$> Recorder.recordedActions s) ++ recordedBy 1 type e)%list.
Proof.
  unfold Recorder.handle, recordedBy, Recorder.recordClick, Recorder.recordInput.
  destruct (String.eqb type "click"); [|destruct (String.eqb type "input")];
    destruct (Target.inPageFrame e); simpl;
    rewrite ?fmap_app, ?app_nil_r; split; try done; by repeat split.
Qed.

Lemma recordedBy_S k type e :
  recordedBy (S k) type e = (recordedBy 1 type e ++ recordedBy k type e)%list.
Proof.
  unfold recordedBy. destruct (Target.inPageFrame e); [|done].
  destruct (String.eqb type "click"); [done|]. by destruct (String.eqb type "input").
Qed.

Lemma recordedBy_0 type e : recordedBy 0 type e = [].
Proof.
  unfold recordedBy. destruct (Target.inPageFrame e); [|done].
  destruct (String.eqb type "click"); [done|]. by destruct (String.eqb type "input").
Qed.

(** All the listeners of a type at work, one after the other. *)
Lemma listeners_record type e (l : list (string * nat)) s :
  let s' := fold_left
              (fun s x => if String.eqb (fst x) type then Recorder.handle now type e s else s)
              l s in
  recordsOnly s s' /\
  outline <$> Recorder.recordedActions s'
  = ((outline <$> Recorder.recordedActions s)
       ++ recordedBy (length (filter (fun x => x.1 = type) l)) type e)%list.
Proof.
  revert s. induction l as [|[ty f] l IH]; intros s; cbv zeta.
  - simpl. rewrite recordedBy_0, app_nil_r. split; [apply recordsOnly_refl | done].
  - simpl fold_left. destruct (String.eqb_spec ty type) as [->|Hne].
    + rewrite filter_cons_True by done. simpl length.
      destruct (handle_records type e s) as [Hsame Hrec].
      destruct (IH (Recorder.handle now type e s)) as [Hsame' Hrec'].
      split; [by eapply recordsOnly_trans|].
      rewrite Hrec', Hrec, (recordedBy_S (length _)), app_assoc. done.
    + rewrite filter_cons_False by done. apply IH.
Qed.

Lemma dispatchEvent_records type e s :
  recordsOnly s (Recorder.dispatchEvent now type e s) /\
  outline <$> Recorder.recordedActions (Recorder.dispatchEvent now type e s)
  = ((outline <$> Recorder.recordedActions s) ++ recordedBy (listening type s) type e)%list.
Proof. apply listeners_record. Qed.

Lemma div2_S n : Nat.div2 (S n) = if Nat.odd n then S (Nat.div2 n) else Nat.div2 n.
Proof.
  assert (forall m, (Nat.div2 (S m) = if Nat.odd m then S (Nat.div2 m) else Nat.div2 m) /\
                    (Nat.div2 (S (S m))
                     = if Nat.odd (S m) then S (Nat.div2 (S m)) else Nat.div2 (S m))) as H.
  { induction m as [|m [IH1 IH2]]; [by split|]. split; [exact IH2|].
    change (Nat.div2 (S (S (S m)))) with (S (Nat.div2 (S m))).
    change (Nat.odd (S (S m))) with (Nat.odd m).
    rewrite IH1. by destruct (Nat.odd m). }
  apply H.
Qed.

Lemma odd_S n : Nat.odd (S n) = negb (Nat.odd n).
Proof. rewrite Nat.odd_succ. by rewrite <- Nat.negb_odd. Qed.

Lemma listeners_ok_same s s' :
  Recorder.listeners s' = Recorder.listeners s -> Recorder.bound s <= Recorder.bound s' ->
  listeners_ok s -> listeners_ok s'.
Proof.
  intros Hl Hb Hok type f Hin. rewrite Hl in Hin. destruct (Hok type f Hin). split; [lia|done].
Qed.

Lemma listening_same type s s' :
  Recorder.listeners s' = Recorder.listeners s -> listening type s' = listening type s.
Proof. unfold listening. by intros ->. Qed.

Lemma toggleRecording_listeners s :
  listeners_ok s ->
  Recorder.listeners (Recorder.toggleRecording now toISOString s)
  = if Recorder.isRecording s then Recorder.listeners s
    else (Recorder.listeners s
            ++ [("click", Recorder.bound s); ("input", S (Recorder.bound s))])%list.
Proof.
  intros Hok. unfold Recorder.toggleRecording. cbv zeta.
  destruct (Recorder.isRecording s); simpl.
  - by apply stopRecording_listeners.
  - by apply startRecording_listeners.
Qed.

Lemma toggleRecording_bound s :
  Recorder.bound (Recorder.toggleRecording now toISOString s) = S (S (Recorder.bound s)).
Proof.
  unfold Recorder.toggleRecording. cbv zeta.
  destruct (Recorder.isRecording s); simpl.
  - apply stopRecording_bound.
  - apply startRecording_bound.
Qed.

Lemma toggleRecording_flag s :
  Recorder.isRecording (Recorder.toggleRecording now toISOString s)
  = negb (Recorder.isRecording s).
Proof. reflexivity. Qed.

Lemma toggleRecording_ok n s :
  recorder_ok n s -> recorder_ok (S n) (Recorder.toggleRecording now toISOString s).
Proof.
  intros (Hok & Hclick & Hinput & Hflag).
  pose proof (toggleRecording_listeners s Hok) as Hl.
  pose proof (toggleRecording_bound s) as Hb.
  split; [|split; [|split]].
  - intros type f Hin. rewrite Hl in Hin. rewrite Hb.
    destruct (Recorder.isRecording s).
    + destruct (Hok type f Hin). split; [lia|done].
    + apply elem_of_app in Hin as [Hin|Hin].
      * destruct (Hok type f Hin). split; [lia|done].
      * apply elem_of_cons in Hin as [[= -> ->]|Hin]; [split; [lia|by left]|].
        apply list_elem_of_singleton in Hin as [= -> ->]. split; [lia|by right].
  - unfold listening in *. rewrite Hl, (div2_S (S n)), odd_S, <- Hflag.
    destruct (Recorder.isRecording s); simpl negb; cbv iota; [done|].
    rewrite filter_app, length_app, Hclick. rewrite filter_cons_True by done.
    rewrite filter_cons_False by done. rewrite filter_nil. simpl. lia.
  - unfold listening in *. rewrite Hl, (div2_S (S n)), odd_S, <- Hflag.
    destruct (Recorder.isRecording s); simpl negb; cbv iota; [done|].
    rewrite filter_app, length_app, Hinput. rewrite filter_cons_False by done.
    rewrite filter_cons_True by done. rewrite filter_nil. simpl. lia.
  - by rewrite toggleRecording_flag, odd_S, Hflag.
Qed.

Lemma recorder_ok_same n s s' :
  Recorder.listeners s' = Recorder.listeners s -> Recorder.bound s' = Recorder.bound s ->
  Recorder.isRecording s' = Recorder.isRecording s ->
  recorder_ok n s -> recorder_ok n s'.
Proof.
  intros Hl Hb Hf (Hok & Hclick & Hinput & Hflag).
  split; [|split; [|split]].
  - eapply listeners_ok_same; [done | lia | done].
  - by rewrite (listening_same _ s s').
  - by rewrite (listening_same _ s s').
  - by rewrite Hf.
Qed.

Lemma deleteWorkflow_fields id s :
  let s' := Recorder.deleteWorkflow id s in
  Recorder.isRecording s' = Recorder.isRecording s /\
  Recorder.recordedActions s' = Recorder.recordedActions s /\
  Recorder.listeners s' = Recorder.listeners s /\
  Recorder.bound s' = Recorder.bound s /\
  Recorder.workflows s' = filter (fun w => Workflow.id w <> id) (Recorder.workflows s).
Proof.
  unfold Recorder.deleteWorkflow, Recorder.renderWorkflows. simpl.
  by destruct (Recorder.savedWorkflows s).
Qed.

Lemma playWorkflow_fields id s :
  let s' := Recorder.playWorkflow id s in
  Recorder.isRecording s' = Recorder.isRecording s /\
  Recorder.recordedActions s' = Recorder.recordedActions s /\
  Recorder.listeners s' = Recorder.listeners s /\
  Recorder.bound s' = Recorder.bound s /\
  Recorder.stored s' = Recorder.stored s /\
  Recorder.savedWorkflows s' = Recorder.savedWorkflows s.
Proof.
  unfold Recorder.playWorkflow.
  by destruct (find _ (Recorder.workflows s)).
Qed.

Lemma serve_ok n s r :
  recorder_ok n s ->
  recorder_ok (n + toggles [r]) (Recorder.serve now toISOString s r).
Proof.
  intros Hok. destruct r as [|type e|id|id]; simpl.
  - replace (n + 1) with (S n) by lia. by apply toggleRecording_ok.
  - rewrite Nat.add_0_r.
    destruct (dispatchEvent_records type e s) as [(H1 & H2 & H3 & _) _].
    by apply (recorder_ok_same n s).
  - rewrite Nat.add_0_r.
    destruct (deleteWorkflow_fields id s) as (H1 & _ & H2 & H3 & _).
    by apply (recorder_ok_same n s).
  - rewrite Nat.add_0_r.
    destruct (playWorkflow_fields id s) as (H1 & _ & H2 & H3 & _).
    by apply (recorder_ok_same n s).
Qed.

Lemma toggles_cons r rs : toggles (r :: rs) = toggles [r] + toggles rs.
Proof. by destruct r. Qed.

Lemma run_ok rs n s :
  recorder_ok n s -> recorder_ok (n + toggles rs) (Recorder.run now toISOString rs s).
Proof.
  revert n s. induction rs as [|r rs IH]; intros n s Hok.
  - simpl. by rewrite Nat.add_0_r.
  - rewrite toggles_cons, Nat.add_assoc. simpl. apply IH. by apply serve_ok.
Qed.

Lemma fresh_ok stored btn msgs container ticks :
  recorder_ok 0 (Recorder.fresh stored btn msgs container ticks).
Proof.
  assert (Recorder.listeners (Recorder.fresh stored btn msgs container ticks) = []) as Hl.
  { unfold Recorder.fresh, Recorder.renderWorkflows. by destruct container. }
  assert (Recorder.isRecording (Recorder.fresh stored btn msgs container ticks) = false)
    as Hf.
  { unfold Recorder.fresh, Recorder.renderWorkflows. by destruct container. }
  split; [|split; [|split]].
  - intros type f Hin. rewrite Hl in Hin. by apply elem_of_nil in Hin.
  - unfold listening. by rewrite Hl.
  - unfold listening. by rewrite Hl.
  - done.
Qed.

Lemma dispatchEvent_outside type e s :
  Target.inPageFrame e = false -> Recorder.dispatchEvent now type e s = s.
Proof.
  intros Hout. unfold Recorder.dispatchEvent.
  assert (forall s0, Recorder.handle now type e s0 = s0) as Hid.
  { intros s0. unfold Recorder.handle, Recorder.recordClick, Recorder.recordInput.
    rewrite Hout. by destruct (String.eqb type "click"), (String.eqb type "input"). }
  generalize (Recorder.listeners s). intros l.
  induction l as [|x l IH]; [done|]. simpl.
  rewrite Hid. by destruct (String.eqb x.1 type).
Qed.

(** X23. Recording never stops.  [stopRecording] removes no listener, since
    it hands new functions to [removeEventListener]: after any run of
    requests the document has one click listener and one input listener of
    the recorder for every recording started so far, and no request ever
    removes one.  An event on the page frame is therefore recorded once for
    every recording started so far, whether or not the recorder is
    recording, and changes nothing else; an event elsewhere changes
    nothing. *)
Theorem recording_never_stops (rs : list Recorder.Request)
    (stored : option (list Workflow.t)) (recordBtn : option bool)
    (teachMessages : option (list Note)) (container : bool) (ticks : nat) :
  let s := Recorder.run now toISOString rs
             (Recorder.fresh stored recordBtn teachMessages container ticks) in
  let started := Nat.div2 (S (toggles rs)) in
  listening "click" s = started /\ listening "input" s = started /\
  Recorder.isRecording s = Nat.odd (toggles rs) /\
  (forall r, Recorder.listeners s `prefix_of`
             Recorder.listeners (Recorder.serve now toISOString s r)) /\
  (forall type e,
     let s' := Recorder.dispatchEvent now type e s in
     recordsOnly s s' /\
     (type = "click" \/ type = "input" -> Target.inPageFrame e = true ->
      length (Recorder.recordedActions s') = length (Recorder.recordedActions s) + started) /\
     outline <$> Recorder.recordedActions s'
     = ((outline <$> Recorder.recordedActions s) ++ recordedBy started type e)%list /\
     (Target.inPageFrame e = false -> s' = s)).
Proof.
  cbv zeta.
  pose proof (run_ok rs 0 _ (fresh_ok stored recordBtn teachMessages container ticks)) as Hok.
  simpl in Hok.
  set (s := Recorder.run now toISOString rs _) in *.
  destruct Hok as (Hok & Hclick & Hinput & Hflag).
  split; [done|]. split; [done|]. split; [done|]. split.
  - intros [|type e|id|id]; unfold Recorder.serve.
    + rewrite (toggleRecording_listeners s Hok).
      destruct (Recorder.isRecording s); [done|]. by eexists.
    + destruct (dispatchEvent_records type e s) as [(_ & -> & _) _]. done.
    + destruct (deleteWorkflow_fields id s) as (_ & _ & -> & _). done.
    + destruct (playWorkflow_fields id s) as (_ & _ & -> & _). done.
  - intros type e. cbv zeta.
    destruct (dispatchEvent_records type e s) as [Hsame Hrec].
    assert (type = "click" \/ type = "input" ->
            listening type s = Nat.div2 (S (toggles rs))) as Hk.
    { by intros [-> | ->]. }
    split; [done|]. split; [|split].
    + intros Htype Hin. apply (f_equal length) in Hrec.
      rewrite length_app, !length_fmap in Hrec. rewrite Hrec, (Hk Htype).
      unfold recordedBy. rewrite Hin.
      destruct Htype as [-> | ->]; simpl; by rewrite length_replicate.
    + rewrite Hrec. f_equal.
      destruct (String.eqb_spec type "click") as [->|Hc]; [by rewrite Hclick|].
      destruct (String.eqb_spec type "input") as [->|Hi]; [by rewrite Hinput|].
      unfold recordedBy. destruct (Target.inPageFrame e); [|done].
      destruct (String.eqb_spec type "click"); [done|].
      by destruct (String.eqb_spec type "input").
    + intros Hout. by rewrite dispatchEvent_outside.
Qed.

Lemma recordedBy_type k k' type e :
  (type = "click" \/ type = "input" -> k = k') -> recordedBy k type e = recordedBy k' type e.
Proof.
  intros Hk. unfold recordedBy. destruct (Target.inPageFrame e); [|done].
  destruct (String.eqb_spec type "click") as [->|_]; [by rewrite Hk by (by left)|].
  destruct (String.eqb_spec type "input") as [->|_]; [by rewrite Hk by (by right)|].
  done.
Qed.

Lemma run_cons r rs s :
  Recorder.run now toISOString (r :: rs) s
  = Recorder.run now toISOString rs (Recorder.serve now toISOString s r).
Proof. reflexivity. Qed.

(** A run of events. *)
Lemma events_record (es : list (string * Target.t)) k s :
  listening "click" s = k -> listening "input" s = k ->
  let s' := Recorder.run now toISOString ((fun x => Recorder.Event x.1 x.2) <$> es) s in
  recordsOnly s s' /\
  outline <$> Recorder.recordedActions s'
  = ((outline <$> Recorder.recordedActions s)
       ++ flat_map (fun x => recordedBy k x.1 x.2) es)%list.
Proof.
  revert s. induction es as [|[type e] es IH]; intros s Hclick Hinput; cbv zeta.
  - simpl. rewrite app_nil_r. split; [apply recordsOnly_refl | done].
  - rewrite fmap_cons, run_cons. cbn [Recorder.serve flat_map fst snd].
    destruct (dispatchEvent_records type e s) as [Hsame Hrec].
    pose proof Hsame as (_ & Hl & _).
    destruct (IH (Recorder.dispatchEvent now type e s)) as [Hsame' Hrec'].
    { by rewrite (listening_same _ s). }
    { by rewrite (listening_same _ s). }
    split; [by eapply recordsOnly_trans|].
    rewrite Hrec', Hrec, <- app_assoc. do 2 f_equal.
    apply recordedBy_type. by intros [-> | ->].
Qed.

Lemma startRecording_fields s :
  let s' := Recorder.startRecording s in
  Recorder.recordedActions s' = [] /\
  Recorder.stored s' = Recorder.stored s /\
  Recorder.isRecording s' = Recorder.isRecording s /\
  Recorder.ticks s' = Recorder.ticks s.
Proof.
  unfold Recorder.startRecording, Recorder.bind, Recorder.addEventListener.
  cbv zeta. simpl.
  destruct (bool_decide (("click", Recorder.bound s) ∈ Recorder.listeners s)); simpl;
    match goal with |- context [bool_decide ?P] => destruct (bool_decide P) end; done.
Qed.

Lemma stopRecording_stored s :
  Recorder.stored (Recorder.stopRecording now toISOString s)
  = match Recorder.recordedActions s with
    | [] => Recorder.stored s
    | _ :: _ =>
        Some (Recorder.workflows s
                ++ [Workflow.mk (now (Recorder.ticks s))
                      ("Workflow " +:+ pretty (length (Recorder.workflows s) + 1))
                      (Recorder.recordedActions s)
                      (toISOString (now (S (Recorder.ticks s))))])%list
    end.
Proof.
  unfold Recorder.stopRecording, Recorder.bind, Recorder.removeEventListener.
  cbv zeta. simpl.
  destruct (Recorder.recordedActions s) as [|a l] eqn:Ha; [done|].
  cbn [length Nat.ltb Nat.leb].
  match goal with |- Recorder.stored (Recorder.saveWorkflow now toISOString ?x) = _ =>
    destruct (saveWorkflow_fields x) as (_ & _ & _ & _ & _ & _ & Hs) end.
  rewrite Hs. simpl. unfold Recorder.workflows. simpl. rewrite ?Ha. done.
Qed.

(** X24. One recording, from any state that a run of requests leaves with
    the recorder idle.  Pressing the button, a run of events and pressing
    the button again records every click and input event on the page frame
    once for every recording started so far, this one included, in the
    order of the events, and nothing for events elsewhere or of another
    type.  If anything was recorded, one workflow is appended to the store,
    named after the number of stored workflows plus one and holding the
    recorded actions; otherwise the store is left as it is.  The recorder
    is idle afterwards, with its listeners still on the document. *)
Theorem recording_session (rs : list Recorder.Request)
    (stored : option (list Workflow.t)) (recordBtn : option bool)
    (teachMessages : option (list Note)) (container : bool) (ticks : nat)
    (es : list (string * Target.t)) :
  let s := Recorder.run now toISOString rs
             (Recorder.fresh stored recordBtn teachMessages container ticks) in
  Recorder.isRecording s = false ->
  let k := S (Nat.div2 (toggles rs)) in
  let s1 := Recorder.toggleRecording now toISOString s in
  let s2 := Recorder.run now toISOString ((fun x => Recorder.Event x.1 x.2) <$> es) s1 in
  let s3 := Recorder.toggleRecording now toISOString s2 in
  outline <$> Recorder.recordedActions s2 = flat_map (fun x => recordedBy k x.1 x.2) es /\
  Recorder.isRecording s3 = false /\
  Recorder.listeners s3
  = (Recorder.listeners s
       ++ [("click", Recorder.bound s); ("input", S (Recorder.bound s))])%list /\
  Recorder.stored s3
  = match Recorder.recordedActions s2 with
    | [] => Recorder.stored s
    | _ :: _ =>
        Some (Recorder.workflows s
                ++ [Workflow.mk (now (Recorder.ticks s2))
                      ("Workflow " +:+ pretty (length (Recorder.workflows s) + 1))
                      (Recorder.recordedActions s2)
                      (toISOString (now (S (Recorder.ticks s2))))])%list
    end.
Proof.
  cbv zeta. intros Hidle.
  pose proof (run_ok rs 0 _ (fresh_ok stored recordBtn teachMessages container ticks)) as Hok.
  simpl in Hok.
  set (s := Recorder.run now toISOString rs _) in *.
  pose proof (toggleRecording_ok _ s Hok) as Hok1.
  set (s1 := Recorder.toggleRecording now toISOString s) in *.
  destruct Hok as (Hl & _ & _ & Hflag).
  assert (Nat.odd (toggles rs) = false) as Heven by (by rewrite <- Hflag).
  assert (Nat.div2 (S (S (toggles rs))) = S (Nat.div2 (toggles rs))) as Hk by done.
  destruct Hok1 as (Hl1 & Hclick1 & Hinput1 & Hflag1).
  rewrite Hk in Hclick1, Hinput1.
  destruct (events_record es _ s1 Hclick1 Hinput1) as [Hsame Hrec].
  set (s2 := Recorder.run now toISOString _ s1) in *.
  destruct Hsame as (Hf2 & Hl2 & Hb2 & Hs2 & _).
  assert (Recorder.recordedActions s1 = [] /\ Recorder.stored s1 = Recorder.stored s)
    as [Hempty Hstored1].
  { unfold s1, Recorder.toggleRecording. cbv zeta. rewrite Hidle. simpl.
    destruct (startRecording_fields s) as (H1 & H2 & _). done. }
  assert (Recorder.listeners s1
          = (Recorder.listeners s
               ++ [("click", Recorder.bound s); ("input", S (Recorder.bound s))])%list)
    as Hlist1.
  { unfold s1. by rewrite (toggleRecording_listeners s Hl), Hidle. }
  assert (Recorder.isRecording s2 = true) as Hrecording.
  { rewrite Hf2. unfold s1. by rewrite toggleRecording_flag, Hidle. }
  assert (listeners_ok s2) as Hok2.
  { apply (listeners_ok_same s1); [done | lia | done]. }
  split; [|split; [|split]].
  - rewrite Hrec, Hempty. done.
  - by rewrite toggleRecording_flag, Hrecording.
  - rewrite (toggleRecording_listeners s2 Hok2), Hrecording, Hl2. done.
  - unfold Recorder.toggleRecording. cbv zeta. rewrite Hrecording. simpl.
    rewrite stopRecording_stored.
    unfold Recorder.workflows. rewrite Hs2, Hstored1. done.
Qed.

Lemma shown_ok_same s s' :
  Recorder.stored s' = Recorder.stored s ->
  Recorder.savedWorkflows s' = Recorder.savedWorkflows s ->
  shown_ok s -> shown_ok s'.
Proof. unfold shown_ok, Recorder.workflows. intros -> ->. done. Qed.

Lemma renderWorkflows_shown s : shown_ok (Recorder.renderWorkflows s).
Proof.
  unfold shown_ok, Recorder.renderWorkflows, Recorder.workflows.
  destruct (Recorder.savedWorkflows s) eqn:Hs; simpl; [|by rewrite Hs].
  by intros shown [= <-].
Qed.

Lemma saveWorkflow_shown s : shown_ok (Recorder.saveWorkflow now toISOString s).
Proof.
  unfold Recorder.saveWorkflow, Recorder.tick, Recorder.notify. cbv zeta.
  match goal with |- shown_ok (Recorder.with_messages _ (Recorder.renderWorkflows ?x)) =>
    apply (shown_ok_same (Recorder.renderWorkflows x)); [done | done |] end.
  apply renderWorkflows_shown.
Qed.

Lemma toggleRecording_shown s :
  shown_ok s -> shown_ok (Recorder.toggleRecording now toISOString s).
Proof.
  intros Hok. unfold Recorder.toggleRecording. cbv zeta.
  destruct (Recorder.isRecording s).
  - match goal with |- shown_ok (Recorder.with_recording _ (Recorder.with_button _ ?x)) =>
      apply (shown_ok_same x); [done | done |] end.
    unfold Recorder.stopRecording, Recorder.bind, Recorder.removeEventListener.
    cbv zeta. cbn [fst snd].
    match goal with |- context [if ?c then _ else _] => destruct c end.
    + apply saveWorkflow_shown.
    + by apply (shown_ok_same s).
  - match goal with |- shown_ok (Recorder.with_recording _ (Recorder.with_button _ ?x)) =>
      apply (shown_ok_same x); [done | done |] end.
    destruct (startRecording_fields s) as (_ & Hs & _).
    apply (shown_ok_same s); [done | | done].
    unfold Recorder.startRecording, Recorder.bind, Recorder.addEventListener.
    cbv zeta. simpl.
    destruct (bool_decide (("click", Recorder.bound s) ∈ Recorder.listeners s)); simpl;
      match goal with |- context [bool_decide ?P] => destruct (bool_decide P) end; done.
Qed.

Lemma serve_shown s r : shown_ok s -> shown_ok (Recorder.serve now toISOString s r).
Proof.
  intros Hok. destruct r as [|type e|id|id]; unfold Recorder.serve.
  - by apply toggleRecording_shown.
  - destruct (dispatchEvent_records type e s) as [(_ & _ & _ & H1 & _ & _ & H2) _].
    by apply (shown_ok_same s).
  - apply renderWorkflows_shown.
  - destruct (playWorkflow_fields id s) as (_ & _ & _ & _ & H1 & H2).
    by apply (shown_ok_same s).
Qed.

Lemma run_shown rs s : shown_ok s -> shown_ok (Recorder.run now toISOString rs s).
Proof.
  revert s. induction rs as [|r rs IH]; intros s Hok; [done|].
  rewrite run_cons. apply IH. by apply serve_shown.
Qed.

Lemma saveWorkflow_container s :
  is_Some (Recorder.savedWorkflows s) ->
  is_Some (Recorder.savedWorkflows (Recorder.saveWorkflow now toISOString s)).
Proof.
  intros [x Hx]. unfold Recorder.saveWorkflow, Recorder.tick, Recorder.notify. cbv zeta.
  simpl. unfold Recorder.renderWorkflows. simpl. rewrite Hx. by eexists.
Qed.

Lemma toggleRecording_container s :
  is_Some (Recorder.savedWorkflows s) ->
  is_Some (Recorder.savedWorkflows (Recorder.toggleRecording now toISOString s)).
Proof.
  intros Hs. unfold Recorder.toggleRecording. cbv zeta.
  destruct (Recorder.isRecording s); simpl.
  - unfold Recorder.stopRecording, Recorder.bind, Recorder.removeEventListener.
    cbv zeta. cbn [fst snd].
    match goal with |- context [if ?c then _ else _] => destruct c end; [|done].
    by apply saveWorkflow_container.
  - unfold Recorder.startRecording, Recorder.bind, Recorder.addEventListener.
    cbv zeta. simpl.
    destruct (bool_decide (("click", Recorder.bound s) ∈ Recorder.listeners s)); simpl;
      match goal with |- context [bool_decide ?P] => destruct (bool_decide P) end; done.
Qed.

Lemma run_container rs s :
  is_Some (Recorder.savedWorkflows s) ->
  is_Some (Recorder.savedWorkflows (Recorder.run now toISOString rs s)).
Proof.
  revert s. induction rs as [|r rs IH]; intros s Hs; [done|].
  rewrite run_cons. apply IH. destruct r as [|type e|id|id]; unfold Recorder.serve.
  - by apply toggleRecording_container.
  - destruct (dispatchEvent_records type e s) as [(_ & _ & _ & _ & _ & _ & H2) _].
    by rewrite H2.
  - unfold Recorder.deleteWorkflow, Recorder.renderWorkflows. simpl.
    destruct Hs as [x ->]. by eexists.
  - destruct (playWorkflow_fields id s) as (_ & _ & _ & _ & _ & H2). by rewrite H2.
Qed.

(** X25. The list of saved workflows on the page is the list in the store:
    after any run of requests, every workflow stored is shown with its name
    and id, in order, and nothing else is.  [deleteWorkflow] removes every
    workflow that bears the id, so workflows saved within the same
    millisecond go together, and keeps all the others in their order; an id
    that no workflow bears removes nothing.  [playWorkflow] changes
    neither the store nor the list. *)
Theorem shown_workflows_are_stored (rs : list Recorder.Request)
    (stored : option (list Workflow.t)) (recordBtn : option bool)
    (teachMessages : option (list Note)) (ticks : nat) :
  let s := Recorder.run now toISOString rs
             (Recorder.fresh stored recordBtn teachMessages true ticks) in
  Recorder.savedWorkflows s
  = Some ((fun w => (Workflow.name w, Workflow.id w)) <$> Recorder.workflows s) /\
  (forall id,
     let s' := Recorder.deleteWorkflow id s in
     (forall w, w ∈ Recorder.workflows s' <-> w ∈ Recorder.workflows s /\ Workflow.id w <> id) /\
     Recorder.workflows s' `sublist_of` Recorder.workflows s /\
     ((forall w, w ∈ Recorder.workflows s -> Workflow.id w <> id) ->
      Recorder.workflows s' = Recorder.workflows s) /\
     Recorder.savedWorkflows s'
     = Some ((fun w => (Workflow.name w, Workflow.id w)) <$> Recorder.workflows s')) /\
  (forall id,
     Recorder.stored (Recorder.playWorkflow id s) = Recorder.stored s /\
     Recorder.savedWorkflows (Recorder.playWorkflow id s) = Recorder.savedWorkflows s).
Proof.
  cbv zeta.
  assert (forall s0, shown_ok s0 -> is_Some (Recorder.savedWorkflows s0) ->
            Recorder.savedWorkflows s0
            = Some ((fun w => (Workflow.name w, Workflow.id w)) <$> Recorder.workflows s0))
    as Hshown.
  { intros s0 Hok [shown Hs]. rewrite Hs. f_equal. by apply Hok. }
  assert (shown_ok (Recorder.fresh stored recordBtn teachMessages true ticks)) as Hfresh
    by apply renderWorkflows_shown.
  assert (is_Some (Recorder.savedWorkflows
                     (Recorder.fresh stored recordBtn teachMessages true ticks))) as Hsome
    by (by eexists).
  pose proof (run_shown rs _ Hfresh) as Hok.
  pose proof (run_container rs _ Hsome) as Hs.
  set (s := Recorder.run now toISOString rs _) in *.
  split; [by apply Hshown|]. split.
  - intros id. destruct (deleteWorkflow_fields id s) as (_ & _ & _ & _ & Hw).
    split; [|split; [|split]].
    + intros w. rewrite Hw, list_elem_of_filter. tauto.
    + rewrite Hw. apply sublist_filter.
    + intros Hnone. rewrite Hw. clear -Hnone.
      induction (Recorder.workflows s) as [|w ws IH]; [done|].
      rewrite filter_cons_True; [f_equal; apply IH|].
      * intros w' Hin. apply Hnone. by apply list_elem_of_further.
      * apply Hnone. apply list_elem_of_here.
    + apply Hshown; [apply renderWorkflows_shown|].
      unfold Recorder.deleteWorkflow, Recorder.renderWorkflows. simpl.
      destruct Hs as [x ->]. by eexists.
  - intros id. destruct (playWorkflow_fields id s) as (_ & _ & _ & _ & H1 & H2). done.
Qed.

Lemma numbered_S n : numbered (S n) = (numbered n ++ ["Workflow " +:+ pretty (S n)])%list.
Proof. unfold numbered. by rewrite seq_S, fmap_app. Qed.

Lemma numbered_NoDup n : NoDup (numbered n).
Proof.
  unfold numbered. apply NoDup_fmap_2; [|apply NoDup_seq].
  intros i j H. apply (inj (String.app "Workflow ")) in H. by apply (inj pretty) in H.
Qed.

Lemma names_ok_same s s' :
  Recorder.stored s' = Recorder.stored s -> names_ok s -> names_ok s'.
Proof. unfold names_ok, Recorder.workflows. by intros ->. Qed.

Lemma saveWorkflow_names s : names_ok s -> names_ok (Recorder.saveWorkflow now toISOString s).
Proof.
  unfold names_ok. intros Hok.
  destruct (saveWorkflow_fields s) as (_ & _ & _ & _ & _ & _ & Hs).
  unfold Recorder.workflows at 1 2. rewrite Hs. simpl.
  rewrite fmap_app, length_app, Hok. simpl.
  by rewrite Nat.add_1_r, numbered_S.
Qed.

Lemma toggleRecording_names s :
  names_ok s -> names_ok (Recorder.toggleRecording now toISOString s).
Proof.
  intros Hok. unfold Recorder.toggleRecording. cbv zeta.
  destruct (Recorder.isRecording s).
  - match goal with |- names_ok (Recorder.with_recording _ (Recorder.with_button _ ?x)) =>
      apply (names_ok_same x); [done|] end.
    unfold Recorder.stopRecording, Recorder.bind, Recorder.removeEventListener.
    cbv zeta. cbn [fst snd].
    match goal with |- context [if ?c then _ else _] => destruct c end.
    + apply saveWorkflow_names. by apply (names_ok_same s).
    + by apply (names_ok_same s).
  - match goal with |- names_ok (Recorder.with_recording _ (Recorder.with_button _ ?x)) =>
      apply (names_ok_same x); [done|] end.
    destruct (startRecording_fields s) as (_ & Hs & _).
    by apply (names_ok_same s).
Qed.

Lemma run_names rs s :
  keepsAll rs -> names_ok s -> names_ok (Recorder.run now toISOString rs s).
Proof.
  revert s. induction rs as [|r rs IH]; intros s Hkeep Hok; [done|].
  rewrite run_cons. apply IH.
  { intros id Hin. apply (Hkeep id). by apply list_elem_of_further. }
  destruct r as [|type e|id|id]; unfold Recorder.serve.
  - by apply toggleRecording_names.
  - destruct (dispatchEvent_records type e s) as [(_ & _ & _ & H1 & _) _].
    by apply (names_ok_same s).
  - exfalso. apply (Hkeep id). apply list_elem_of_here.
  - destruct (playWorkflow_fields id s) as (_ & _ & _ & _ & H1 & _).
    by apply (names_ok_same s).
Qed.

(** X26. The name of a workflow is its place in the store at the time it is
    saved.  Starting from an empty store, as long as no workflow is deleted
    the workflows are named [Workflow 1], [Workflow 2], ... in order, and
    no two bear the same name.  After a deletion names repeat: once any
    workflow but the last has been deleted, the next workflow saved gets
    the name of the one saved before it. *)
Theorem workflow_names_repeat :
  (forall (rs : list Recorder.Request) (stored : option (list Workflow.t))
          (recordBtn : option bool) (teachMessages : option (list Note))
          (container : bool) (ticks : nat),
     let s := Recorder.run now toISOString rs
                (Recorder.fresh stored recordBtn teachMessages container ticks) in
     keepsAll rs -> default [] stored = [] ->
     Workflow.name <$> Recorder.workflows s = numbered (length (Recorder.workflows s)) /\
     NoDup (Workflow.name <$> Recorder.workflows s)) /\
  (forall (s : Recorder.t) (before after : list Workflow.t) (w l : Workflow.t),
     names_ok s ->
     Recorder.workflows s = (before ++ w :: after ++ [l])%list ->
     (forall x, x ∈ (before ++ after ++ [l])%list -> Workflow.id x <> Workflow.id w) ->
     exists new,
       Recorder.workflows
         (Recorder.saveWorkflow now toISOString (Recorder.deleteWorkflow (Workflow.id w) s))
       = (before ++ after ++ [l; new])%list /\
       Workflow.name new = Workflow.name l /\
       Workflow.actions new = Recorder.recordedActions s).
Proof.
  split.
  - intros rs stored recordBtn teachMessages container ticks. cbv zeta.
    intros Hkeep Hempty.
    assert (names_ok (Recorder.fresh stored recordBtn teachMessages container ticks))
      as Hfresh.
    { unfold names_ok, Recorder.workflows, Recorder.fresh, Recorder.renderWorkflows.
      destruct container; simpl; by rewrite Hempty. }
    pose proof (run_names rs _ Hkeep Hfresh) as Hok. unfold names_ok in Hok.
    split; [done|]. rewrite Hok. apply numbered_NoDup.
  - intros s before after w l Hok Hws Hids.
    destruct (deleteWorkflow_fields (Workflow.id w) s) as (_ & Hactions & _ & _ & Hdel).
    destruct (saveWorkflow_fields (Recorder.deleteWorkflow (Workflow.id w) s))
      as (_ & _ & _ & _ & _ & _ & Hsave).
    assert (filter (fun x => Workflow.id x <> Workflow.id w) (Recorder.workflows s)
            = (before ++ after ++ [l])%list) as Hfilter.
    { rewrite Hws, filter_app, filter_cons_False by (by intros H; apply H).
      rewrite <- filter_app. clear -Hids.
      induction (before ++ after ++ [l])%list as [|x xs IH]; [done|].
      rewrite filter_cons_True; [f_equal; apply IH|].
      - intros y Hy. apply Hids. by apply list_elem_of_further.
      - apply Hids. apply list_elem_of_here. }
    rewrite Hfilter in Hdel.
    eexists. split; [|split].
    + unfold Recorder.workflows at 1. rewrite Hsave, Hdel. simpl.
      rewrite <- !app_assoc. simpl. reflexivity.
    + simpl. unfold names_ok in Hok. rewrite Hws in Hok.
      rewrite !length_app in *. simpl in *. rewrite !length_app in *. simpl in *.
      replace (length before + S (length after + 1)) with (S (length before + length after + 1))
        in Hok by lia.
      rewrite numbered_S in Hok.
      rewrite !fmap_app, fmap_cons, fmap_app in Hok. simpl in Hok.
      rewrite app_comm_cons, app_assoc in Hok.
      apply app_inj_tail in Hok as [_ Hl].
      rewrite Hl. do 2 f_equal. lia.
    + simpl. by rewrite Hactions.
Qed.

End RecorderFacts.

Lemma split_nonempty sep s : JS.split sep s <> [].
Proof.
  destruct s as [|c s]; simpl; [done|].
  destruct (Ascii.eqb c sep); [done|]. by destruct (JS.split sep s).
Qed.

Lemma join_split_replace (s : string) :
  join "." (JS.split " " s) = replaceChar " " "." s.
Proof.
  induction s as [|c s IH]; [done|]. simpl.
  pose proof (split_nonempty " " s) as Hne.
  destruct (Ascii.eqb c " ").
  - destruct (JS.split " " s) as [|h t] eqn:Hs; [done|].
    change (join "." (EmptyString :: h :: t)) with ("." +:+ join "." (h :: t)).
    by rewrite IH.
  - destruct (JS.split " " s) as [|h t] eqn:Hs; [done|].
    rewrite <- IH. by destruct t.
Qed.

Lemma replaceChar_length a b s : String.length (replaceChar a b s) = String.length s.
Proof. induction s as [|c s IH]; simpl; [done | by rewrite IH]. Qed.

Lemma replaceChar_gone a b s :
  a <> b -> JS.includes (replaceChar a b s) (String a EmptyString) = false.
Proof.
  intros Hab. induction s as [|c s IH]; [done|].
  simpl. rewrite IH, orb_false_r.
  destruct (Ascii.eqb_spec c a) as [->|Hc].
  - destruct (Ascii.eqb_spec a b); [done|]. simpl. by destruct (replaceChar a b s).
  - destruct (Ascii.eqb_spec a c); [by subst|]. simpl. by destruct (replaceChar a b s).
Qed.

(** X27. The selector under which an action is recorded: [#] and the id
    when the target has an id, whatever its classes; otherwise, when it has
    a class name, a dot followed by the class name with every space turned
    into a dot, so that the selector has no space, is one character longer
    than the class name, and has two dots in a row wherever the class
    name has two spaces in a row; otherwise the tag name in lower case. *)
Theorem getElementSelector_shape (e : Target.t) :
  (Target.id e <> EmptyString -> Recorder.getElementSelector e = "#" +:+ Target.id e) /\
  (Target.id e = EmptyString -> Target.className e <> EmptyString ->
   let selector := Recorder.getElementSelector e in
   selector = "." +:+ replaceChar " " "." (Target.className e) /\
   JS.includes selector " " = false /\
   String.length selector = S (String.length (Target.className e)) /\
   (JS.includes (Target.className e) "  " = true -> JS.includes selector ".." = true)) /\
  (Target.id e = EmptyString -> Target.className e = EmptyString ->
   Recorder.getElementSelector e = JS.toLowerCase (Target.tagName e)).
Proof.
  unfold Recorder.getElementSelector. split; [|split].
  - intros Hid. by destruct (String.eqb_spec (Target.id e) EmptyString).
  - intros -> Hclass. cbv zeta.
    change (negb (String.eqb EmptyString EmptyString)) with false. cbv iota.
    destruct (String.eqb_spec (Target.className e) EmptyString) as [|_]; [done|].
    cbn [negb]. rewrite join_split_replace.
    set (dotted := replaceChar " " "." (Target.className e)).
    change ("." +:+ dotted) with (String "." dotted).
    split; [done|]. split; [|split].
    + cbn [JS.includes JS.startsWith]. by apply replaceChar_gone.
    + cbn [String.length]. unfold dotted. by rewrite replaceChar_length.
    + intros Htwo.
      assert (JS.includes dotted ".." = true) as Hdots.
      { unfold dotted. revert Htwo. generalize (Target.className e). clear.
        induction s as [|c s IH]; [done|].
        intros H. cbn [JS.includes] in H. apply orb_true_iff in H as [H|H].
        - destruct s as [|d s]; cbn [JS.startsWith] in H.
          { destruct (Ascii.eqb " " c); discriminate. }
          destruct (Ascii.eqb_spec " " c) as [<-|]; [|done].
          destruct (Ascii.eqb_spec " " d) as [<-|]; [|done]. reflexivity.
        - cbn [replaceChar JS.includes]. rewrite (IH H). apply orb_true_r. }
      cbn [JS.includes]. rewrite Hdots. apply orb_true_r.
  - intros -> ->. reflexivity.
Qed.

(** ** Teach mode on sample runs *)

(** An instance of X23: after one recording that was started and stopped,
    the recorder is idle, and a click on the page frame is recorded all the
    same. *)
Lemma recording_never_stops_witness :
  let s := Recorder.run steadyClock isoOf [Recorder.Toggle; Recorder.Toggle] idlePanel in
  Recorder.isRecording s = false /\
  listening "click" s = 1 /\
  Target.inPageFrame frameTarget = true /\
  length (Recorder.recordedActions (Recorder.dispatchEvent steadyClock "click" frameTarget s))
  = length (Recorder.recordedActions s) + 1.
Proof.
  destruct (recording_never_stops steadyClock isoOf [Recorder.Toggle; Recorder.Toggle]
              None (Some false) (Some []) true 0) as (Hclick & _ & Hflag & _ & Hevent).
  destruct (Hevent "click" frameTarget) as (_ & Hlen & _).
  exact (conj Hflag (conj Hclick (conj eq_refl (Hlen (or_introl eq_refl) eq_refl)))).
Defined.

(** An instance of X24: the second recording records one click on the page
    frame twice, and saves it as the first workflow. *)
Lemma recording_session_witness :
  let s := Recorder.run steadyClock isoOf [Recorder.Toggle; Recorder.Toggle] idlePanel in
  let s2 := Recorder.run steadyClock isoOf
              [Recorder.Event "click" frameTarget; Recorder.Event "click" sendButton]
              (Recorder.toggleRecording steadyClock isoOf s) in
  let s3 := Recorder.toggleRecording steadyClock isoOf s2 in
  Recorder.isRecording s = false /\
  outline <$> Recorder.recordedActions s2
  = [("click", "#page-frame", None); ("click", "#page-frame", None)] /\
  Recorder.isRecording s3 = false /\
  Workflow.name <$> Recorder.workflows s3 = ["Workflow 1"].
Proof.
  cbv zeta.
  assert (Recorder.isRecording
            (Recorder.run steadyClock isoOf [Recorder.Toggle; Recorder.Toggle] idlePanel)
          = false) as Hidle by reflexivity.
  destruct (recording_session steadyClock isoOf [Recorder.Toggle; Recorder.Toggle]
              None (Some false) (Some []) true 0
              [("click", frameTarget); ("click", sendButton)] Hidle)
    as (Hrec & Hflag & _ & Hstored).
  cbn [fmap list_fmap fst snd] in Hrec, Hflag, Hstored. fold idlePanel in Hrec, Hflag, Hstored.
  refine (conj Hidle (conj Hrec (conj Hflag _))).
  unfold Recorder.workflows. rewrite Hstored. vm_compute. reflexivity.
Defined.

(** An instance of X25: after one recording with a click on the page frame
    the list shows the one workflow stored, and deleting an id that no
    workflow bears removes nothing. *)
Lemma shown_workflows_are_stored_witness :
  let s := Recorder.run steadyClock isoOf
             [Recorder.Toggle; Recorder.Event "click" frameTarget; Recorder.Toggle]
             idlePanel in
  Recorder.savedWorkflows s = Some [("Workflow 1", 1700000000001%Z)] /\
  (forall w, w ∈ Recorder.workflows s -> Workflow.id w <> 7%Z) /\
  Recorder.workflows (Recorder.deleteWorkflow 7 s) = Recorder.workflows s.
Proof.
  cbv zeta.
  destruct (shown_workflows_are_stored steadyClock isoOf
              [Recorder.Toggle; Recorder.Event "click" frameTarget; Recorder.Toggle]
              None (Some false) (Some []) 0) as (Hshown & Hdelete & _).
  destruct (Hdelete 7%Z) as (_ & _ & Hnone & _).
  assert (forall w,
            w ∈ Recorder.workflows
                  (Recorder.run steadyClock isoOf
                     [Recorder.Toggle; Recorder.Event "click" frameTarget; Recorder.Toggle]
                     idlePanel) -> Workflow.id w <> 7%Z) as Hids.
  { intros w Hin. vm_compute in Hin. apply list_elem_of_singleton in Hin. by subst w. }
  refine (conj _ (conj Hids (Hnone Hids))).
  unfold idlePanel. rewrite Hshown. vm_compute. reflexivity.
Defined.

Lemma keepsAll_sample :
  keepsAll [Recorder.Toggle; Recorder.Event "click" frameTarget; Recorder.Toggle;
            Recorder.Toggle; Recorder.Event "input" frameTarget; Recorder.Toggle].
Proof.
  intros id Hin.
  repeat (apply elem_of_cons in Hin as [Hin|Hin]; [discriminate|]).
  by apply elem_of_nil in Hin.
Qed.

Lemma names_ok_twoWorkflows : names_ok twoWorkflows.
Proof. reflexivity. Qed.

(** An instance of X26: two recordings give [Workflow 1] and [Workflow 2];
    with the first of two workflows deleted, the next one saved is a second
    [Workflow 2]. *)
Lemma workflow_names_repeat_witness :
  Workflow.name
    <$> Recorder.workflows
          (Recorder.run steadyClock isoOf
             [Recorder.Toggle; Recorder.Event "click" frameTarget; Recorder.Toggle;
              Recorder.Toggle; Recorder.Event "input" frameTarget; Recorder.Toggle]
             idlePanel)
  = ["Workflow 1"; "Workflow 2"] /\
  names_ok twoWorkflows /\
  exists new,
    Recorder.workflows
      (Recorder.saveWorkflow steadyClock isoOf
         (Recorder.deleteWorkflow (Workflow.id firstWorkflow) twoWorkflows))
    = [secondWorkflow; new] /\
    Workflow.name new = "Workflow 2".
Proof.
  destruct (workflow_names_repeat steadyClock isoOf) as [Hnumbered Hrepeat].
  destruct (Hnumbered
              [Recorder.Toggle; Recorder.Event "click" frameTarget; Recorder.Toggle;
               Recorder.Toggle; Recorder.Event "input" frameTarget; Recorder.Toggle]
              None (Some false) (Some []) true 0 keepsAll_sample eq_refl) as [Hnames _].
  destruct (Hrepeat twoWorkflows [] [] firstWorkflow secondWorkflow
              names_ok_twoWorkflows eq_refl) as (new & Hws & Hname & _).
  { intros x Hin. apply list_elem_of_singleton in Hin. by subst x. }
  refine (conj _ (conj names_ok_twoWorkflows _)).
  - unfold idlePanel. rewrite Hnames. vm_compute. reflexivity.
  - exists new. split; [exact Hws | exact Hname].
Defined.

(** An instance of X27: a class name with two spaces in a row gives a
    selector with two dots in a row. *)
Lemma getElementSelector_shape_witness :
  Target.id sendButton = EmptyString /\
  Target.className sendButton <> EmptyString /\
  JS.includes (Target.className sendButton) "  " = true /\
  Recorder.getElementSelector sendButton = ".btn..primary" /\
  JS.includes (Recorder.getElementSelector sendButton) ".." = true.
Proof.
  assert (Target.className sendButton <> EmptyString) as Hclass by discriminate.
  destruct (getElementSelector_shape sendButton) as (_ & Hshape & _).
  destruct (Hshape eq_refl Hclass) as (Hsel & _ & _ & Hdots).
  refine (conj eq_refl (conj Hclass (conj eq_refl (conj _ (Hdots eq_refl))))).
  rewrite Hsel. reflexivity.
Defined.

(** ** Scrolling by command *)


(** ** Keyboard shortcuts *)

Section Shortcuts.

Variable URL : string -> UrlResult.

Lemma shape_tabs s s' : shape s' = shape s -> tabs s <> [] -> tabs s' <> [].
Proof.
  unfold shape, tabIds. intros [= Hids _ _ _] Hne Hnil. apply Hne.
  rewrite Hnil in Hids. simpl in Hids. symmetry in Hids. by apply fmap_nil_inv in Hids.
Qed.

Lemma createNewTab_nonempty url s : tabs (snd (createNewTab URL url s)) <> [].
Proof.
  unfold createNewTab. simpl.
  assert (forall tab, tabs (switchToTab (tabName (S (tabIdCounter s)))
                              (with_history (insert (tabName (S (tabIdCounter s))) History.empty)
                                 (with_tabs (fun ts => (ts ++ [tab])%list)
                                    (with_counter (S (tabIdCounter s)) s)))) <> []) as Hsw.
  { intros tab. rewrite switchToTab_tabs. simpl. by destruct (tabs s). }
  destruct (JS.truthy url); [|apply Hsw].
  eapply shape_tabs; [apply shape_navigate | apply Hsw].
Qed.

Lemma serve_nonempty s r : tabs s <> [] -> tabs (serve URL s r) <> [].
Proof.
  intros Hne. destruct r as [url|tabId|tabId|input| | | |]; simpl.
  - apply createNewTab_nonempty.
  - destruct (findTab tabId (tabs s)) as [[index t]|] eqn:Hf;
      [|unfold closeTab; by rewrite Hf].
    rewrite (closeTab_unfold URL tabId s index t Hf).
    destruct (delete index (tabs s)) as [|x xs] eqn:Hdel.
    + apply createNewTab_nonempty.
    + case_bool_decide; [|simpl; by rewrite Hdel].
      destruct ((x :: xs) !! Nat.min index (length (x :: xs) - 1));
        [rewrite switchToTab_tabs|]; simpl; by rewrite Hdel.
  - by rewrite switchToTab_tabs.
  - eapply shape_tabs; [apply shape_navigate | done].
  - eapply shape_tabs; [apply shape_goBack | done].
  - eapply shape_tabs; [apply shape_goForward | done].
  - eapply shape_tabs; [apply shape_reload | done].
  - eapply shape_tabs; [apply shape_goHome | done].
Qed.

Lemma keydown_table (e : KeyEvent.t) (d : Desk.t) :
  Desk.keydown URL e d
  = match shortcutOf e with
    | None => (false, d)
    | Some FocusAddressBar =>
        (true, if Desk.urlInput d
               then Desk.with_selected true (Desk.with_focus Desk.AddressBar d) else d)
    | Some TogglePanel =>
        (true, match Desk.sidePanel d with Some v => Desk.toggle v d | None => d end)
    | Some c =>
        (true, Desk.onCore (fun core => match requestOf c core with
                                        | Some r => serve URL core r
                                        | None => core
                                        end) d)
    end.
Proof.
  destruct e as [key c m sh a]. unfold Desk.keydown, shortcutOf.
  cbn [KeyEvent.key KeyEvent.ctrlKey KeyEvent.metaKey KeyEvent.shiftKey KeyEvent.altKey].
  assert (forall f g : BrowserCore -> BrowserCore,
            (forall core, f core = g core) -> Desk.onCore f d = Desk.onCore g d) as Hext.
  { intros f g Hfg. unfold Desk.onCore. destruct (Desk.browserCore d); [|done].
    by rewrite Hfg. }
  assert (Desk.onCore (fun core => match getActiveTab core with
                                   | Some (_, activeTab) => closeTab URL (Tab.id activeTab) core
                                   | None => core
                                   end) d
          = Desk.onCore (fun core => match requestOf CloseTabKey core with
                                     | Some r => serve URL core r
                                     | None => core
                                     end) d) as Hclose.
  { apply Hext. intros core. unfold requestOf.
    by destruct (getActiveTab core) as [[i t]|]. }
  destruct (String.eqb_spec key "F5") as [->|HF5].
  { cbn [String.eqb Ascii.eqb Bool.eqb andb orb]. by rewrite !andb_false_r. }
  destruct (String.eqb_spec key "l") as [->|Hl].
  { cbn [String.eqb Ascii.eqb Bool.eqb andb orb]. rewrite !andb_false_r, !andb_true_r.
    by destruct (c || m). }
  destruct (String.eqb_spec key "t") as [->|Ht].
  { cbn [String.eqb Ascii.eqb Bool.eqb andb orb]. rewrite !andb_false_r, !andb_true_r.
    by destruct (c || m). }
  destruct (String.eqb_spec key "w") as [->|Hw].
  { cbn [String.eqb Ascii.eqb Bool.eqb andb orb]. rewrite !andb_false_r, !andb_true_r.
    destruct (c || m); [|done]. by rewrite Hclose. }
  destruct (String.eqb_spec key "r") as [->|Hr].
  { cbn [String.eqb Ascii.eqb Bool.eqb andb orb]. rewrite !andb_false_r, !andb_true_r.
    by destruct (c || m). }
  destruct (String.eqb_spec key "A") as [->|HA].
  { cbn [String.eqb Ascii.eqb Bool.eqb andb orb]. rewrite !andb_false_r, !andb_true_r.
    by destruct (c || m), sh. }
  destruct (String.eqb_spec key "ArrowLeft") as [->|HL].
  { cbn [String.eqb Ascii.eqb Bool.eqb andb orb]. rewrite !andb_false_r, !andb_true_r.
    by destruct a. }
  destruct (String.eqb_spec key "ArrowRight") as [->|HR].
  { cbn [String.eqb Ascii.eqb Bool.eqb andb orb]. rewrite !andb_false_r, !andb_true_r.
    by destruct a. }
  by rewrite !andb_false_r.
Qed.

Lemma keydown_core (e : KeyEvent.t) (d : Desk.t) :
  Desk.browserCore (snd (Desk.keydown URL e d)) = keyed URL e <$> Desk.browserCore d.
Proof.
  rewrite keydown_table. unfold keyed.
  destruct d as [core panel urlInput chatInput focus selected].
  destruct (shortcutOf e) as [[]|]; cbn [snd];
    unfold Desk.onCore, Desk.toggle, Desk.openPanel, Desk.closePanel; cbn.
  - by destruct urlInput, core.
  - by destruct core.
  - unfold requestOf. destruct core as [core|]; [|done]. cbn.
    by destruct (getActiveTab core) as [[i t]|].
  - destruct panel as [[bound isOpen openClass]|]; cbn; [|by destruct core].
    destruct isOpen, bound, chatInput; cbn; by destruct core.
  - by destruct core.
  - by destruct core.
  - by destruct core.
  - by destruct core.
Qed.

Lemma keyed_ok (e : KeyEvent.t) (core : BrowserCore) :
  tabs core <> [] /\ registry_ok core /\ buttons_ok core ->
  tabs (keyed URL e core) <> [] /\ registry_ok (keyed URL e core) /\
  buttons_ok (keyed URL e core).
Proof.
  intros (Hne & Hreg & Hbuttons). unfold keyed.
  destruct (shortcutOf e) as [c|]; [|done].
  destruct (requestOf c core) as [r|]; [|done].
  pose proof (serve_nonempty core r Hne) as Hne'.
  split; [done|]. split; [by apply registry_ok_serve|].
  by apply buttons_ok_serve.
Qed.

(** X29. The keyboard shortcuts.  A key event fires at most one of the
    seven shortcuts, and the default action of the key is prevented exactly
    when one fires; a key that is no shortcut changes nothing.  What a
    shortcut does to the tab registry is to serve one request: a new home
    tab, closing the active tab, reload, back or forward.  So whatever keys
    are pressed once the registry is initialised, there is always a tab, the
    ids and histories of the tabs stay well formed, and the two history
    buttons stay up to date; in particular closing the last tab by the
    keyboard opens a fresh one. *)
Theorem shortcuts_keep_registry :
  (forall (e : KeyEvent.t) (d : Desk.t),
     let r := Desk.keydown URL e d in
     fst r = bool_decide (is_Some (shortcutOf e)) /\
     Desk.browserCore (snd r) = keyed URL e <$> Desk.browserCore d /\
     (shortcutOf e = None -> snd r = d) /\
     (shortcutOf e <> Some TogglePanel -> Desk.sidePanel (snd r) = Desk.sidePanel d) /\
     (shortcutOf e <> Some TogglePanel -> shortcutOf e <> Some FocusAddressBar ->
      Desk.focus (snd r) = Desk.focus d /\ Desk.urlSelected (snd r) = Desk.urlSelected d)) /\
  (forall (es : list KeyEvent.t) (p : Chrome.t) (panel : option PanelView.t)
          (urlInput chatInput : bool) (focus : Desk.Focus) (selected : bool),
     let d := Desk.keydowns URL es
                (Desk.mk (Some (init URL (newBrowserCore p))) panel urlInput chatInput
                         focus selected) in
     exists core, Desk.browserCore d = Some core /\
                  tabs core <> [] /\ registry_ok core /\ buttons_ok core).
Proof.
  split.
  - intros e d. cbv zeta. split; [|split; [by apply keydown_core|]].
    + rewrite keydown_table. destruct (shortcutOf e) as [[]|]; done.
    + rewrite keydown_table.
      destruct (shortcutOf e) as [c|] eqn:Hc; [|done].
      split; [done|]. split.
      * intros Hnot. destruct d as [core panel urlInput chatInput focus selected].
        destruct c; try done; unfold Desk.onCore; cbn; by destruct core, urlInput.
      * intros Hnot Hnot'. destruct d as [core panel urlInput chatInput focus selected].
        destruct c; try done; unfold Desk.onCore; cbn; by destruct core.
  - intros es p panel urlInput chatInput focus selected. cbv zeta.
    assert (forall d,
              (exists core, Desk.browserCore d = Some core /\
                            tabs core <> [] /\ registry_ok core /\ buttons_ok core) ->
              exists core, Desk.browserCore (Desk.keydowns URL es d) = Some core /\
                           tabs core <> [] /\ registry_ok core /\ buttons_ok core) as Hrun.
    { induction es as [|e es IH]; intros d Hd; [done|].
      simpl. apply IH. destruct Hd as (core & Hcore & Hok).
      exists (keyed URL e core). rewrite keydown_core, Hcore. split; [done|].
      by apply keyed_ok. }
    apply Hrun. eexists. split; [reflexivity|].
    pose proof (registry_ok_ids _ (registry_ok_new p)) as Hids.
    split; [apply createNewTab_nonempty|].
    split; [by apply registry_ok_createNewTab | by apply buttons_ok_createNewTab].
Qed.

End Shortcuts.

(** ** The elements offered to the assistant *)

Lemma substring_short (m : nat) (s : string) :
  String.length (String.substring 0 m s) <= m /\
  exists rest, s = String.substring 0 m s +:+ rest.
Proof.
  revert s. induction m as [|m IH]; intros s.
  - destruct s; simpl; (split; [lia|]); by eexists.
  - destruct s as [|c s]; simpl; [split; [lia | by exists EmptyString]|].
    destruct (IH s) as [Hlen [rest Hrest]]. split; [lia|].
    exists rest. change (String c s = String c (String.substring 0 m s +:+ rest)).
    by rewrite <- Hrest.
Qed.

Lemma filter_lookup_before {A} (P : A -> Prop) `{forall x, Decision (P x)}
    (l : list A) (i : nat) (x : A) :
  l !! i = Some x -> P x ->
  filter P l !! length (filter P (take i l)) = Some x.
Proof.
  intros Hl HP.
  assert (filter P l = (filter P (take i l) ++ x :: filter P (drop (S i) l))%list) as ->.
  { rewrite <- (take_drop_middle l i x Hl) at 1.
    by rewrite filter_app, filter_cons_True. }
  rewrite lookup_app_r by lia. by rewrite Nat.sub_diag.
Qed.

Lemma filter_lookup_origin {A} (P : A -> Prop) `{forall x, Decision (P x)}
    (l : list A) (k : nat) (x : A) :
  filter P l !! k = Some x ->
  exists i, l !! i = Some x /\ P x /\ k = length (filter P (take i l)).
Proof.
  revert k. induction l as [|a l IH]; intros k; [done|].
  rewrite filter_cons. destruct (decide (P a)) as [Ha|Ha].
  - destruct k as [|k]; simpl.
    + intros [= <-]. by exists 0.
    + intros (i & Hi & Hx & ->)%IH. exists (S i). split; [done|]. split; [done|].
      simpl. by rewrite filter_cons_True.
  - intros (i & Hi & Hx & ->)%IH. exists (S i). split; [done|]. split; [done|].
    simpl. by rewrite filter_cons_False.
Qed.

Lemma filter_take_length {A} (P : A -> Prop) `{forall x, Decision (P x)}
    (l : list A) (n : nat) :
  length (filter P (take n l)) <= length (filter P l).
Proof.
  rewrite <- (take_drop n l) at 2. rewrite filter_app, length_app. lia.
Qed.

Lemma filter_before_lt {A} (P : A -> Prop) `{forall x, Decision (P x)}
    (l : list A) (i j : nat) (x : A) :
  i < j -> l !! i = Some x -> P x ->
  length (filter P (take i l)) < length (filter P (take j l)).
Proof.
  intros Hij Hi Hx.
  pose proof (filter_take_length P (take j l) (S i)) as Hle.
  rewrite take_take in Hle. replace (S i `min` j) with (S i) in Hle by lia.
  rewrite (take_S_r l i x Hi), filter_app, filter_cons_True, length_app in Hle by done.
  simpl in Hle. lia.
Qed.

(** X30. What [getClickableElements] offers: nothing without a frame or for
    a page of another origin; otherwise one entry for every link, button,
    input, select, text area, [onclick] element and [role="button"] element
    of the document and no other entry, in document order and numbered 0,
    1, 2, ... without gaps: the entry of an element stands at the number
    that counts the listed elements before it.  An entry holds its number,
    the tag in lower case, the first fifty characters of the trimmed text,
    and the type, the id and the class of the element.  Every element that
    the text strategy of the resolver can return is among them; but a
    select, a text area or a [role="button"] element without [onclick] is
    offered although the text strategy can never return it. *)
Theorem clickable_elements_offered (nodes : list Node.t) :
  let offered := getClickableElements (Document nodes) in
  let listed := fun n : Node.t =>
    Element.tagName (Node.element n) ∈ ["A"; "BUTTON"; "INPUT"; "SELECT"; "TEXTAREA"]
    \/ Element.onclick (Node.element n) = true
    \/ Node.role n = Some "button" in
  let entry := fun (k : nat) (n : Node.t) =>
    Clickable.mk k
      (JS.toLowerCase (Element.tagName (Node.element n)))
      (String.substring 0 50 (JS.trim (Element.textContent (Node.element n))))
      (Node.type n) (Element.id (Node.element n)) (Node.className n) in
  let before := fun i : nat =>
    length (filter (fun n => clickableNode n = true) (take i nodes)) in
  getClickableElements NoFrame = [] /\ getClickableElements Foreign = [] /\
  (forall n, clickableNode n = true <-> listed n) /\
  (forall i n, nodes !! i = Some n -> listed n ->
     offered !! before i = Some (entry (before i) n)) /\
  (forall k c, offered !! k = Some c ->
     exists i n, nodes !! i = Some n /\ listed n /\ k = before i /\ c = entry k n) /\
  (forall i j n m, i < j -> nodes !! i = Some n -> nodes !! j = Some m ->
     listed n -> listed m ->
     before i < before j /\
     offered !! before i = Some (entry (before i) n) /\
     offered !! before j = Some (entry (before j) m)) /\
  length offered = before (length nodes) /\
  Clickable.index <$> offered = seq 0 (length offered) /\
  length offered <= length nodes /\
  (forall c, c ∈ offered -> String.length (Clickable.text c) <= 50) /\
  (forall target i,
     byText (Node.element <$> nodes) target = Some i ->
     exists n, nodes !! i = Some n /\ offered !! before i = Some (entry (before i) n)) /\
  (forall n, n ∈ nodes -> Element.onclick (Node.element n) = false ->
     Element.tagName (Node.element n) = "SELECT" \/
     Element.tagName (Node.element n) = "TEXTAREA" \/
     (Node.role n = Some "button" /\
      Element.tagName (Node.element n) ∉ ["A"; "BUTTON"; "INPUT"]) ->
     (exists k, offered !! k = Some (entry k n)) /\
     textCandidate (Node.element n) = false).
Proof.
  intros offered listed entry before.
  assert (forall n, clickableNode n = true <-> listed n) as Hlisted.
  { intros n. unfold clickableNode, listed, hasTag.
    destruct (Element.onclick (Node.element n)).
    - rewrite orb_true_r. simpl. split; [by right; left | done].
    - rewrite orb_false_r. split.
      + intros [H|H]%orb_true_iff; apply bool_decide_eq_true in H; auto.
      + intros [H|[H|H]]; [|done|]; apply orb_true_iff; [left | right];
          by apply bool_decide_eq_true. }
  assert (offered = imap entry (filter (fun n => clickableNode n = true) nodes)) as Hoffered
    by reflexivity.
  assert (forall i n, nodes !! i = Some n -> listed n ->
            offered !! before i = Some (entry (before i) n)) as Hcomplete.
  { intros i n Hi Hn%Hlisted. rewrite Hoffered, list_lookup_imap. unfold before.
    by rewrite (filter_lookup_before _ nodes i n Hi Hn). }
  split; [done|]. split; [done|]. split; [exact Hlisted|]. split; [exact Hcomplete|].
  split_and!.
  - intros k c Hk. rewrite Hoffered, list_lookup_imap in Hk.
    destruct (filter _ nodes !! k) as [n|] eqn:Hn; [|done]. injection Hk as <-.
    apply filter_lookup_origin in Hn as (i & Hi & Hc & ->).
    exists i, n. split; [done|]. split; [by apply Hlisted|]. done.
  - intros i j n m Hij Hi Hj Hn Hm. split_and!; [|by apply Hcomplete..].
    unfold before. eapply filter_before_lt; [done.. |]. by apply Hlisted.
  - rewrite Hoffered, length_imap. unfold before. by rewrite firstn_all.
  - rewrite Hoffered, length_imap. apply list_eq. intros k.
    rewrite list_lookup_fmap, list_lookup_imap.
    destruct (filter _ nodes !! k) as [n|] eqn:Hk; simpl.
    + rewrite lookup_seq_lt; [done|]. by eapply lookup_lt_Some.
    + rewrite lookup_seq_ge; [done|]. by apply lookup_ge_None.
  - rewrite Hoffered, length_imap. apply length_filter.
  - intros c Hc. apply list_elem_of_lookup in Hc as [k Hk].
    rewrite Hoffered, list_lookup_imap in Hk.
    destruct (filter _ nodes !! k) as [n|] eqn:Hn; [|done]. injection Hk as <-.
    apply (substring_short 50).
  - intros target i Hfound.
    apply byText_spec in Hfound as (e & He & Hcand & _).
    rewrite list_lookup_fmap in He.
    destruct (nodes !! i) as [n|] eqn:Hn; [|done]. injection He as <-.
    exists n. split; [done|]. apply Hcomplete; [done|].
    apply textCandidate_spec in Hcand. unfold listed.
    destruct Hcand as [H|[H|[H|H]]]; [left; rewrite H..|by right; left];
      repeat (first [apply list_elem_of_here | apply list_elem_of_further]).
  - intros n Hin Honclick Hkind. split.
    + apply list_elem_of_lookup in Hin as [i Hi].
      eexists. apply (Hcomplete i n Hi). unfold listed.
      destruct Hkind as [H|[H|[H _]]]; [left; rewrite H..|by right; right];
        repeat (first [apply list_elem_of_here | apply list_elem_of_further]).
    + destruct (textCandidate (Node.element n)) eqn:Hcand; [|done].
      apply textCandidate_spec in Hcand as [H|[H|[H|H]]]; [..|congruence];
        destruct Hkind as [K|[K|[_ K]]]; try congruence;
        exfalso; apply K; rewrite H;
        repeat (first [apply list_elem_of_here | apply list_elem_of_further]).
Qed.

(** ** Scrolling, shortcuts and offered elements on samples *)


(** An instance of X29: Ctrl+W is the shortcut that closes the tab, W alone
    is none, and after Ctrl+W twice there is still a tab. *)
Lemma shortcuts_keep_registry_witness :
  shortcutOf ctrlW = Some CloseTabKey /\
  fst (Desk.keydown WhatwgURL.orThrow ctrlW desk) = true /\
  shortcutOf plainW = None /\
  snd (Desk.keydown WhatwgURL.orThrow plainW desk) = desk /\
  exists core,
    Desk.browserCore (Desk.keydowns WhatwgURL.orThrow [ctrlW; ctrlW] desk) = Some core /\
    tabs core <> [].
Proof.
  destruct (shortcuts_keep_registry WhatwgURL.orThrow) as [Hkey Hrun].
  destruct (Hkey ctrlW desk) as (Hprevented & _).
  destruct (Hkey plainW desk) as (_ & _ & Hnone & _).
  destruct (Hrun [ctrlW; ctrlW] blankPage None true true Desk.Elsewhere false)
    as (core & Hcore & Hne & _).
  refine (conj eq_refl (conj Hprevented (conj eq_refl (conj (Hnone eq_refl) _)))).
  exists core. split; [exact Hcore | exact Hne].
Defined.

(** An instance of X30: the button that the text strategy finds for
    "submit" is offered as entry 0, and the text area is offered as entry 1
    although the text strategy can never return it. *)
Lemma clickable_elements_offered_witness :
  byText (Node.element <$> commentPage) "submit" = Some 0 /\
  getClickableElements (Document commentPage) !! 0
  = Some (Clickable.mk 0 "button" "Submit form" (Some "submit") EmptyString "btn primary") /\
  Element.tagName (Node.element commentNode) = "TEXTAREA" /\
  getClickableElements (Document commentPage) !! 1
  = Some (Clickable.mk 1 "textarea" EmptyString (Some "textarea") EmptyString EmptyString) /\
  length (getClickableElements (Document commentPage)) = 2 /\
  textCandidate (Node.element commentNode) = false.
Proof.
  assert (byText (Node.element <$> commentPage) "submit" = Some 0) as Hfound
    by (vm_compute; reflexivity).
  assert (commentNode ∈ commentPage) as Hin
    by apply list_elem_of_further, list_elem_of_here.
  destruct (clickable_elements_offered commentPage)
    as (_ & _ & _ & Hall & _ & _ & Hlen & _ & _ & _ & _ & Hform).
  pose proof (Hall 0 buttonNode eq_refl
                (or_introl (list_elem_of_further _ _ _ (list_elem_of_here _ _)))) as H0.
  pose proof (Hall 1 commentNode eq_refl
                (or_introl (list_elem_of_further _ _ _ (list_elem_of_further _ _ _
                   (list_elem_of_further _ _ _ (list_elem_of_further _ _ _
                      (list_elem_of_here _ _))))))) as H1.
  destruct (Hform commentNode Hin eq_refl (or_intror (or_introl eq_refl))) as [_ Hnot].
  exact (conj Hfound (conj H0 (conj eq_refl (conj H1 (conj Hlen Hnot))))).
Defined.
